(** * Virtual-GameVault: the multi-source game search pipeline

    A shallow embedding of [src/js/search-manager.js] (class SearchManager),
    of the Wikipedia service (class WikipediaService) and of the Wikidata
    response parser (class WikidataService), with the properties the
    specification states about them.

    Conventions of the embedding
    - JavaScript strings are sequences of code units; the code units
      U+0000..U+00FF are modelled ([ascii]), with the white space and the
      letter cases JavaScript gives them.
    - JavaScript numbers that hold scores are exact rationals ([Q]); counts,
      clock readings and years are integers.
    - Objects live in a store ([Heap]) and arrays hold references ([loc]),
      so that in-place updates are visible through every alias.
    - [async] functions are run to completion; a rejected promise is the
      outcome [Thrown]. *)

From Stdlib Require Import QArith Qabs Qminmax Lqa Sorted Permutation Ascii String.
From Stdlib Require Import DecimalString Qround.
From stdpp Require Import gmap strings list fin_maps functions.
Close Scope Q_scope.
Open Scope string_scope.

(** ** JavaScript strings *)

Module JsString.

(** Code units that [String.prototype.trim] strips: TAB, LF, VT, FF, CR,
    SPACE and NO-BREAK SPACE. *)
Definition isWhiteSpace (c : ascii) : bool :=
  let n := nat_of_ascii c in
  ((9 <=? n)%nat && (n <=? 13)%nat) || (n =? 32)%nat || (n =? 160)%nat.

(** Code units with a lower-case partner 32 places up: A-Z, and the Latin-1
    capitals U+00C0..U+00DE without the multiplication sign U+00D7. *)
Definition isUpperCase (c : ascii) : bool :=
  let n := nat_of_ascii c in
  ((65 <=? n)%nat && (n <=? 90)%nat)
  || ((192 <=? n)%nat && (n <=? 222)%nat && negb (n =? 215)%nat).

Definition lowerChar (c : ascii) : ascii :=
  if isUpperCase c then ascii_of_nat (nat_of_ascii c + 32) else c.

Fixpoint toLowerCase (s : string) : string :=
  match s with
  | EmptyString => EmptyString
  | String c s' => String (lowerChar c) (toLowerCase s')
  end.

Fixpoint trimStart (s : string) : string :=
  match s with
  | EmptyString => EmptyString
  | String c s' => if isWhiteSpace c then trimStart s' else s
  end.

Fixpoint trimEnd (s : string) : string :=
  match s with
  | EmptyString => EmptyString
  | String c s' =>
      match trimEnd s' with
      | EmptyString => if isWhiteSpace c then EmptyString else String c EmptyString
      | t => String c t
      end
  end.

Definition trim (s : string) : string := trimEnd (trimStart s).

(** [s.includes(t)]: [t] occurs in [s] as a contiguous run. *)
Fixpoint includes (s t : string) : bool :=
  if String.prefix t s then true
  else match s with
       | EmptyString => false
       | String _ s' => includes s' t
       end.

(** [s.startsWith(t)] up to letter case, as a regular expression with the
    [i] flag matches a literal. *)
Definition startsWithIgnoreCase (t s : string) : bool :=
  String.prefix (toLowerCase t) (toLowerCase s).

Definition isDigit (c : ascii) : bool :=
  let n := nat_of_ascii c in (48 <=? n)%nat && (n <=? 57)%nat.

Definition digitValue (c : ascii) : nat := nat_of_ascii c - 48.

(** Number of code units that are not white space. *)
Fixpoint nonWhiteSpaceCount (s : string) : nat :=
  match s with
  | EmptyString => 0
  | String c s' =>
      (if isWhiteSpace c then 0 else 1) + nonWhiteSpaceCount s'
  end.

(** The one-character string made of a double quote. *)
Definition doubleQuote : string := String (ascii_of_nat 34) EmptyString.

(** [xs.join(sep)] *)
Definition join (sep : string) (xs : list string) : string :=
  String.concat sep xs.

(** [drop n s]: [s.slice(n)] *)
Fixpoint drop (n : nat) (s : string) : string :=
  match n, s with
  | O, _ => s
  | S n', String _ s' => drop n' s'
  | S _, EmptyString => EmptyString
  end.

End JsString.

(** ** JavaScript values *)

Module Js.

(** A property that holds a string when it is present. *)
Inductive jsstr : Type :=
  | JUndefined
  | JNull
  | JStr (s : string).

(** [!!v] *)
Definition truthy (v : jsstr) : bool :=
  match v with
  | JStr s => negb (s =? "")%string
  | _ => false
  end.

(** [(v || '')] *)
Definition orEmpty (v : jsstr) : string :=
  match v with
  | JStr s => s
  | _ => ""
  end.

(** [v === w] *)
Definition strictEq (v w : jsstr) : bool :=
  match v, w with
  | JUndefined, JUndefined => true
  | JNull, JNull => true
  | JStr s, JStr t => (s =? t)%string
  | _, _ => false
  end.

(** [v || w] *)
Definition orElse (v w : jsstr) : jsstr := if truthy v then v else w.

(** The text of [v] inside a template literal. *)
Definition template (v : jsstr) : string :=
  match v with
  | JUndefined => "undefined"
  | JNull => "null"
  | JStr s => s
  end.

(** [a && a.length > 0] for an array property that may be absent. *)
Definition nonEmptyArray {A} (a : option (list A)) : bool :=
  match a with
  | Some (_ :: _) => true
  | _ => false
  end.

(** [(a || [])] *)
Definition orNil {A} (a : option (list A)) : list A :=
  match a with
  | Some l => l
  | None => []
  end.

(** How a call ends: with a value, or with an exception. *)
Inductive Outcome (A : Type) : Type :=
  | Returned (a : A)
  | Thrown (error : string).
Arguments Returned {A} a.
Arguments Thrown {A} error.

(** [Array.prototype.sort(compareFn)].  ECMAScript fixes that the sort is
    stable and leaves the algorithm to the engine; it is modelled as the
    stable insertion sort.  [before x y] is [compareFn(x, y) < 0]. *)
Section Sort.
Context {A : Type} (before : A -> A -> bool).

Fixpoint insertSorted (x : A) (sorted : list A) : list A :=
  match sorted with
  | [] => [x]
  | y :: rest =>
      if before x y then x :: y :: rest else y :: insertSorted x rest
  end.

Definition Array_sort (a : list A) : list A :=
  fold_left (fun sorted x => insertSorted x sorted) a [].
End Sort.

(** What ECMAScript asks of [compareFn] for the elements of the array (a
    "consistent comparator"): [compareFn(a, a)] is 0, and being 0, being
    negative and being positive are each transitive, being 0 also
    symmetric. *)
Definition consistentComparator {A} (compare : A -> A -> Q) (items : list A)
  : Prop :=
  forall a b c, a ∈ items -> b ∈ items -> c ∈ items ->
    (compare a a == 0)%Q
    /\ ((compare a b == 0)%Q -> (compare b a == 0)%Q)
    /\ ((compare a b == 0)%Q -> (compare b c == 0)%Q -> (compare a c == 0)%Q)
    /\ ((compare a b < 0)%Q -> (compare b c < 0)%Q -> (compare a c < 0)%Q)
    /\ ((0 < compare a b)%Q -> (0 < compare b c)%Q -> (0 < compare a c)%Q).

(** What ECMAScript fixes of the array after [items.sort(compareFn)], on
    every engine: the elements are rearranged; and when [compareFn] is a
    consistent comparator for them, no element stands behind one that the
    comparison puts after it.  When it is not, the order is left to the
    engine.  (That the sort is stable is not stated here: the relation
    admits every order that an engine may give, and some more among
    elements that compare as equal.) *)
Definition sortOrder {A} (compare : A -> A -> Q) (items sorted : list A)
  : Prop :=
  items ≡ₚ sorted
  /\ (consistentComparator compare items ->
      forall i j a b,
        (i < j)%nat -> sorted !! i = Some a -> sorted !! j = Some b ->
        ~ (compare b a < 0)%Q).

(** The arithmetic of numbers.  A JavaScript number is an IEEE double: it is
    a rational, the difference of two numbers is rounded to a double, and
    the literal [0.1] is the double next to 1/10.  The definitions of this
    file compute with exact rationals; where rounding can decide a
    comparison, the subtraction and the literal are parameters.
    [subtract x y] is [x - y], and [oneTenth] is [0.1]. *)
Record Arithmetic : Type := mkArithmetic {
  subtract : Q -> Q -> Q;
  oneTenth : Q
}.

(** The arithmetic of the rationals. *)
Definition exactArithmetic : Arithmetic := mkArithmetic Qminus (1 # 10).

(** An arithmetic that is the exact one up to [eps] on the numbers from 0
    to 1; that of the doubles is, for every [eps] from 2^-53 on. *)
Definition roundsWithin (eps : Q) (num : Arithmetic) : Prop :=
  (forall x y, (0 <= x <= 1)%Q -> (0 <= y <= 1)%Q ->
               (Qabs (subtract num x y - (x - y)) <= eps)%Q)
  /\ (Qabs (oneTenth num - (1 # 10)) <= eps)%Q.

(** [a.slice(0, n)] *)
Definition slice0 {A} (n : nat) (a : list A) : list A := firstn n a.

End Js.

Import JsString Js.

(** ** The search manager *)

Module SearchManager.

(** *** Data model *)

(** [result.dataSource] *)
Record DataSource : Type := mkDataSource {
  ds_primary : jsstr;
  ds_wikidataId : jsstr;
  ds_attribution : jsstr;
  ds_fallback : jsstr;
  ds_wikipediaAttribution : jsstr
}.

(** [result.searchMetadata] *)
Record SearchMetadata : Type := mkSearchMetadata {
  source : jsstr;
  query : jsstr;
  timestamp : option Z;
  confidence : option Q;
  enhancedWithWikipedia : bool
}.

(** [result.attribution], as [generateAttribution] builds it. *)
Record Attribution : Type := mkAttribution {
  attr_text : string;
  attr_url : jsstr;
  license : string;
  licenseUrl : string
}.

(** A search result (Candidate, RankedResult): the properties the search
    manager reads or writes.  Properties that are only carried along by the
    object spread (credits, store links, thumbnails) are left out. *)
Record Candidate : Type := mkCandidate {
  id : jsstr;
  wikidataId : jsstr;
  title : jsstr;
  releaseDate : jsstr;
  developer : jsstr;
  publisher : jsstr;
  platforms : option (list string);
  genre : option (list string);
  genres : option (list string);
  coverImage : jsstr;
  description : jsstr;
  series : jsstr;
  engine : jsstr;
  modes : option (list string);
  dataSource : option DataSource;
  attribution : option Attribution;
  searchMetadata : option SearchMetadata
}.

(** [{}] *)
Definition emptyDataSource : DataSource :=
  mkDataSource JUndefined JUndefined JUndefined JUndefined JUndefined.

Definition emptySearchMetadata : SearchMetadata :=
  mkSearchMetadata JUndefined JUndefined None None false.

Definition emptyObject : Candidate :=
  mkCandidate JUndefined JUndefined JUndefined JUndefined JUndefined JUndefined
    None None None JUndefined JUndefined JUndefined JUndefined None None None None.

(** Property assignments [o.f = v]. *)
Definition set_fallback (v : jsstr) (d : DataSource) : DataSource :=
  mkDataSource (ds_primary d) (ds_wikidataId d) (ds_attribution d) v
    (ds_wikipediaAttribution d).

Definition set_wikipediaAttribution (v : jsstr) (d : DataSource) : DataSource :=
  mkDataSource (ds_primary d) (ds_wikidataId d) (ds_attribution d)
    (ds_fallback d) v.

Definition set_enhancedWithWikipedia (v : bool) (m : SearchMetadata)
  : SearchMetadata :=
  mkSearchMetadata (source m) (query m) (timestamp m) (confidence m) v.

Definition set_id (v : jsstr) (o : Candidate) : Candidate :=
  mkCandidate v (wikidataId o) (title o) (releaseDate o) (developer o)
    (publisher o) (platforms o) (genre o) (genres o) (coverImage o)
    (description o) (series o) (engine o) (modes o) (dataSource o)
    (attribution o) (searchMetadata o).

Definition set_platforms (v : option (list string)) (o : Candidate) : Candidate :=
  mkCandidate (id o) (wikidataId o) (title o) (releaseDate o) (developer o)
    (publisher o) v (genre o) (genres o) (coverImage o)
    (description o) (series o) (engine o) (modes o) (dataSource o)
    (attribution o) (searchMetadata o).

Definition set_description (v : jsstr) (o : Candidate) : Candidate :=
  mkCandidate (id o) (wikidataId o) (title o) (releaseDate o) (developer o)
    (publisher o) (platforms o) (genre o) (genres o) (coverImage o)
    v (series o) (engine o) (modes o) (dataSource o)
    (attribution o) (searchMetadata o).

Definition set_series (v : jsstr) (o : Candidate) : Candidate :=
  mkCandidate (id o) (wikidataId o) (title o) (releaseDate o) (developer o)
    (publisher o) (platforms o) (genre o) (genres o) (coverImage o)
    (description o) v (engine o) (modes o) (dataSource o)
    (attribution o) (searchMetadata o).

Definition set_modes (v : option (list string)) (o : Candidate) : Candidate :=
  mkCandidate (id o) (wikidataId o) (title o) (releaseDate o) (developer o)
    (publisher o) (platforms o) (genre o) (genres o) (coverImage o)
    (description o) (series o) (engine o) v (dataSource o)
    (attribution o) (searchMetadata o).

Definition set_dataSource (v : option DataSource) (o : Candidate) : Candidate :=
  mkCandidate (id o) (wikidataId o) (title o) (releaseDate o) (developer o)
    (publisher o) (platforms o) (genre o) (genres o) (coverImage o)
    (description o) (series o) (engine o) (modes o) v
    (attribution o) (searchMetadata o).

Definition set_searchMetadata (v : option SearchMetadata) (o : Candidate)
  : Candidate :=
  mkCandidate (id o) (wikidataId o) (title o) (releaseDate o) (developer o)
    (publisher o) (platforms o) (genre o) (genres o) (coverImage o)
    (description o) (series o) (engine o) (modes o) (dataSource o)
    (attribution o) v.

(** [result.dataSource?.attribution] *)
Definition dataSourceAttribution (o : Candidate) : jsstr :=
  match dataSource o with
  | Some d => ds_attribution d
  | None => JUndefined
  end.

(** [result.searchMetadata?.confidence || 0] *)
Definition confidenceOf (o : Candidate) : Q :=
  match searchMetadata o with
  | Some m => match confidence m with Some c => c | None => 0%Q end
  | None => 0%Q
  end.

(** [result.searchMetadata?.source === 'wikidata' ? 1 : 0] *)
Definition sourceScore (o : Candidate) : Z :=
  match searchMetadata o with
  | Some m => match source m with
              | JStr s => if (s =? "wikidata")%string then 1 else 0
              | _ => 0
              end
  | None => 0
  end.

(** *** The object store *)

Definition loc := nat.

(** The objects of the program, by reference. *)
Definition Heap := loc -> Candidate.

Definition store (l : loc) (o : Candidate) (h : Heap) : Heap :=
  fun l' => if (l' =? l)%nat then o else h l'.

(** An assignment to a property of the object at [l]. *)
Definition modify (l : loc) (f : Candidate -> Candidate) (h : Heap) : Heap :=
  store l (f (h l)) h.

(** *** Scoring *)

(** [calculateDataCompleteness] *)
Definition calculateDataCompleteness (result : Candidate) : Q :=
  let fields :=
    [ truthy (title result);
      truthy (releaseDate result);
      truthy (developer result);
      truthy (publisher result);
      nonEmptyArray (platforms result);
      nonEmptyArray (genre result);
      truthy (coverImage result);
      truthy (description result) ] in
  let filledFields := length (filter (fun field => field = true) fields) in
  (inject_Z (Z.of_nat filledFields) / inject_Z (Z.of_nat (length fields)))%Q.

(** [calculateWikidataConfidence] *)
Definition calculateWikidataConfidence (result : Candidate) (query : string) : Q :=
  let confidence := 0%Q in
  let queryLower := toLowerCase query in
  let titleLower := toLowerCase (orEmpty (title result)) in
  let confidence :=
    if (titleLower =? queryLower)%string then (confidence + (5#10))%Q
    else if includes titleLower queryLower || includes queryLower titleLower
         then (confidence + (3#10))%Q
         else confidence in
  let confidence :=
    (confidence + calculateDataCompleteness result * (3#10))%Q in
  let confidence :=
    if truthy (wikidataId result) then (confidence + (2#10))%Q else confidence in
  Qmin confidence 1.

(** [calculateWikipediaConfidence] *)
Definition calculateWikipediaConfidence (result : Candidate) (query : string) : Q :=
  let confidence := 0%Q in
  let queryLower := toLowerCase query in
  let titleLower := toLowerCase (orEmpty (title result)) in
  let confidence :=
    if (titleLower =? queryLower)%string then (confidence + (4#10))%Q
    else if includes titleLower queryLower || includes queryLower titleLower
         then (confidence + (25#100))%Q
         else confidence in
  let confidence :=
    (confidence + calculateDataCompleteness result * (25#100))%Q in
  let confidence :=
    if truthy (dataSourceAttribution result)
    then (confidence + (15#100))%Q else confidence in
  let confidence :=
    if truthy (description result)
       && (50 <? String.length (orEmpty (description result)))%nat
    then (confidence + (2#10))%Q else confidence in
  Qmin confidence 1.

(** [hasGoodQualityResults] *)
Definition hasGoodQualityResults (h : Heap) (results : list loc) : bool :=
  match results with
  | [] => false
  | _ =>
      existsb (fun result =>
        let confidence := confidenceOf (h result) in
        let completeness := calculateDataCompleteness (h result) in
        (if Qlt_le_dec (7#10) confidence then true else false)
        && (if Qlt_le_dec (5#10) completeness then true else false)) results
  end.

(** *** Similarity *)

(** The first run of four digits, as [dateString.match(/(\d{4})/)] finds it,
    read as a number. *)
Fixpoint firstFourDigits (s : string) : option nat :=
  match s with
  | EmptyString => None
  | String a s' =>
      match s' with
      | String b (String c (String d _)) =>
          if isDigit a && isDigit b && isDigit c && isDigit d
          then Some (1000 * digitValue a + 100 * digitValue b
                     + 10 * digitValue c + digitValue d)%nat
          else firstFourDigits s'
      | _ => None
      end
  end.

(** [extractYear] *)
Definition extractYear (dateString : jsstr) : option nat :=
  if negb (truthy dateString) then None
  else firstFourDigits (orEmpty dateString).

(** [areResultsSimilar] *)
Definition areResultsSimilar (result1 result2 : Candidate) : bool :=
  let title1 := trim (toLowerCase (orEmpty (title result1))) in
  let title2 := trim (toLowerCase (orEmpty (title result2))) in
  if (title1 =? title2)%string then true
  else if includes title1 title2 || includes title2 title1 then true
  else
    match extractYear (releaseDate result1), extractYear (releaseDate result2) with
    | Some year1, Some year2 =>
        if negb (year1 =? 0)%nat && negb (year2 =? 0)%nat && (year1 =? year2)%nat
        then
          let platforms1 := map toLowerCase (orNil (platforms result1)) in
          let platforms2 := map toLowerCase (orNil (platforms result2)) in
          let commonPlatforms :=
            filter (fun p => existsb (String.eqb p) platforms2 = true) platforms1 in
          (0 <? length commonPlatforms)%nat
        else false
    | _, _ => false
    end.

(** *** Merging *)

(** [enhanceResultWithWikipediaData] makes every assignment to the object that
    [wikidataResult] refers to.  Its five statements, in the order of the
    source: *)

(** "Add missing description from Wikipedia" *)
Definition addMissingDescription (wikidataResult wikipediaResult : loc)
    (h : Heap) : Heap :=
  if negb (truthy (description (h wikidataResult)))
     && truthy (description (h wikipediaResult))
  then modify wikidataResult
         (set_description (description (h wikipediaResult))) h
  else h.

(** "Add Wikipedia attribution" *)
Definition addWikipediaAttribution (wikidataResult wikipediaResult : loc)
    (h : Heap) : Heap :=
  if truthy (dataSourceAttribution (h wikipediaResult)) then
    let h := modify wikidataResult (fun o =>
               set_dataSource
                 (Some (default emptyDataSource (dataSource o))) o) h in
    let h := modify wikidataResult (fun o =>
               set_dataSource
                 (set_fallback (JStr "wikipedia") <$> dataSource o) o) h in
    modify wikidataResult (fun o =>
      set_dataSource
        (set_wikipediaAttribution
           (dataSourceAttribution (h wikipediaResult)) <$> dataSource o) o) h
  else h.

(** "Enhance with additional Wikipedia metadata": series *)
Definition addSeries (wikidataResult wikipediaResult : loc) (h : Heap) : Heap :=
  if truthy (series (h wikipediaResult))
     && negb (truthy (series (h wikidataResult)))
  then modify wikidataResult (set_series (series (h wikipediaResult))) h
  else h.

(** "Enhance with additional Wikipedia metadata": modes *)
Definition addModes (wikidataResult wikipediaResult : loc) (h : Heap) : Heap :=
  match modes (h wikipediaResult) with
  | Some wikipediaModes =>
      if negb (nonEmptyArray (modes (h wikidataResult)))
      then modify wikidataResult (set_modes (Some wikipediaModes)) h
      else h
  | None => h
  end.

(** "Mark as enhanced" *)
Definition markEnhanced (wikidataResult : loc) (h : Heap) : Heap :=
  let h := modify wikidataResult (fun o =>
             set_searchMetadata
               (Some (default emptySearchMetadata (searchMetadata o))) o) h in
  modify wikidataResult (fun o =>
    set_searchMetadata
      (set_enhancedWithWikipedia true <$> searchMetadata o) o) h.

Definition enhanceResultWithWikipediaData
    (wikidataResult wikipediaResult : loc) (h : Heap) : Heap :=
  let h := addMissingDescription wikidataResult wikipediaResult h in
  let h := addWikipediaAttribution wikidataResult wikipediaResult h in
  let h := addSeries wikidataResult wikipediaResult h in
  let h := addModes wikidataResult wikipediaResult h in
  markEnhanced wikidataResult h.

(** [wikidataResults.some(r => this.areResultsSimilar(r, wikipediaResult))] *)
Definition isDuplicate (h : Heap) (wikidataResults : list loc)
    (wikipediaResult : loc) : bool :=
  existsb (fun wikidataResult =>
    areResultsSimilar (h wikidataResult) (h wikipediaResult)) wikidataResults.

(** [wikidataResults.find(r => this.areResultsSimilar(r, wikipediaResult))] *)
Definition matchingResult (h : Heap) (wikidataResults : list loc)
    (wikipediaResult : loc) : option loc :=
  find (fun wikidataResult =>
    areResultsSimilar (h wikidataResult) (h wikipediaResult)) wikidataResults.

(** [mergeSearchResults]: the state of the [forEach] loop is the store and
    the array [mergedResults], which starts as a copy of the references in
    [wikidataResults]. *)
Definition mergeSearchResults (wikidataResults wikipediaResults : list loc)
    (h : Heap) : Heap * list loc :=
  fold_left
    (fun '((h, mergedResults) : Heap * list loc) wikipediaResult =>
       if negb (isDuplicate h wikidataResults wikipediaResult)
       then (h, (mergedResults ++ [wikipediaResult])%list)
       else
         match matchingResult h wikidataResults wikipediaResult with
         | Some wikidataResult =>
             (enhanceResultWithWikipediaData wikidataResult wikipediaResult h,
              mergedResults)
         | None => (h, mergedResults)
         end)
    wikipediaResults (h, wikidataResults).

(** *** Deduplication and ranking *)

(** [(result.platforms || []).sort()]: the default sort orders strings by
    their code units, and it sorts the array it is called on. *)
Definition sortedPlatforms (o : Candidate) : list string :=
  Array_sort String.ltb (orNil (platforms o)).

Definition sortPlatformsInPlace (result : loc) (h : Heap) : Heap :=
  match platforms (h result) with
  | Some _ =>
      modify result (fun o => set_platforms (Some (sortedPlatforms o)) o) h
  | None => h
  end.

(** [result.title?.toLowerCase()] *)
Definition titleLowerCase (o : Candidate) : jsstr :=
  match title o with
  | JStr s => JStr (toLowerCase s)
  | _ => JUndefined
  end.

(** The key of [removeDuplicates], with the platforms array as it stands. *)
Definition dedupKey (o : Candidate) : string :=
  template (titleLowerCase o) ++ "_" ++ template (releaseDate o) ++ "_"
  ++ join "," (orNil (platforms o)).

(** The [filter] callback of [removeDuplicates], run over [results] with the
    set [seen]. *)
Fixpoint removeDuplicatesFrom (seen : gset string) (results : list loc)
    (h : Heap) : Heap * list loc :=
  match results with
  | [] => (h, [])
  | result :: rest =>
      let key :=
        template (titleLowerCase (h result)) ++ "_"
        ++ template (releaseDate (h result)) ++ "_"
        ++ join "," (sortedPlatforms (h result)) in
      let h := sortPlatformsInPlace result h in
      if bool_decide (key ∈ seen) then removeDuplicatesFrom seen rest h
      else
        let '(h, kept) := removeDuplicatesFrom ({[key]} ∪ seen) rest h in
        (h, result :: kept)
  end.

(** [removeDuplicates] *)
Definition removeDuplicates (results : list loc) (h : Heap) : Heap * list loc :=
  removeDuplicatesFrom ∅ results h.

(** The comparison function that [rankAndDeduplicateResults] hands to
    [sort]. *)
Definition compareResults (h : Heap) (a b : loc) : Q :=
  let confidenceDiff := (confidenceOf (h b) - confidenceOf (h a))%Q in
  if Qlt_le_dec (1#10) (Qabs confidenceDiff) then confidenceDiff
  else
    let completenessA := calculateDataCompleteness (h a) in
    let completenessB := calculateDataCompleteness (h b) in
    let completenessDiff := (completenessB - completenessA)%Q in
    if Qlt_le_dec (1#10) (Qabs completenessDiff) then completenessDiff
    else
      let sourceScoreA := sourceScore (h a) in
      let sourceScoreB := sourceScore (h b) in
      inject_Z (sourceScoreB - sourceScoreA).

(** [q < 0] *)
Definition negative (q : Q) : bool :=
  if Qlt_le_dec q 0 then true else false.

(** [rankAndDeduplicateResults] *)
Definition rankAndDeduplicateResults (results : list loc) (h : Heap)
  : Heap * list loc :=
  let '(h, uniqueResults) := removeDuplicates results h in
  let uniqueResults :=
    Array_sort (fun a b => negative (compareResults h a b)) uniqueResults in
  (h, slice0 10 uniqueResults).

(** The comparison function in the arithmetic [num]; [compareResults] is
    the case of the exact arithmetic. *)
Definition compareResultsIn (num : Arithmetic) (h : Heap) (a b : loc) : Q :=
  let confidenceDiff :=
    subtract num (confidenceOf (h b)) (confidenceOf (h a)) in
  if Qlt_le_dec (oneTenth num) (Qabs confidenceDiff) then confidenceDiff
  else
    let completenessA := calculateDataCompleteness (h a) in
    let completenessB := calculateDataCompleteness (h b) in
    let completenessDiff := subtract num completenessB completenessA in
    if Qlt_le_dec (oneTenth num) (Qabs completenessDiff) then completenessDiff
    else
      let sourceScoreA := sourceScore (h a) in
      let sourceScoreB := sourceScore (h b) in
      inject_Z (sourceScoreB - sourceScoreA).

(** [rankAndDeduplicateResults] on any engine and in any arithmetic:
    [ranked] is the store and the array that the function may leave, the
    array [sorted] being one that [sort] may give for the comparison
    function.  The function above is the case of the insertion sort and the
    exact arithmetic. *)
Definition rankAndDeduplicateResultsOn (num : Arithmetic)
    (results : list loc) (h : Heap) (ranked : Heap * list loc) : Prop :=
  let '(h, uniqueResults) := removeDuplicates results h in
  exists sorted,
    sortOrder (compareResultsIn num h) uniqueResults sorted
    /\ ranked = (h, slice0 10 sorted).

(** *** The search manager and its environment *)

(** An entry of [searchCache]. *)
Record CacheEntry : Type := mkCacheEntry {
  results : list loc;
  entry_timestamp : Z
}.

(** A request made to one of the two services. *)
Inductive Call : Type :=
  | CallWikidata (query : string)
  | CallWikipedia (query : string).

(** The two services as the search manager sees them: for a query, the time
    the request takes (in ms) and how it ends.  [random k] is the text
    [Math.random().toString(36).substr(2, 9)] of the [k]-th draw. *)
Record Services : Type := mkServices {
  searchGameByTitle : string -> nat * Outcome (list Candidate);
  extractGameMetadata : string -> nat * Outcome (option Candidate);
  random : nat -> string
}.

(** The same services with another Wikipedia service. *)
Definition withWikipedia
    (wikipedia : string -> nat * Outcome (option Candidate))
    (svc : Services) : Services :=
  mkServices (searchGameByTitle svc) wikipedia (random svc).

(** The state a search runs in: the object store with its allocation
    pointer, the cache of the search manager, the clock ([Date.now()]), the
    requests made so far and the number of random draws made so far. *)
Record World : Type := mkWorld {
  heap : Heap;
  nextLoc : loc;
  searchCache : gmap string CacheEntry;
  now : Z;
  calls : list Call;
  randomDraws : nat
}.

Definition set_heap (v : Heap) (w : World) : World :=
  mkWorld v (nextLoc w) (searchCache w) (now w) (calls w) (randomDraws w).

Definition set_searchCache (v : gmap string CacheEntry) (w : World) : World :=
  mkWorld (heap w) (nextLoc w) v (now w) (calls w) (randomDraws w).

(** Time passes: [elapsed] ms later. *)
Definition later (elapsed : Z) (w : World) : World :=
  mkWorld (heap w) (nextLoc w) (searchCache w) (now w + elapsed) (calls w)
    (randomDraws w).

(** [cacheTimeout]: 5 minutes *)
Definition cacheTimeout : Z := 5 * 60 * 1000.

(** Computations of the search manager: they read and write the world and end
    with a value or an exception. *)
Definition M (A : Type) : Type := World -> Outcome A * World.

Definition ret {A} (a : A) : M A := fun w => (Returned a, w).

Definition bind {A B} (m : M A) (k : A -> M B) : M B :=
  fun w =>
    match m w with
    | (Returned a, w') => k a w'
    | (Thrown e, w') => (Thrown e, w')
    end.

(** [try { m } catch (error) { handler }] *)
Definition tryCatch {A} (m : M A) (handler : string -> M A) : M A :=
  fun w =>
    match m w with
    | (Returned a, w') => (Returned a, w')
    | (Thrown e, w') => handler e w'
    end.

Notation "x <- m ;; k" := (bind m (fun x => k))
  (at level 100, m at next level, right associativity).
Notation "m ;;; k" := (bind m (fun _ => k))
  (at level 100, right associativity).

Fixpoint mapM {A B} (f : A -> M B) (l : list A) : M (list B) :=
  match l with
  | [] => ret []
  | x :: l' => y <- f x ;; ys <- mapM f l' ;; ret (y :: ys)
  end.

(** [Date.now()] *)
Definition dateNow : M Z := fun w => (Returned (now w), w).

(** A new object. *)
Definition alloc (o : Candidate) : M loc :=
  fun w =>
    (Returned (nextLoc w),
     mkWorld (store (nextLoc w) o (heap w)) (S (nextLoc w)) (searchCache w)
       (now w) (calls w) (randomDraws w)).

(** A pure function of the store, such as [hasGoodQualityResults]. *)
Definition readHeap {A} (f : Heap -> A) : M A :=
  fun w => (Returned (f (heap w)), w).

(** A function that updates objects in place, such as [mergeSearchResults]. *)
Definition onHeap {A} (f : Heap -> Heap * A) : M A :=
  fun w => let '(h, a) := f (heap w) in (Returned a, set_heap h w).

(** [await this.wikidataService.searchGameByTitle(query)] *)
Definition awaitWikidata (svc : Services) (query : string)
  : M (list Candidate) :=
  fun w =>
    let '(elapsed, outcome) := searchGameByTitle svc query in
    (outcome,
     mkWorld (heap w) (nextLoc w) (searchCache w) (now w + Z.of_nat elapsed)
       (calls w ++ [CallWikidata query]) (randomDraws w)).

(** [await this.wikipediaService.extractGameMetadata(query)] *)
Definition awaitWikipedia (svc : Services) (query : string)
  : M (option Candidate) :=
  fun w =>
    let '(elapsed, outcome) := extractGameMetadata svc query in
    (outcome,
     mkWorld (heap w) (nextLoc w) (searchCache w) (now w + Z.of_nat elapsed)
       (calls w ++ [CallWikipedia query]) (randomDraws w)).

(** The decimal text of an integer. *)
Definition showZ (z : Z) : string := NilZero.string_of_int (Z.to_int z).

(** [generateSearchResultId] *)
Definition generateSearchResultId (svc : Services) : M string :=
  fun w =>
    (Returned ("search_" ++ showZ (now w) ++ "_" ++ random svc (randomDraws w)),
     mkWorld (heap w) (nextLoc w) (searchCache w) (now w) (calls w)
       (S (randomDraws w))).

(** [executeWikidataSearch] *)
Definition executeWikidataSearch (svc : Services) (query : string)
  : M (list loc) :=
  tryCatch
    (results <- awaitWikidata svc query ;;
     mapM (fun result =>
       timestamp <- dateNow ;;
       alloc (set_searchMetadata
                (Some (mkSearchMetadata (JStr "wikidata") (JStr query)
                         (Some timestamp)
                         (Some (calculateWikidataConfidence result query))
                         false))
                result)) results)
    (fun error => ret []).

(** [executeFallbackSearch] *)
Definition executeFallbackSearch (svc : Services) (query : string)
  : M (list loc) :=
  tryCatch
    (result <- awaitWikipedia svc query ;;
     match result with
     | None => ret []
     | Some result =>
         newId <- generateSearchResultId svc ;;
         timestamp <- dateNow ;;
         standardizedResult <-
           alloc (set_searchMetadata
                    (Some (mkSearchMetadata (JStr "wikipedia") (JStr query)
                             (Some timestamp)
                             (Some (calculateWikipediaConfidence result query))
                             false))
                    (set_id (JStr newId) result)) ;;
         ret [standardizedResult]
     end)
    (fun error => ret []).

(** [cleanCache] *)
Definition cleanCache : M unit :=
  fun w =>
    (Returned tt,
     set_searchCache
       (filter (fun kv => ~ (cacheTimeout < now w - entry_timestamp kv.2)%Z)
          (searchCache w)) w).

(** [cacheResult] *)
Definition cacheResult (query : string) (results : list loc) : M unit :=
  let cacheKey := trim (toLowerCase query) in
  (timestamp <- dateNow ;;
   (fun w =>
      (Returned tt,
       set_searchCache
         (<[cacheKey := mkCacheEntry results timestamp]> (searchCache w)) w))) ;;;
  cleanCache.

(** [getCachedResult] *)
Definition getCachedResult (query : string) : M (option (list loc)) :=
  fun w =>
    let cacheKey := trim (toLowerCase query) in
    match searchCache w !! cacheKey with
    | None => (Returned None, w)
    | Some cached =>
        if (cacheTimeout <? now w - entry_timestamp cached)%Z
        then (Returned None, set_searchCache (delete cacheKey (searchCache w)) w)
        else (Returned (Some (results cached)), w)
    end.

(** [searchGame] *)
Definition searchGame (svc : Services) (query : string) : M (list loc) :=
  if (query =? "")%string || (String.length (trim query) <? 2)%nat
  then ret []
  else
    let normalizedQuery := trim query in
    cachedResult <- getCachedResult normalizedQuery ;;
    match cachedResult with
    | Some cachedResult => ret cachedResult
    | None =>
        tryCatch
          (wikidataResults <- executeWikidataSearch svc normalizedQuery ;;
           good <- readHeap (fun h =>
                     (0 <? length wikidataResults)%nat
                     && hasGoodQualityResults h wikidataResults) ;;
           if good then
             results <- onHeap (rankAndDeduplicateResults wikidataResults) ;;
             cacheResult normalizedQuery results ;;;
             ret results
           else
             wikipediaResults <- executeFallbackSearch svc normalizedQuery ;;
             mergedResults <-
               onHeap (mergeSearchResults wikidataResults wikipediaResults) ;;
             finalResults <- onHeap (rankAndDeduplicateResults mergedResults) ;;
             cacheResult normalizedQuery finalResults ;;;
             ret finalResults)
          (fun error =>
             tryCatch
               (wikipediaResults <- executeFallbackSearch svc normalizedQuery ;;
                results <- onHeap (rankAndDeduplicateResults wikipediaResults) ;;
                cacheResult normalizedQuery results ;;;
                ret results)
               (fun fallbackError => ret []))
    end.

(** [clearCache] *)
Definition clearCache : M unit :=
  fun w => (Returned tt, set_searchCache ∅ w).

(** The object that [getSearchStatistics] returns. *)
Record SearchStatistics : Type := mkSearchStatistics {
  cacheSize : nat;
  stat_cacheTimeout : Z;
  lastCacheClean : Z
}.

(** [getSearchStatistics] *)
Definition getSearchStatistics : M SearchStatistics :=
  fun w =>
    (Returned (mkSearchStatistics (size (searchCache w)) cacheTimeout (now w)),
     w).

End SearchManager.

(** ** Notions for the invariants of the search *)

Module SearchInvariants.
Import SearchManager.

(** [result.searchMetadata.source], when there is a [searchMetadata]. *)
Definition sourceOf (o : Candidate) : option jsstr :=
  source <$> searchMetadata o.

(** What [searchGame] guarantees of a result array: no two entries have the
    same deduplication key, and no entry from Wikipedia is similar to an
    entry from Wikidata. *)
Definition distinctResults (h : Heap) (rs : list loc) : Prop :=
  NoDup ((fun l => dedupKey (h l)) <$> rs)
  /\ forall a b, a ∈ rs -> b ∈ rs ->
       sourceOf (h a) = Some (JStr "wikidata") ->
       sourceOf (h b) = Some (JStr "wikipedia") ->
       areResultsSimilar (h a) (h b) = false.

(** The worlds of a search manager: it starts with an empty cache, and then
    searches are made, with any services, and time passes. *)
Inductive Reachable : World -> Prop :=
  | reach_new (h : Heap) (n : loc) (t : Z) :
      Reachable (mkWorld h n ∅ t [] 0)
  | reach_search (svc : Services) (q : string) (w : World) :
      Reachable w -> Reachable (searchGame svc q w).2
  | reach_later (elapsed : Z) (w : World) :
      (0 <= elapsed)%Z -> Reachable w -> Reachable (later elapsed w).

(** The worlds that follow a world [w]: searches are made, with any
    services and for any queries, and time passes. *)
Inductive SearchesFrom (w : World) : World -> Prop :=
  | from_here : SearchesFrom w w
  | from_search (svc : Services) (q : string) (w' : World) :
      SearchesFrom w w' -> SearchesFrom w (searchGame svc q w').2
  | from_later (elapsed : Z) (w' : World) :
      (0 <= elapsed)%Z -> SearchesFrom w w' ->
      SearchesFrom w (later elapsed w').

(** The entries of the cache are arrays of existing objects that are
    distinct in the sense above. *)
Definition cacheSound (w : World) : Prop :=
  forall k e, searchCache w !! k = Some e ->
    Forall (fun l => (l < nextLoc w)%nat) (results e)
    /\ distinctResults (heap w) (results e).

(** A result as the two searches leave it: its [searchMetadata] names one
    of the two sources and holds a confidence between 0 and 1. *)
Definition scoredResult (o : Candidate) : Prop :=
  exists m c,
    searchMetadata o = Some m
    /\ (source m = JStr "wikidata" \/ source m = JStr "wikipedia")
    /\ confidence m = Some c
    /\ (0 <= c <= 1)%Q.

End SearchInvariants.

(** ** The Wikipedia service *)

Module WikipediaService.
Import SearchManager.

(** A hit of the article search. *)
Record SearchHit : Type := mkSearchHit {
  hit_title : string;
  hit_snippet : string
}.

(** What [getPageContent] returns. *)
Record PageContent : Type := mkPageContent {
  page_title : jsstr;
  page_extract : jsstr;
  page_image : jsstr;
  page_url : jsstr
}.

(** The three requests to the MediaWiki API ([searchGamePages],
    [getPageContent], [getPageWikitext]), which return or throw. *)
Record Api : Type := mkApi {
  searchGamePages : string -> Outcome (list SearchHit);
  getPageContent : string -> Outcome PageContent;
  getPageWikitext : string -> Outcome string
}.

(** The fields that [parseInfoBoxFields] can produce, among those that
    [mapToGameDataModel] reads into the modelled properties. *)
Record InfoboxData : Type := mkInfoboxData {
  ib_title : jsstr;
  ib_developer : jsstr;
  ib_publisher : jsstr;
  ib_releaseDate : jsstr;
  ib_platforms : option (list string);
  ib_genre : option (list string);
  ib_modes : option (list string);
  ib_series : jsstr;
  ib_engine : jsstr
}.

(** [{}] *)
Definition emptyInfobox : InfoboxData :=
  mkInfoboxData JUndefined JUndefined JUndefined JUndefined None None None
    JUndefined JUndefined.

(** The second argument of [mapToGameDataModel]. *)
Record PageData : Type := mkPageData {
  pd_title : jsstr;
  pd_description : jsstr;
  pd_image : jsstr;
  pd_wikipediaUrl : jsstr
}.

Definition gameKeywords : list string :=
  ["video game"; "game"; "developed"; "published"; "platform"; "console"].

(** The score that [findGamePage] gives to a hit. *)
Definition scoreOf (gameTitle : string) (result : SearchHit) : Z :=
  let score := 0%Z in
  let score :=
    if (toLowerCase (hit_title result) =? toLowerCase gameTitle)%string
    then (score + 100)%Z else score in
  let score :=
    if includes (toLowerCase (hit_title result)) (toLowerCase gameTitle)
    then (score + 50)%Z else score in
  let snippet := toLowerCase (hit_snippet result) in
  fold_left
    (fun score keyword =>
       if includes snippet keyword then (score + 10)%Z else score)
    gameKeywords score.

(** [findGamePage]: the best hit, or [null]. *)
Definition findGamePage (api : Api) (gameTitle : string) : option SearchHit :=
  match searchGamePages api gameTitle with
  | Returned searchResults =>
      match searchResults with
      | [] => None
      | _ =>
          let scoredResults :=
            map (fun result => (result, scoreOf gameTitle result))
              searchResults in
          let scoredResults :=
            Array_sort (fun a b => (b.2 - a.2 <? 0)%Z) scoredResults in
          match scoredResults with
          | (best, score) :: _ => if (0 <? score)%Z then Some best else None
          | [] => None
          end
      end
  | Thrown _ => None
  end.

(** The number of code units of [s] before its first ["}}"]. *)
Fixpoint indexOfClose (s : string) : option nat :=
  match s with
  | EmptyString => None
  | String c s' =>
      if (c =? "}")%char && String.prefix "}" s' then Some 0%nat
      else option_map S (indexOfClose s')
  end.

(** [s.match(/<opening>(.*?)\}\}/gis)]: with the [g] flag, [match] returns
    the complete texts of all the matches, from left to right, without the
    capture groups. *)
Fixpoint globalMatchesFrom (fuel : nat) (opening s : string) : list string :=
  match fuel with
  | O => []
  | S fuel' =>
      match s with
      | EmptyString => []
      | String _ s' =>
          if startsWithIgnoreCase opening s then
            match indexOfClose (drop (String.length opening) s) with
            | Some k =>
                let n := (String.length opening + k + 2)%nat in
                String.substring 0 n s
                :: globalMatchesFrom fuel' opening (drop n s)
            | None => globalMatchesFrom fuel' opening s'
            end
          else globalMatchesFrom fuel' opening s'
      end
  end.

Definition globalMatches (opening s : string) : list string :=
  globalMatchesFrom (S (String.length s)) opening s.

(** The literal openings of the four patterns of [parseInfoBox]. *)
Definition infoboxPatterns : list string :=
  ["{{Infobox video game"; "{{Infobox VG"; "{{Video game infobox";
   "{{Infobox game"].

Section InfoBox.
(** [parseInfoBoxFields], which reads the fields with regular expressions,
    is a parameter. *)
Variable parseInfoBoxFields : string -> InfoboxData.

(** [parseInfoBox]: the first pattern that matches decides, and
    [infoboxContent] is [match[1]]. *)
Definition parseInfoBox (wikitext : string) : InfoboxData :=
  let infoboxContent :=
    (fix firstMatching (patterns : list string) : option string :=
       match patterns with
       | [] => None
       | pattern :: rest =>
           match globalMatches pattern wikitext with
           | [] => firstMatching rest
           | matches => matches !! 1%nat
           end
       end) infoboxPatterns in
  match infoboxContent with
  | Some content =>
      if (content =? "")%string then emptyInfobox
      else parseInfoBoxFields content
  | None => emptyInfobox
  end.

(** [generateAttribution] *)
Definition generateAttribution (wikipediaUrl gameTitle : jsstr) : Attribution :=
  mkAttribution
    ("Information about " ++ doubleQuote ++ template gameTitle ++ doubleQuote
     ++ " from Wikipedia")
    wikipediaUrl "CC BY-SA 3.0"
    "https://creativecommons.org/licenses/by-sa/3.0/".

(** [mapToGameDataModel] *)
Definition mapToGameDataModel (infoboxData : InfoboxData) (pageData : PageData)
  : Candidate :=
  mkCandidate
    JUndefined JUndefined
    (orElse (ib_title infoboxData) (pd_title pageData))
    (orElse (ib_releaseDate infoboxData) (JStr ""))
    (orElse (ib_developer infoboxData) (JStr ""))
    (orElse (ib_publisher infoboxData) (JStr ""))
    (Some (orNil (ib_platforms infoboxData)))
    (Some (orNil (ib_genre infoboxData)))
    None
    (orElse (pd_image pageData) (JStr ""))
    (orElse (pd_description pageData) (JStr ""))
    (orElse (ib_series infoboxData) (JStr ""))
    (orElse (ib_engine infoboxData) (JStr ""))
    (Some (orNil (ib_modes infoboxData)))
    (Some (mkDataSource (JStr "wikipedia") JUndefined
             (pd_wikipediaUrl pageData) JUndefined JUndefined))
    (Some (generateAttribution (pd_wikipediaUrl pageData) (pd_title pageData)))
    None.

(** [extractGameMetadata]: the candidate, or [null]; every exception is
    caught inside. *)
Definition extractGameMetadata (api : Api) (gameTitle : string)
  : option Candidate :=
  match findGamePage api gameTitle with
  | None => None
  | Some gamePage =>
      match getPageContent api (hit_title gamePage),
            getPageWikitext api (hit_title gamePage) with
      | Returned pageContent, Returned wikitext =>
          let infoboxData := parseInfoBox wikitext in
          let gameData :=
            mapToGameDataModel infoboxData
              (mkPageData (page_title pageContent) (page_extract pageContent)
                 (page_image pageContent) (page_url pageContent)) in
          Some gameData
      | _, _ => None
      end
  end.

(** The service as the search manager calls it; [elapsed] is the time the
    requests take. *)
Definition service (api : Api) (elapsed : nat)
  : string -> nat * Outcome (option Candidate) :=
  fun gameTitle => (elapsed, Returned (extractGameMetadata api gameTitle)).
End InfoBox.

(** [value.split(/[,;]/)] *)
Definition isListSeparator (c : ascii) : bool :=
  (c =? ",")%char || (c =? ";")%char.

Fixpoint splitOn (isSeparator : ascii -> bool) (s : string) : list string :=
  match s with
  | EmptyString => [EmptyString]
  | String c s' =>
      if isSeparator c then EmptyString :: splitOn isSeparator s'
      else
        match splitOn isSeparator s' with
        | item :: items => String c item :: items
        | [] => [String c EmptyString]
        end
  end.

(** [value.split(/[,;]/).map(item => item.trim()).filter(item => item.length > 0)] *)
Definition listItems (value : string) : list string :=
  List.filter (fun item => (0 <? String.length item)%nat)
    (map trim (splitOn isListSeparator value)).

(** What [processFieldValue] returns: an array or a string. *)
Inductive FieldValue : Type :=
  | FieldList (items : list string)
  | FieldText (text : string).

Section Fields.
(** [normalizeDate], which reads dates with regular expressions and with the
    date parser of the engine, is a parameter. *)
Variable normalizeDate : string -> string.

(** [processFieldValue] *)
Definition processFieldValue (fieldType value : string) : FieldValue :=
  if (fieldType =? "platforms")%string || (fieldType =? "genre")%string
     || (fieldType =? "modes")%string
  then FieldList (listItems value)
  else if (fieldType =? "releaseDate")%string
  then FieldText (normalizeDate value)
  else if (fieldType =? "developer")%string || (fieldType =? "publisher")%string
  then
    if includes value "," || includes value ";"
    then FieldText (join ", " (listItems value))
    else FieldText value
  else FieldText value.
End Fields.

End WikipediaService.

(** ** The Wikidata service *)

Module WikidataService.
Import SearchManager.

(** A row of the SPARQL result: for each variable, the [value] of its
    binding when the row binds it. *)
Record Binding : Type := mkBinding {
  b_wikidataId : option string;
  b_game : option string;
  b_gameLabel : option string;
  b_releaseDate : option string;
  b_platformLabel : option string;
  b_developerLabel : option string;
  b_publisherLabel : option string;
  b_genreLabel : option string;
  b_image : option string;
  b_description : option string
}.

(** [{}] *)
Definition emptyBinding : Binding :=
  mkBinding None None None None None None None None None None.

(** The response: [response.results.bindings], when it is there. *)
Definition Response : Type := option (list Binding).

(** [extractValue] *)
Definition extractValue (binding : option string) : jsstr :=
  match binding with
  | Some value => if (value =? "")%string then JNull else JStr value
  | None => JNull
  end.

(** [set.add(x)] on a [Set], which keeps the order of insertion. *)
Definition setAdd (x : string) (set : list string) : list string :=
  if existsb (String.eqb x) set then set else (set ++ [x])%list.

(** [[x][0] || null] *)
Definition firstOrNull (xs : list string) : jsstr :=
  match xs with
  | x :: _ => if (x =? "")%string then JNull else JStr x
  | [] => JNull
  end.

(** An entry of [gameMap] while the rows are grouped. *)
Record Game : Type := mkGame {
  g_wikidataId : string;
  g_title : jsstr;
  g_releaseDate : jsstr;
  g_platforms : list string;
  g_developers : list string;
  g_publishers : list string;
  g_genres : list string;
  g_coverImage : jsstr;
  g_description : jsstr
}.

Section Dates.
(** [new Date(s)] followed by [toISOString().split('T')[0]], or nothing when
    the date is invalid: the date parser of the engine is a parameter. *)
Variable toISODate : string -> option string.

(** [parseDate] *)
Definition parseDate (dateString : jsstr) : jsstr :=
  if negb (truthy dateString) then JNull
  else
    let cleanDate :=
      match orEmpty dateString with
      | String c rest => if (c =? "+")%char then rest else String c rest
      | EmptyString => EmptyString
      end in
    match toISODate cleanDate with
    | Some date => JStr date
    | None => JNull
    end.

(** [gameMap.get(wikidataId)] and [gameMap.set(wikidataId, game)]: a [Map]
    keeps the order in which its keys were first set. *)
Fixpoint mapGet (key : string) (gameMap : list Game) : option Game :=
  match gameMap with
  | [] => None
  | game :: rest =>
      if (g_wikidataId game =? key)%string then Some game else mapGet key rest
  end.

Fixpoint mapUpdate (key : string) (f : Game -> Game) (gameMap : list Game)
  : list Game :=
  match gameMap with
  | [] => []
  | game :: rest =>
      if (g_wikidataId game =? key)%string then f game :: rest
      else game :: mapUpdate key f rest
  end.

(** [if (x) set.add(x)] *)
Definition addIfPresent (x : jsstr) (set : list string) : list string :=
  if truthy x then setAdd (orEmpty x) set else set.

(** The callback of [bindings.forEach] in [parseWikidataResponse]. *)
Definition groupBinding (gameMap : list Game) (binding : Binding) : list Game :=
  let wikidataId := extractValue (b_wikidataId binding) in
  let gameUri := extractValue (b_game binding) in
  if negb (truthy wikidataId) || negb (truthy gameUri) then gameMap
  else
    let key := orEmpty wikidataId in
    let gameMap :=
      match mapGet key gameMap with
      | Some _ => gameMap
      | None =>
          (gameMap ++
           [mkGame key
              (orElse (extractValue (b_gameLabel binding)) (JStr "Unknown Title"))
              (parseDate (extractValue (b_releaseDate binding)))
              [] [] [] []
              (extractValue (b_image binding))
              (extractValue (b_description binding))])%list
      end in
    mapUpdate key
      (fun game =>
         mkGame (g_wikidataId game) (g_title game) (g_releaseDate game)
           (addIfPresent (extractValue (b_platformLabel binding))
              (g_platforms game))
           (addIfPresent (extractValue (b_developerLabel binding))
              (g_developers game))
           (addIfPresent (extractValue (b_publisherLabel binding))
              (g_publishers game))
           (addIfPresent (extractValue (b_genreLabel binding))
              (g_genres game))
           (g_coverImage game) (g_description game))
      gameMap.

(** The object that [parseWikidataResponse] makes of an entry of the map. *)
Definition toCandidate (game : Game) : Candidate :=
  mkCandidate
    (JStr (g_wikidataId game)) (JStr (g_wikidataId game))
    (g_title game) (g_releaseDate game)
    (firstOrNull (g_developers game)) (firstOrNull (g_publishers game))
    (Some (g_platforms game)) None (Some (g_genres game))
    (g_coverImage game) (g_description game)
    JUndefined JUndefined None
    (Some (mkDataSource (JStr "wikidata") (JStr (g_wikidataId game))
             JUndefined JUndefined JUndefined))
    None None.

(** [parseWikidataResponse] *)
Definition parseWikidataResponse (response : Response) : list Candidate :=
  match response with
  | None => []
  | Some bindings => map toCandidate (fold_left groupBinding bindings [])
  end.

(** [isValidGameData] *)
Definition isValidGameData (gameData : Candidate) : bool :=
  truthy (title gameData)
  && negb (orEmpty (title gameData) =? "Unknown Title")%string
  && truthy (wikidataId gameData).

(** [platformMappings] *)
Definition platformMappings : list (string * string) :=
  [("Microsoft Windows", "PC"); ("Windows", "PC");
   ("PlayStation 4", "PlayStation 4"); ("PlayStation 5", "PlayStation 5");
   ("Nintendo Switch", "Nintendo Switch"); ("Xbox One", "Xbox One");
   ("Xbox Series X and Series S", "Xbox Series X/S");
   ("Steam", "PC"); ("Epic Games Store", "PC")].

(** [platformMappings[platform] || platform] *)
Definition normalizePlatform (platform : string) : string :=
  match find (fun kv => (kv.1 =? platform)%string) platformMappings with
  | Some kv => kv.2
  | None => platform
  end.

(** [extractPlatforms(bindings).platforms] *)
Definition extractPlatforms (bindings : list Binding) : list string :=
  fold_left
    (fun platforms binding =>
       let platform := extractValue (b_platformLabel binding) in
       if truthy platform
       then setAdd (normalizePlatform (orEmpty platform)) platforms
       else platforms)
    bindings [].

(** [extractDevelopers(bindings).developers], and likewise the publishers,
    from the labels that [label] selects. *)
Definition extractCompanies (label : Binding -> option string)
    (bindings : list Binding) : list string :=
  fold_left
    (fun companies binding =>
       let company := extractValue (label binding) in
       if truthy company && negb (trim (orEmpty company) =? "")%string
       then setAdd (trim (orEmpty company)) companies
       else companies)
    bindings [].

(** [extractEnhancedMetadata]: the result of [searchGameByTitle] for a
    response, on the modelled properties. *)
Definition extractEnhancedMetadata (response : Response) : list Candidate :=
  let basicResults := parseWikidataResponse response in
  map (fun game =>
         let bindings :=
           List.filter
             (fun binding =>
                strictEq (extractValue (b_wikidataId binding)) (wikidataId game))
             (orNil response) in
         let first := default emptyBinding (head bindings) in
         let developers := extractCompanies b_developerLabel bindings in
         let publishers := extractCompanies b_publisherLabel bindings in
         mkCandidate (id game) (wikidataId game) (title game)
           (parseDate (extractValue (b_releaseDate first)))
           (firstOrNull developers) (firstOrNull publishers)
           (Some (extractPlatforms bindings)) (genre game) (genres game)
           (extractValue (b_image first)) (description game)
           (series game) (engine game) (modes game) (dataSource game)
           (attribution game) (searchMetadata game))
      basicResults.

(** The service as the search manager calls it: the response of the
    endpoint for each query, and the time the request takes. *)
Definition service (respond : string -> Outcome Response) (elapsed : nat)
  : string -> nat * Outcome (list Candidate) :=
  fun gameTitle =>
    (elapsed,
     match respond gameTitle with
     | Returned response => Returned (extractEnhancedMetadata response)
     | Thrown e => Thrown ("Wikidata search failed: " ++ e)
     end).
End Dates.

(** The property names that every object inherits.  For a platform with one
    of these names, [platformMappings[platform]] is the inherited property
    and not a platform; [normalizePlatform] is the code for all other
    names. *)
Definition inheritedProperties : list string :=
  ["constructor"; "hasOwnProperty"; "isPrototypeOf"; "propertyIsEnumerable";
   "toLocaleString"; "toString"; "valueOf"; "__proto__"; "__defineGetter__";
   "__defineSetter__"; "__lookupGetter__"; "__lookupSetter__"].

(** *** Store links and the completeness score *)

(** The keys of [storePatterns] and of [storeLinks]. *)
Inductive Store : Type :=
  | steam | playstation | nintendo | xbox | epic | gog.

Definition Store_eqb (a b : Store) : bool :=
  match a, b with
  | steam, steam | playstation, playstation | nintendo, nintendo
  | xbox, xbox | epic, epic | gog, gog => true
  | _, _ => false
  end.

(** The code units that [.] does not match: LF and CR. *)
Definition isLineTerminator (c : ascii) : bool :=
  (nat_of_ascii c =? 10)%nat || (nat_of_ascii c =? 13)%nat.

(** [/.*b/] matches at the start of [s]: [b] occurs in [s] with no line
    terminator before it. *)
Fixpoint includesOnLine (s b : string) : bool :=
  if String.prefix b s then true
  else match s with
       | EmptyString => false
       | String c s' =>
           if isLineTerminator c then false else includesOnLine s' b
       end.

(** [/a.*b/.test(s)] for literals [a] and [b]. *)
Fixpoint includesThenOnLine (s a b : string) : bool :=
  if String.prefix a s && includesOnLine (drop (String.length a) s) b
  then true
  else match s with
       | EmptyString => false
       | String _ s' => includesThenOnLine s' a b
       end.

(** [storePatterns], in the order of its keys; each pattern has the [i]
    flag. *)
Definition storePatterns : list (Store * (string -> bool)) :=
  [(steam, fun url => includes (toLowerCase url) "store.steampowered.com");
   (playstation, fun url => includes (toLowerCase url) "store.playstation.com");
   (nintendo, fun url => includes (toLowerCase url) "nintendo.com"
                         || includes (toLowerCase url) "nintendo.co.jp");
   (xbox, fun url => includesThenOnLine (toLowerCase url) "microsoft.com" "xbox");
   (epic, fun url => includes (toLowerCase url) "store.epicgames.com");
   (gog, fun url => includes (toLowerCase url) "gog.com")].

(** [detectStoreType] *)
Definition detectStoreType (url : string) : option Store :=
  fst <$> find (fun entry => entry.2 url) storePatterns.

(** What [extractOfficialWebsites] returns; a link that is [null] is
    [None]. *)
Record WebsiteInfo : Type := mkWebsiteInfo {
  websites : list string;
  storeLinks : Store -> option string;
  hasStoreLinks : bool;
  hasData : bool
}.

(** [storeLinks[storeType] = website] *)
Definition setStoreLink (storeType : Store) (website : string)
    (links : Store -> option string) : Store -> option string :=
  fun store => if Store_eqb store storeType then Some website else links store.

(** The callback of [bindings.forEach] in [extractOfficialWebsites], on
    [binding.officialWebsite]. *)
Definition addWebsite (state : list string * (Store -> option string))
    (officialWebsite : option string)
  : list string * (Store -> option string) :=
  let website := extractValue officialWebsite in
  if truthy website then
    let websites := setAdd (orEmpty website) state.1 in
    match detectStoreType (orEmpty website) with
    | Some storeType =>
        match state.2 storeType with
        | None => (websites, setStoreLink storeType (orEmpty website) state.2)
        | Some _ => (websites, state.2)
        end
    | None => (websites, state.2)
    end
  else state.

(** [extractOfficialWebsites], for the [officialWebsite] of each row of
    [bindings]. *)
Definition extractOfficialWebsites (officialWebsites : list (option string))
  : WebsiteInfo :=
  let state := fold_left addWebsite officialWebsites ([], fun _ => None) in
  mkWebsiteInfo state.1 state.2
    (existsb (fun store => bool_decide (state.2 store <> None))
       [steam; playstation; nintendo; xbox; epic; gog])
    (0 <? length state.1)%nat.

(** [Math.round(x)]: to the nearest integer, a half upwards. *)
Definition Math_round (x : Q) : Z := Qfloor (x + (1 # 2))%Q.

(** [calculateCompletenessScore] *)
Definition calculateCompletenessScore (gameData : Candidate) : Z :=
  let fields :=
    [ truthy (title gameData);
      truthy (releaseDate gameData);
      nonEmptyArray (platforms gameData);
      truthy (developer gameData);
      truthy (publisher gameData);
      truthy (coverImage gameData);
      truthy (description gameData);
      nonEmptyArray (genres gameData) ] in
  let filledFields := length (filter (fun field => field = true) fields) in
  Math_round
    (inject_Z (Z.of_nat filledFields) / inject_Z (Z.of_nat (length fields))
     * 100)%Q.

End WikidataService.

(** ** Concrete inputs *)

Module Examples.
Import SearchManager.

(** A result of the Wikidata service. *)
Definition wikidataGame (qid gameTitle : string) (date : jsstr)
    (gamePlatforms : list string) : Candidate :=
  mkCandidate (JStr qid) (JStr qid) (JStr gameTitle) date
    (JStr "id Software") (JStr "GT Interactive") (Some gamePlatforms) None
    (Some ["first-person shooter"]) (JStr "https://example.org/cover.png")
    JNull JUndefined JUndefined None
    (Some (mkDataSource (JStr "wikidata") (JStr qid) JUndefined JUndefined
             JUndefined))
    None None.

(** A result of the Wikipedia service; [url] is the address of the article,
    which [mapToGameDataModel] stores as [dataSource.attribution]. *)
Definition wikipediaGame (gameTitle : string) (date : jsstr)
    (gamePlatforms : list string) (url : jsstr) : Candidate :=
  mkCandidate JUndefined JUndefined (JStr gameTitle) date
    (JStr "id Software") (JStr "") (Some gamePlatforms) (Some [])
    None (JStr "") (JStr "Doom is a 1993 first-person shooter.")
    (JStr "Doom") (JStr "id Tech 1") (Some ["Single-player"; "multiplayer"])
    (Some (mkDataSource (JStr "wikipedia") JUndefined url JUndefined
             JUndefined))
    (Some (mkAttribution "Information about this game from Wikipedia" url
             "CC BY-SA 3.0" "https://creativecommons.org/licenses/by-sa/3.0/"))
    None.

Definition emptyHeap : Heap := fun _ => emptyObject.

(** "DOOM" from Wikidata at 0; "Doom" from Wikipedia at 1, with the address
    of its article. *)
Definition doomHeap : Heap :=
  store 1 (wikipediaGame "Doom" (JStr "1993-12-10") ["PC"; "DOS"]
             (JStr "https://en.wikipedia.org/wiki/Doom_(1993_video_game)"))
    (store 0 (wikidataGame "Q189784" "DOOM" (JStr "1993-12-10") ["PC"])
       emptyHeap).

(** The same, but the Wikipedia page record came without an address. *)
Definition doomHeapNoUrl : Heap :=
  store 1 (wikipediaGame "Doom" (JStr "1993-12-10") ["PC"; "DOS"] JUndefined)
    (store 0 (wikidataGame "Q189784" "DOOM" (JStr "1993-12-10") ["PC"])
       emptyHeap).

(** Three scored results, as [executeWikidataSearch] and
    [executeFallbackSearch] leave them. *)
Definition scored (sourceName : string) (score : Q) (o : Candidate) : Candidate :=
  set_searchMetadata
    (Some (mkSearchMetadata (JStr sourceName) (JStr "doom") (Some 1000%Z)
             (Some score) false)) o.

Definition scoredHeap : Heap :=
  store 2 (scored "wikidata" (92 # 100)
             (wikidataGame "Q189784" "Doom" (JStr "1993-12-10") ["PC"; "DOS"]))
    (store 1 (scored "wikipedia" (85 # 100)
                (wikipediaGame "Doom 3" (JStr "2004-08-03") ["PC"]
                   (JStr "https://en.wikipedia.org/wiki/Doom_3")))
       (store 0 (scored "wikidata" (60 # 100)
                   (wikidataGame "Q513867" "Doom II" (JStr "1994-10-10") ["PC"]))
          emptyHeap)).

(** A Wikidata service that answers every query with "Doom" and "Doom II",
    and a Wikipedia service that throws. *)
Definition doomServices : Services :=
  mkServices
    (fun _ =>
       (120%nat,
        Returned [wikidataGame "Q189784" "Doom" (JStr "1993-12-10") ["PC"; "DOS"];
                  wikidataGame "Q513867" "Doom II" (JStr "1994-10-10") ["PC"]]))
    (fun _ => (300%nat, Thrown "NetworkError"))
    (fun _ => "k3j9x0q2a").

(** Both services throw. *)
Definition throwingServices : Services :=
  mkServices
    (fun _ => (120%nat, Thrown "Wikidata search failed"))
    (fun _ => (300%nat, Thrown "NetworkError"))
    (fun _ => "k3j9x0q2a").

(** A Wikipedia service that answers. *)
Definition doomWikipedia (_ : string) : nat * Outcome (option Candidate) :=
  (300%nat,
   Returned (Some (wikipediaGame "Doom" (JStr "1993-12-10") ["PC"; "DOS"]
                     (JStr "https://en.wikipedia.org/wiki/Doom_(1993_video_game)")))).

(** A new search manager, at time 1000. *)
Definition initialWorld : World := mkWorld emptyHeap 0 ∅ 1000 [] 0.

(** The MediaWiki API for an article without an infobox. *)
Definition celesteApi : WikipediaService.Api :=
  WikipediaService.mkApi
    (fun _ =>
       Returned [WikipediaService.mkSearchHit "Celeste (video game)"
                   "Celeste is a 2018 platform game developed by Maddy Thorson"])
    (fun _ =>
       Returned (WikipediaService.mkPageContent (JStr "Celeste (video game)")
                   (JStr "Celeste is a 2018 platform game.") JUndefined
                   (JStr "https://en.wikipedia.org/wiki/Celeste_(video_game)")))
    (fun _ => Returned "Celeste is a 2018 platform game. == Gameplay ==").

(** The API when the search finds no article. *)
Definition noArticleApi : WikipediaService.Api :=
  WikipediaService.mkApi
    (fun _ => Returned [])
    (fun _ => Thrown "Page not found")
    (fun _ => Thrown "Page not found").

(** A field parser, for the examples. *)
Definition noFields (_ : string) : WikipediaService.InfoboxData :=
  WikipediaService.emptyInfobox.

(** The services with Wikipedia answering from [celesteApi], and Wikidata
    finding nothing. *)
Definition celesteServices : Services :=
  mkServices
    (fun _ => (120%nat, Returned []))
    (WikipediaService.service noFields celesteApi 300)
    (fun _ => "k3j9x0q2a").

(** A SPARQL response with one row, which binds no [gameLabel]. *)
Definition unlabelledResponse : WikidataService.Response :=
  Some [WikidataService.mkBinding (Some "Q42")
          (Some "http://www.wikidata.org/entity/Q42") None
          (Some "+2017-03-03T00:00:00Z") (Some "Nintendo Switch")
          (Some "Nintendo EPD") (Some "Nintendo") None None None].

(** A date parser, for the examples: the first ten characters. *)
Definition isoPrefix (s : string) : option string :=
  Some (String.substring 0 10 s).

(** The services with Wikidata answering [unlabelledResponse]. *)
Definition unlabelledServices : Services :=
  mkServices
    (WikidataService.service isoPrefix (fun _ => Returned unlabelledResponse) 120)
    (fun _ => (300%nat, Returned None))
    (fun _ => "k3j9x0q2a").

(** The API when the search has two hits, the second with the title that
    was asked for and a snippet without keywords. *)
Definition twoHits : list WikipediaService.SearchHit :=
  [WikipediaService.mkSearchHit "Celeste (video game)"
     "Celeste is a 2018 platform video game developed and published";
   WikipediaService.mkSearchHit "celeste" "A mountain"].

Definition twoHitsApi : WikipediaService.Api :=
  WikipediaService.mkApi
    (fun _ => Returned twoHits)
    (fun _ => Thrown "Page not found")
    (fun _ => Thrown "Page not found").

(** Three results on which the comparison of the ranking is cyclic: each is
    less confident than the one before by 0.08, within the tie band, and
    more complete by an eighth; the first is more confident than the third
    by 0.16. *)
Definition cyclicHeap : Heap :=
  store 2 (scored "wikidata" (74 # 100)
             (wikidataGame "Q1187099" "Doom 3" (JStr "2004-08-03") ["PC"]))
    (store 1 (scored "wikidata" (82 # 100)
                (wikidataGame "Q513867" "Doom II" (JStr "1994-10-10") []))
       (store 0 (scored "wikidata" (90 # 100)
                   (wikidataGame "Q189784" "Doom" JNull []))
          emptyHeap)).

(** A Wikidata service that finds nothing for any query. *)
Definition quietServices : Services :=
  mkServices
    (fun _ => (80%nat, Returned []))
    (fun _ => (200%nat, Returned None))
    (fun _ => "k3j9x0q2a").

(** Three rows of one game, with its platforms. *)
Definition zeldaRows : list WikidataService.Binding :=
  map (fun platformLabel =>
         WikidataService.mkBinding (Some "Q17185964")
           (Some "http://www.wikidata.org/entity/Q17185964")
           (Some "The Legend of Zelda: Breath of the Wild")
           (Some "+2017-03-03T00:00:00Z") platformLabel
           (Some "Nintendo EPD") (Some "Nintendo") None None None)
    [Some "Nintendo Switch"; Some "Wii U"; Some "Nintendo Switch"].

End Examples.

(** * Properties *)

(** ** Strings *)

Module JsStringFacts.

Lemma isWhiteSpace_lowerChar c : isWhiteSpace (lowerChar c) = isWhiteSpace c.
Proof.
  destruct c as [[] [] [] [] [] [] [] []]; vm_compute; reflexivity.
Qed.

Lemma length_toLowerCase s : String.length (toLowerCase s) = String.length s.
Proof. induction s as [|c s IH]; simpl; [reflexivity | now rewrite IH]. Qed.

Lemma toLowerCase_trimStart s :
  toLowerCase (trimStart s) = trimStart (toLowerCase s).
Proof.
  induction s as [|c s IH]; simpl; [reflexivity|].
  rewrite isWhiteSpace_lowerChar.
  destruct (isWhiteSpace c); [exact IH | reflexivity].
Qed.

Lemma toLowerCase_trimEnd s :
  toLowerCase (trimEnd s) = trimEnd (toLowerCase s).
Proof.
  induction s as [|c s IH]; simpl; [reflexivity|].
  rewrite <- IH, isWhiteSpace_lowerChar.
  destruct (trimEnd s) as [|d t]; simpl.
  - destruct (isWhiteSpace c); reflexivity.
  - reflexivity.
Qed.

Lemma toLowerCase_trim s : toLowerCase (trim s) = trim (toLowerCase s).
Proof.
  unfold trim. now rewrite toLowerCase_trimEnd, toLowerCase_trimStart.
Qed.

Lemma trimEnd_cons_solid c s :
  isWhiteSpace c = false -> trimEnd (String c s) = String c (trimEnd s).
Proof.
  intros Hc. simpl. rewrite Hc. destruct (trimEnd s); reflexivity.
Qed.

Lemma trimStart_head s :
  trimStart s = EmptyString
  \/ exists c t, trimStart s = String c t /\ isWhiteSpace c = false.
Proof.
  induction s as [|c s IH]; simpl; [now left|].
  destruct (isWhiteSpace c) eqn:Hc; [exact IH|].
  right. now exists c, s.
Qed.

Lemma trimStart_solid c s :
  isWhiteSpace c = false -> trimStart (String c s) = String c s.
Proof. intros Hc. simpl. now rewrite Hc. Qed.

Lemma trimEnd_idem s : trimEnd (trimEnd s) = trimEnd s.
Proof.
  induction s as [|c s IH]; simpl; [reflexivity|].
  destruct (trimEnd s) as [|d t] eqn:Ht.
  - destruct (isWhiteSpace c) eqn:Hc; simpl; [reflexivity | now rewrite Hc].
  - change (trimEnd (String c (String d t)) = String c (String d t)).
    simpl trimEnd at 1. simpl in IH. rewrite IH. reflexivity.
Qed.

(** Trimming is idempotent. *)
Lemma trim_idem s : trim (trim s) = trim s.
Proof.
  unfold trim.
  destruct (trimStart_head s) as [-> | (c & t & -> & Hc)]; [reflexivity|].
  rewrite (trimEnd_cons_solid c t Hc), (trimStart_solid c _ Hc).
  rewrite (trimEnd_cons_solid c _ Hc). now rewrite trimEnd_idem.
Qed.

(** The cache key computed by the search manager, [q.trim()] lower-cased and
    trimmed again, is the lower-cased trimmed query. *)
Lemma trim_toLowerCase_trim s :
  trim (toLowerCase (trim s)) = toLowerCase (trim s).
Proof. now rewrite <- toLowerCase_trim, trim_idem. Qed.

Lemma nonWhiteSpaceCount_trimStart s :
  nonWhiteSpaceCount (trimStart s) = nonWhiteSpaceCount s.
Proof.
  induction s as [|c s IH]; simpl; [reflexivity|].
  destruct (isWhiteSpace c) eqn:Hc; simpl; rewrite ?Hc; [exact IH | reflexivity].
Qed.

Lemma nonWhiteSpaceCount_trimEnd s :
  nonWhiteSpaceCount (trimEnd s) = nonWhiteSpaceCount s.
Proof.
  induction s as [|c s IH]; simpl; [reflexivity|].
  rewrite <- IH.
  destruct (trimEnd s) as [|d t]; simpl.
  - destruct (isWhiteSpace c) eqn:Hc; simpl; rewrite ?Hc; reflexivity.
  - reflexivity.
Qed.

Lemma nonWhiteSpaceCount_trim s :
  nonWhiteSpaceCount (trim s) = nonWhiteSpaceCount s.
Proof.
  unfold trim. now rewrite nonWhiteSpaceCount_trimEnd, nonWhiteSpaceCount_trimStart.
Qed.

Lemma nonWhiteSpaceCount_le_length s :
  (nonWhiteSpaceCount s <= String.length s)%nat.
Proof.
  induction s as [|c s IH]; simpl; [lia|].
  destruct (isWhiteSpace c); simpl; lia.
Qed.

Lemma trimEnd_nonempty_count s :
  trimEnd s <> EmptyString -> (1 <= nonWhiteSpaceCount (trimEnd s))%nat.
Proof.
  induction s as [|c s IH]; simpl; [congruence|].
  destruct (trimEnd s) as [|d t] eqn:Ht.
  - destruct (isWhiteSpace c) eqn:Hc; simpl; [congruence|].
    rewrite Hc. lia.
  - intros _. simpl. simpl in IH.
    assert (String d t <> EmptyString) as Hne by congruence.
    specialize (IH Hne). destruct (isWhiteSpace c); lia.
Qed.

(** A query has fewer than two non-white-space code units exactly when its
    trimmed form is shorter than two code units. *)
Lemma short_query_iff s :
  (nonWhiteSpaceCount s < 2)%nat <-> (String.length (trim s) < 2)%nat.
Proof.
  split.
  - intros Hcount. rewrite <- nonWhiteSpaceCount_trim in Hcount.
    unfold trim in *.
    destruct (trimStart_head s) as [-> | (c & t & Heq & Hc)]; [simpl; lia|].
    rewrite Heq in Hcount |- *.
    rewrite (trimEnd_cons_solid c t Hc) in Hcount |- *.
    cbn [nonWhiteSpaceCount String.length] in Hcount |- *. rewrite Hc in Hcount.
    destruct (trimEnd t) as [|d u] eqn:Ht; [simpl; lia|].
    assert (trimEnd t <> EmptyString) as Hne by (rewrite Ht; congruence).
    apply trimEnd_nonempty_count in Hne. rewrite Ht in Hne. lia.
  - intros Hlen. rewrite <- nonWhiteSpaceCount_trim.
    pose proof (nonWhiteSpaceCount_le_length (trim s)). lia.
Qed.

End JsStringFacts.

(** ** Merging the two sources *)

Module MergeFacts.
Import SearchManager.

Lemma modify_same l f h : modify l f h l = f (h l).
Proof. unfold modify, store. now rewrite Nat.eqb_refl. Qed.

Lemma modify_other l l' f h : l' <> l -> modify l f h l' = h l'.
Proof.
  intros Hne. unfold modify, store.
  destruct (Nat.eqb_spec l' l); [contradiction | reflexivity].
Qed.

(** Reduce the projections of an object that was just written. *)
Ltac norm :=
  cbv [set_description set_series set_modes set_dataSource set_searchMetadata
       set_platforms set_id];
  cbn [id wikidataId title releaseDate developer publisher platforms genre
       genres coverImage description series engine modes dataSource
       attribution searchMetadata].

Lemma modify_at l l' f h :
  modify l f h l' = if (l' =? l)%nat then f (h l) else h l'.
Proof. reflexivity. Qed.

(** What each statement of the enhancement leaves at a reference [l]. *)
Lemma addMissingDescription_at p s h l :
  addMissingDescription p s h l =
  if (l =? p)%nat then
    set_description
      (if negb (truthy (description (h p))) && truthy (description (h s))
       then description (h s) else description (h p)) (h p)
  else h l.
Proof.
  unfold addMissingDescription.
  destruct (negb _ && _); rewrite ?modify_at;
    destruct (Nat.eqb_spec l p); subst; try reflexivity.
  now destruct (h p).
Qed.

Lemma addWikipediaAttribution_at p s h l :
  addWikipediaAttribution p s h l =
  if (l =? p)%nat then
    set_dataSource
      (if truthy (dataSourceAttribution (h s))
       then Some (set_wikipediaAttribution (dataSourceAttribution (h s))
                    (set_fallback (JStr "wikipedia")
                       (default emptyDataSource (dataSource (h p)))))
       else dataSource (h p)) (h p)
  else h l.
Proof.
  unfold addWikipediaAttribution.
  destruct (truthy (dataSourceAttribution (h s))) eqn:Hg.
  - cbv zeta. rewrite !modify_at, !Nat.eqb_refl.
    destruct (Nat.eqb_spec l p); [|reflexivity].
    destruct (Nat.eqb_spec s p) as [->|]; [|reflexivity].
    unfold dataSourceAttribution in *.
    destruct (h p) as [? ? ? ? ? ? ? ? ? ? ? ? ? ? [d|] ? ?]; cbn in *;
      [reflexivity | discriminate].
  - destruct (Nat.eqb_spec l p); subst; [now destruct (h p) | reflexivity].
Qed.

Lemma addSeries_at p s h l :
  addSeries p s h l =
  if (l =? p)%nat then
    set_series
      (if truthy (series (h s)) && negb (truthy (series (h p)))
       then series (h s) else series (h p)) (h p)
  else h l.
Proof.
  unfold addSeries.
  destruct (_ && negb _); rewrite ?modify_at;
    destruct (Nat.eqb_spec l p); subst; try reflexivity.
  now destruct (h p).
Qed.

Lemma addModes_at p s h l :
  addModes p s h l =
  if (l =? p)%nat then
    set_modes
      match modes (h s) with
      | Some wikipediaModes =>
          if negb (nonEmptyArray (modes (h p))) then Some wikipediaModes
          else modes (h p)
      | None => modes (h p)
      end (h p)
  else h l.
Proof.
  unfold addModes.
  destruct (modes (h s)); [destruct (negb _)|]; rewrite ?modify_at;
    destruct (Nat.eqb_spec l p); subst; try reflexivity;
    now destruct (h p).
Qed.

Lemma markEnhanced_at p h l :
  markEnhanced p h l =
  if (l =? p)%nat then
    set_searchMetadata
      (Some (set_enhancedWithWikipedia true
               (default emptySearchMetadata (searchMetadata (h p))))) (h p)
  else h l.
Proof.
  unfold markEnhanced. cbv zeta. rewrite !modify_at, !Nat.eqb_refl.
  destruct (Nat.eqb_spec l p); reflexivity.
Qed.

(** The enhancement writes to the primary object only. *)
Lemma enhance_other p s h l :
  l <> p -> enhanceResultWithWikipediaData p s h l = h l.
Proof.
  intros Hne. apply Nat.eqb_neq in Hne.
  unfold enhanceResultWithWikipediaData. cbv zeta.
  now rewrite markEnhanced_at, Hne, addModes_at, Hne, addSeries_at, Hne,
    addWikipediaAttribution_at, Hne, addMissingDescription_at, Hne.
Qed.

(** The object written by one enhancement, property by property, from the
    primary [h p] and the secondary [h s] as they were before the call. *)
Lemma enhance_at p s h :
  enhanceResultWithWikipediaData p s h p =
  mkCandidate (id (h p)) (wikidataId (h p)) (title (h p)) (releaseDate (h p))
    (developer (h p)) (publisher (h p)) (platforms (h p)) (genre (h p))
    (genres (h p)) (coverImage (h p))
    (if negb (truthy (description (h p))) && truthy (description (h s))
     then description (h s) else description (h p))
    (if truthy (series (h s)) && negb (truthy (series (h p)))
     then series (h s) else series (h p))
    (engine (h p))
    (match modes (h s) with
     | Some wikipediaModes =>
         if negb (nonEmptyArray (modes (h p))) then Some wikipediaModes
         else modes (h p)
     | None => modes (h p)
     end)
    (if truthy (dataSourceAttribution (h s))
     then Some (set_wikipediaAttribution (dataSourceAttribution (h s))
                  (set_fallback (JStr "wikipedia")
                     (default emptyDataSource (dataSource (h p)))))
     else dataSource (h p))
    (attribution (h p))
    (Some (set_enhancedWithWikipedia true
             (default emptySearchMetadata (searchMetadata (h p))))).
Proof.
  unfold enhanceResultWithWikipediaData, dataSourceAttribution. cbv zeta.
  rewrite markEnhanced_at, Nat.eqb_refl. norm.
  destruct (s =? p)%nat eqn:Hsp.
  - apply Nat.eqb_eq in Hsp. subst s.
    rewrite !addModes_at, !Nat.eqb_refl. norm.
    rewrite !addSeries_at, !Nat.eqb_refl. norm.
    rewrite !addWikipediaAttribution_at, !Nat.eqb_refl. norm.
    rewrite !addMissingDescription_at, !Nat.eqb_refl. norm.
    destruct (truthy (description (h p)));
      destruct (truthy (series (h p)));
      destruct (modes (h p)) as [[|m ms]|]; reflexivity.
  - rewrite !addModes_at, ?Nat.eqb_refl, ?Hsp. norm.
    rewrite !addSeries_at, ?Nat.eqb_refl, ?Hsp. norm.
    unfold dataSourceAttribution.
    rewrite !addWikipediaAttribution_at, ?Nat.eqb_refl, ?Hsp. norm.
    rewrite !addMissingDescription_at, ?Nat.eqb_refl, ?Hsp. norm.
    reflexivity.
Qed.

(** Similarity reads the title, the release date and the platforms only. *)
Lemma areResultsSimilar_ext a a' b b' :
  title a = title a' -> releaseDate a = releaseDate a' ->
  platforms a = platforms a' ->
  title b = title b' -> releaseDate b = releaseDate b' ->
  platforms b = platforms b' ->
  areResultsSimilar a b = areResultsSimilar a' b'.
Proof.
  intros Ht Hr Hp Ht' Hr' Hp'. unfold areResultsSimilar.
  now rewrite Ht, Hr, Hp, Ht', Hr', Hp'.
Qed.

Lemma areResultsSimilar_refl a : areResultsSimilar a a = true.
Proof. unfold areResultsSimilar. now rewrite String.eqb_refl. Qed.

(** None of the three is written by the enhancement. *)
Lemma enhance_identity p s h l :
  title (enhanceResultWithWikipediaData p s h l) = title (h l)
  /\ releaseDate (enhanceResultWithWikipediaData p s h l) = releaseDate (h l)
  /\ platforms (enhanceResultWithWikipediaData p s h l) = platforms (h l).
Proof.
  destruct (Nat.eq_dec l p) as [->|Hne].
  - rewrite enhance_at. cbn. auto.
  - rewrite enhance_other by exact Hne. auto.
Qed.

Section SameIdentity.
Variables h h' : Heap.
Hypothesis Hsame : forall l,
  title (h' l) = title (h l) /\ releaseDate (h' l) = releaseDate (h l)
  /\ platforms (h' l) = platforms (h l).

Lemma similar_same x y :
  areResultsSimilar (h' x) (h' y) = areResultsSimilar (h x) (h y).
Proof.
  destruct (Hsame x) as (? & ? & ?), (Hsame y) as (? & ? & ?).
  now apply areResultsSimilar_ext.
Qed.

Lemma isDuplicate_same wds s : isDuplicate h' wds s = isDuplicate h wds s.
Proof.
  unfold isDuplicate. induction wds as [|x wds IH]; cbn; [reflexivity|].
  now rewrite similar_same, IH.
Qed.

Lemma matchingResult_same wds s :
  matchingResult h' wds s = matchingResult h wds s.
Proof.
  unfold matchingResult. induction wds as [|x wds IH]; cbn; [reflexivity|].
  now rewrite similar_same, IH.
Qed.
End SameIdentity.

Lemma matchingResult_None h wds s :
  isDuplicate h wds s = false -> matchingResult h wds s = None.
Proof.
  unfold isDuplicate, matchingResult.
  induction wds as [|x wds IH]; cbn; [reflexivity|].
  destruct (areResultsSimilar (h x) (h s)); cbn; [discriminate | exact IH].
Qed.

Lemma matchingResult_Some h wds s p :
  matchingResult h wds s = Some p ->
  p ∈ wds /\ areResultsSimilar (h p) (h s) = true
  /\ isDuplicate h wds s = true.
Proof.
  unfold isDuplicate, matchingResult.
  induction wds as [|x wds IH]; cbn; [discriminate|].
  destruct (areResultsSimilar (h x) (h s)) eqn:Hx; cbn.
  - intros [= ->]. split; [left | auto].
  - intros Hf. destruct (IH Hf) as (? & ? & ?). split; [now right | auto].
Qed.

Lemma isDuplicate_true h wds s :
  isDuplicate h wds s = true -> exists p, matchingResult h wds s = Some p.
Proof.
  destruct (matchingResult h wds s) as [p|] eqn:Hm; [eauto|].
  unfold isDuplicate, matchingResult in *.
  induction wds as [|x wds IH]; cbn in *; [discriminate|].
  destruct (areResultsSimilar (h x) (h s)); [discriminate | auto].
Qed.

(** One turn of the [forEach] loop, with similarity judged on the store [h]
    the merge started from. *)
Local Abbreviation enhanceTurn h wds :=
  (fun (hk : Heap) (s : loc) =>
     match matchingResult h wds s with
     | Some p => enhanceResultWithWikipediaData p s hk
     | None => hk
     end).

Lemma enhanceTurns_identity h wds wps : forall hk l,
  (title (hk l) = title (h l) /\ releaseDate (hk l) = releaseDate (h l)
   /\ platforms (hk l) = platforms (h l)) ->
  title (fold_left (enhanceTurn h wds) wps hk l) = title (h l)
  /\ releaseDate (fold_left (enhanceTurn h wds) wps hk l) = releaseDate (h l)
  /\ platforms (fold_left (enhanceTurn h wds) wps hk l) = platforms (h l).
Proof.
  induction wps as [|s wps IH]; intros hk l Hk; cbn; [exact Hk|].
  apply IH. destruct (matchingResult h wds s) as [p|]; [|exact Hk].
  destruct (enhance_identity p s hk l) as (-> & -> & ->). exact Hk.
Qed.

Lemma enhanceTurns_other h wds wps : forall hk l,
  l ∉ wds -> fold_left (enhanceTurn h wds) wps hk l = hk l.
Proof.
  induction wps as [|s wps IH]; intros hk l Hl; cbn; [reflexivity|].
  rewrite IH by exact Hl.
  destruct (matchingResult h wds s) as [p|] eqn:Hm; [|reflexivity].
  apply matchingResult_Some in Hm as (Hp & _).
  apply enhance_other. intros ->. contradiction.
Qed.

(** The loop of [mergeSearchResults], from any store that agrees with [h] on
    what similarity reads. *)
Lemma mergeSearchResults_loop h wds wps : forall hk acc,
  (forall l, title (hk l) = title (h l) /\ releaseDate (hk l) = releaseDate (h l)
             /\ platforms (hk l) = platforms (h l)) ->
  fold_left
    (fun '((h, mergedResults) : Heap * list loc) wikipediaResult =>
       if negb (isDuplicate h wds wikipediaResult)
       then (h, (mergedResults ++ [wikipediaResult])%list)
       else
         match matchingResult h wds wikipediaResult with
         | Some wikidataResult =>
             (enhanceResultWithWikipediaData wikidataResult wikipediaResult h,
              mergedResults)
         | None => (h, mergedResults)
         end)
    wps (hk, acc)
  = (fold_left (enhanceTurn h wds) wps hk,
     (acc ++ filter (fun s => isDuplicate h wds s = false) wps)%list).
Proof.
  induction wps as [|s wps IH]; intros hk acc Hk; cbn [fold_left].
  - now rewrite filter_nil, app_nil_r.
  - rewrite (isDuplicate_same h hk Hk), (matchingResult_same h hk Hk).
    destruct (isDuplicate h wds s) eqn:Hdup; cbn [negb].
    + destruct (isDuplicate_true h wds s Hdup) as [p Hp]. rewrite Hp.
      rewrite IH.
      * rewrite filter_cons_False by (rewrite Hdup; discriminate). reflexivity.
      * intros l. destruct (enhance_identity p s hk l) as (-> & -> & ->).
        apply Hk.
    + rewrite (matchingResult_None h wds s Hdup). rewrite IH by exact Hk.
      rewrite filter_cons_True by exact Hdup.
      now rewrite <- app_assoc.
Qed.

(** The properties an enhancement may assign to, blanked. *)
Abbreviation outsideEnhancement o :=
  (set_description JUndefined
     (set_series JUndefined
        (set_modes None (set_dataSource None (set_searchMetadata None o))))).

Lemma enhance_outside p s h l :
  outsideEnhancement (enhanceResultWithWikipediaData p s h l)
  = outsideEnhancement (h l).
Proof.
  destruct (Nat.eq_dec l p) as [->|Hne].
  - rewrite enhance_at. reflexivity.
  - now rewrite enhance_other.
Qed.

Lemma enhanceTurns_outside h wds wps : forall hk l,
  outsideEnhancement (fold_left (enhanceTurn h wds) wps hk l)
  = outsideEnhancement (hk l).
Proof.
  induction wps as [|s wps IH]; intros hk l; cbn [fold_left]; [reflexivity|].
  rewrite IH. destruct (matchingResult h wds s); [|reflexivity].
  apply enhance_outside.
Qed.

Lemma mergeSearchResults_eq h wds wps :
  mergeSearchResults wds wps h
  = (fold_left (enhanceTurn h wds) wps h,
     (wds ++ filter (fun s => isDuplicate h wds s = false) wps)%list).
Proof. unfold mergeSearchResults. now apply mergeSearchResults_loop. Qed.

(** C1 (as amended).  For all primary and secondary lists: the merged array
    is the primaries followed by the secondaries that are similar to no
    primary, in their order; those secondaries are unchanged; every
    secondary that is similar to a primary is left out, and at its turn its
    first similar primary is enhanced in place.  One enhancement fills the
    description when the primary's is missing and the secondary has one,
    records [fallback = 'wikipedia'] with the secondary's attribution when
    the secondary carries one (and leaves [dataSource] alone otherwise),
    fills the series when the primary's is missing and the secondary has
    one, fills the modes when the primary's are absent or empty and the
    secondary has a modes array, and always sets
    [searchMetadata.enhancedWithWikipedia]. *)
Theorem mergeSearchResults_enhances (h : Heap) (wds wps : list loc) :
  let merged := mergeSearchResults wds wps h in
  merged.2 = (wds ++ filter (fun s => isDuplicate h wds s = false) wps)%list
  /\ merged.1 = fold_left (enhanceTurn h wds) wps h
  /\ (forall s, isDuplicate h wds s = false -> merged.1 s = h s)
  /\ (forall s p, wps = [s] -> matchingResult h wds s = Some p ->
        merged.1 = enhanceResultWithWikipediaData p s h)
  /\ (forall hk p s,
        (forall l, l <> p -> enhanceResultWithWikipediaData p s hk l = hk l)
        /\ enhanceResultWithWikipediaData p s hk p =
           mkCandidate (id (hk p)) (wikidataId (hk p)) (title (hk p))
             (releaseDate (hk p)) (developer (hk p)) (publisher (hk p))
             (platforms (hk p)) (genre (hk p)) (genres (hk p))
             (coverImage (hk p))
             (if negb (truthy (description (hk p)))
                 && truthy (description (hk s))
              then description (hk s) else description (hk p))
             (if truthy (series (hk s)) && negb (truthy (series (hk p)))
              then series (hk s) else series (hk p))
             (engine (hk p))
             (match modes (hk s) with
              | Some wikipediaModes =>
                  if negb (nonEmptyArray (modes (hk p)))
                  then Some wikipediaModes else modes (hk p)
              | None => modes (hk p)
              end)
             (if truthy (dataSourceAttribution (hk s))
              then Some (set_wikipediaAttribution
                           (dataSourceAttribution (hk s))
                           (set_fallback (JStr "wikipedia")
                              (default emptyDataSource (dataSource (hk p)))))
              else dataSource (hk p))
             (attribution (hk p))
             (Some (set_enhancedWithWikipedia true
                      (default emptySearchMetadata (searchMetadata (hk p)))))).
Proof.
  cbv zeta. rewrite mergeSearchResults_eq. cbn [fst snd].
  split; [reflexivity|]. split; [reflexivity|]. split; [|split].
  - intros s Hs. apply enhanceTurns_other. intros Hin.
    assert (isDuplicate h wds s = true) as Hdup; [|congruence].
    unfold isDuplicate. apply existsb_exists. exists s.
    split; [now apply list_elem_of_In | apply areResultsSimilar_refl].
  - intros s p -> Hm. cbn [fold_left]. now rewrite Hm.
  - intros hk p s. split; [intros l Hl; now apply enhance_other|].
    apply enhance_at.
Qed.

(** The theorem at "DOOM" (Wikidata) and "Doom" (Wikipedia): one merged
    entry, which carries the description, the attribution, the series and
    the modes of the Wikipedia entry; the Wikipedia entry is untouched. *)
Lemma mergeSearchResults_enhances_witness :
  let merged := mergeSearchResults [0] [1] Examples.doomHeap in
  merged.2 = [0]
  /\ merged.1 = enhanceResultWithWikipediaData 0 1 Examples.doomHeap
  /\ merged.1 1 = Examples.doomHeap 1
  /\ description (merged.1 0) = JStr "Doom is a 1993 first-person shooter."
  /\ (ds_fallback <$> dataSource (merged.1 0)) = Some (JStr "wikipedia").
Proof.
  destruct (mergeSearchResults_enhances Examples.doomHeap [0] [1])
    as (Hlist & _ & _ & Hone & Hturn).
  destruct (Hturn Examples.doomHeap 0 1) as (Hother & Hat).
  assert (matchingResult Examples.doomHeap [0] 1 = Some 0) as Hm
    by reflexivity.
  cbv zeta. rewrite (Hone 1 0 eq_refl Hm).
  split; [rewrite Hlist; reflexivity|].
  split; [reflexivity|].
  split; [apply Hother; discriminate|].
  rewrite Hat. split; reflexivity.
Defined.

(** C1 as stated fails: a Wikipedia entry without [dataSource.attribution]
    is similar to the Wikidata entry and is left out, the Wikidata entry is
    marked as enhanced, and no fallback attribution is recorded on it. *)
Lemma mergeSearchResults_no_fallback_counterexample :
  let h := Examples.doomHeapNoUrl in
  let merged := mergeSearchResults [0] [1] h in
  isDuplicate h [0] 1 = true
  /\ merged.2 = [0]
  /\ (enhancedWithWikipedia <$> searchMetadata (merged.1 0)) = Some true
  /\ (ds_fallback <$> dataSource (merged.1 0)) = Some JUndefined
  /\ (ds_fallback <$> dataSource (merged.1 0)) <> Some (JStr "wikipedia").
Proof.
  cbv zeta. repeat split; try (vm_compute; reflexivity).
  vm_compute. discriminate.
Qed.

End MergeFacts.

(** ** Deduplication and ranking *)

Module RankFacts.
Import SearchManager MergeFacts.

(** *** The sort *)

Section SortFacts.
Context {A : Type} (before : A -> A -> bool).

Lemma insertSorted_perm x l : Permutation (insertSorted before x l) (x :: l).
Proof.
  induction l as [|y l IH]; cbn; [reflexivity|].
  destruct (before x y); [reflexivity|].
  rewrite IH. apply perm_swap.
Qed.

Lemma Array_sort_loop_perm l : forall acc,
  Permutation (fold_left (fun sorted x => insertSorted before x sorted) l acc)
    (acc ++ l).
Proof.
  induction l as [|x l IH]; intros acc; cbn.
  - now rewrite app_nil_r.
  - rewrite IH, insertSorted_perm. cbn. apply Permutation_middle.
Qed.

(** The sort rearranges, it neither drops nor adds. *)
Lemma Array_sort_perm l : Permutation (Array_sort before l) l.
Proof. unfold Array_sort. now rewrite Array_sort_loop_perm. Qed.

(** If the comparison never puts both [x] before [y] and [y] before [x],
    then in the sorted array no element stands directly in front of one
    that the comparison puts before it.  No transitivity is needed. *)
Hypothesis before_asym : forall x y, before x y = true -> before y x = false.

Lemma insertSorted_HdRel x y l :
  before x y = false ->
  HdRel (fun a b => before b a = false) y l ->
  HdRel (fun a b => before b a = false) y (insertSorted before x l).
Proof.
  intros Hxy Hl. destruct l as [|z l]; cbn.
  - now constructor.
  - destruct (before x z); constructor; [exact Hxy|].
    now inversion Hl.
Qed.

Lemma insertSorted_Sorted x l :
  Sorted (fun a b => before b a = false) l ->
  Sorted (fun a b => before b a = false) (insertSorted before x l).
Proof.
  induction l as [|y l IH]; intros Hs; cbn.
  - repeat constructor.
  - inversion Hs as [|? ? Hs' Hhd]; subst.
    destruct (before x y) eqn:Hxy.
    + constructor; [exact Hs|]. constructor. now apply before_asym.
    + constructor; [now apply IH|]. now apply insertSorted_HdRel.
Qed.

Lemma Array_sort_loop_Sorted l : forall acc,
  Sorted (fun a b => before b a = false) acc ->
  Sorted (fun a b => before b a = false)
    (fold_left (fun sorted x => insertSorted before x sorted) l acc).
Proof.
  induction l as [|x l IH]; intros acc Hacc; cbn; [exact Hacc|].
  apply IH. now apply insertSorted_Sorted.
Qed.

Lemma Array_sort_Sorted l :
  Sorted (fun a b => before b a = false) (Array_sort before l).
Proof. apply Array_sort_loop_Sorted. constructor. Qed.
End SortFacts.

Lemma Sorted_firstn {A} (R : A -> A -> Prop) n : forall l,
  Sorted R l -> Sorted R (firstn n l).
Proof.
  induction n as [|n IH]; intros l Hs; [constructor|].
  destruct l as [|x l]; [constructor|]. cbn.
  inversion Hs as [|? ? Hs' Hhd]; subst.
  constructor; [now apply IH|].
  destruct l as [|y l]; [destruct n; constructor|].
  destruct n; constructor. now inversion Hhd.
Qed.

Lemma Sorted_adjacent {A} (R : A -> A -> Prop) (l : list A) :
  Sorted R l ->
  forall i a b, l !! i = Some a -> l !! S i = Some b -> R a b.
Proof.
  induction 1 as [|x l Hs IH Hhd]; intros i a b Ha Hb; [discriminate|].
  destruct i as [|i]; cbn in *.
  - injection Ha as ->. destruct l as [|y l]; [discriminate|].
    injection Hb as ->. now inversion Hhd.
  - now apply (IH i).
Qed.

(** *** The comparison function *)

Lemma Qabs_gt (c d : Q) : (c < Qabs d)%Q <-> (d < - c \/ c < d)%Q.
Proof.
  split.
  - apply Qabs_case; intros; lra.
  - apply Qabs_case; intros; lra.
Qed.

Lemma compareResults_opp h a b :
  (compareResults h b a == - compareResults h a b)%Q.
Proof.
  unfold compareResults. cbv zeta.
  set (x := confidenceOf (h a)). set (y := confidenceOf (h b)).
  set (u := calculateDataCompleteness (h a)).
  set (v := calculateDataCompleteness (h b)).
  destruct (Qlt_le_dec (1 # 10) (Qabs (x - y))) as [H1|H1];
    destruct (Qlt_le_dec (1 # 10) (Qabs (y - x))) as [H2|H2];
    try (apply Qabs_gt in H1); try (apply Qabs_gt in H2);
    try (apply Qabs_Qle_condition in H1);
    try (apply Qabs_Qle_condition in H2); try lra.
  destruct (Qlt_le_dec (1 # 10) (Qabs (u - v))) as [H3|H3];
    destruct (Qlt_le_dec (1 # 10) (Qabs (v - u))) as [H4|H4];
    try (apply Qabs_gt in H3); try (apply Qabs_gt in H4);
    try (apply Qabs_Qle_condition in H3);
    try (apply Qabs_Qle_condition in H4); try lra.
  rewrite <- inject_Z_opp. apply inject_Z_injective. lia.
Qed.

Lemma negative_spec q : negative q = true <-> (q < 0)%Q.
Proof.
  unfold negative. destruct (Qlt_le_dec q 0); split; intros; try easy; lra.
Qed.

Lemma negative_false q : negative q = false <-> (0 <= q)%Q.
Proof.
  unfold negative. destruct (Qlt_le_dec q 0); split; intros; try easy; lra.
Qed.

Lemma compareResults_asym h a b :
  negative (compareResults h a b) = true ->
  negative (compareResults h b a) = false.
Proof.
  rewrite negative_spec, negative_false, compareResults_opp. lra.
Qed.

(** An entry that the comparison does not put behind its neighbour is at
    most 0.1 less confident than it. *)
Lemma compareResults_band h a b :
  (0 <= compareResults h b a)%Q ->
  (confidenceOf (h b) - (1 # 10) <= confidenceOf (h a))%Q.
Proof.
  unfold compareResults. cbv zeta.
  destruct (Qlt_le_dec _ _) as [H1|H1].
  - intros. lra.
  - apply Qabs_Qle_condition in H1. intros _. lra.
Qed.

(** The comparison puts [a] before [b] exactly when [a] is more confident
    by more than 0.1, or the confidences tie within 0.1 and [a] is more
    complete by more than 0.1, or both tie and [a] alone is of Wikidata. *)
Lemma compareResults_order h a b :
  (compareResults h a b < 0)%Q <->
  (confidenceOf (h b) + (1 # 10) < confidenceOf (h a))%Q
  \/ ((Qabs (confidenceOf (h b) - confidenceOf (h a)) <= 1 # 10)%Q
      /\ (calculateDataCompleteness (h b) + (1 # 10)
          < calculateDataCompleteness (h a))%Q)
  \/ ((Qabs (confidenceOf (h b) - confidenceOf (h a)) <= 1 # 10)%Q
      /\ (Qabs (calculateDataCompleteness (h b)
                - calculateDataCompleteness (h a)) <= 1 # 10)%Q
      /\ (sourceScore (h b) < sourceScore (h a))%Z).
Proof.
  unfold compareResults. cbv zeta.
  set (x := confidenceOf (h a)). set (y := confidenceOf (h b)).
  set (u := calculateDataCompleteness (h a)).
  set (v := calculateDataCompleteness (h b)).
  assert (Hz : (inject_Z (sourceScore (h b) - sourceScore (h a)) < 0)%Q
               <-> (sourceScore (h b) < sourceScore (h a))%Z).
  { change 0%Q with (inject_Z 0). rewrite <- Zlt_Qlt. lia. }
  destruct (Qlt_le_dec (1 # 10) (Qabs (y - x))) as [H1|H1].
  - pose proof H1 as H1'. apply Qabs_gt in H1'. split.
    + intros. left. lra.
    + intros [H | [[H _] | [H _]]]; lra.
  - pose proof H1 as H1'. apply Qabs_Qle_condition in H1'.
    destruct (Qlt_le_dec (1 # 10) (Qabs (v - u))) as [H2|H2].
    + pose proof H2 as H2'. apply Qabs_gt in H2'. split.
      * intros. right. left. split; [exact H1 | lra].
      * intros [H | [[_ H] | (_ & H & _)]]; lra.
    + pose proof H2 as H2'. apply Qabs_Qle_condition in H2'.
      rewrite Hz. split.
      * intros. right. right. auto.
      * intros [H | [[_ H] | (_ & _ & H)]]; [lra | lra | exact H].
Qed.

(** *** Deduplication *)

Lemma sortPlatformsInPlace_other result h l :
  l <> result -> sortPlatformsInPlace result h l = h l.
Proof.
  intros Hne. unfold sortPlatformsInPlace.
  destruct (platforms (h result)); [now apply modify_other | reflexivity].
Qed.

Lemma sortPlatformsInPlace_outside result h l :
  set_platforms None (sortPlatformsInPlace result h l)
  = set_platforms None (h l).
Proof.
  unfold sortPlatformsInPlace.
  destruct (platforms (h result)); [|reflexivity].
  rewrite modify_at. destruct (Nat.eqb_spec l result); subst; reflexivity.
Qed.

Lemma removeDuplicatesFrom_outside results : forall seen h l,
  set_platforms None ((removeDuplicatesFrom seen results h).1 l)
  = set_platforms None (h l).
Proof.
  induction results as [|r results IH]; intros seen h l; cbn; [reflexivity|].
  destruct (bool_decide _).
  - rewrite IH. apply sortPlatformsInPlace_outside.
  - match goal with
    | |- context [removeDuplicatesFrom ?s results ?h1] =>
        specialize (IH s h1 l);
        destruct (removeDuplicatesFrom s results h1) as [h' kept]
    end.
    cbn in *. rewrite IH. apply sortPlatformsInPlace_outside.
Qed.

Lemma removeDuplicatesFrom_other results : forall seen h l,
  l ∉ results -> (removeDuplicatesFrom seen results h).1 l = h l.
Proof.
  induction results as [|r results IH]; intros seen h l Hl; cbn; [reflexivity|].
  apply not_elem_of_cons in Hl as [Hne Hl].
  destruct (bool_decide _).
  - rewrite IH by exact Hl. now apply sortPlatformsInPlace_other.
  - match goal with
    | |- context [removeDuplicatesFrom ?s results ?h1] =>
        specialize (IH s h1 l Hl);
        destruct (removeDuplicatesFrom s results h1) as [h' kept]
    end.
    cbn in *. rewrite IH. now apply sortPlatformsInPlace_other.
Qed.

Lemma rankAndDeduplicateResults_heap results h :
  (rankAndDeduplicateResults results h).1 = (removeDuplicates results h).1.
Proof.
  unfold rankAndDeduplicateResults.
  now destruct (removeDuplicates results h).
Qed.

Lemma rankAndDeduplicateResults_list results h :
  (rankAndDeduplicateResults results h).2
  = slice0 10
      (Array_sort
         (fun a b =>
            negative (compareResults (removeDuplicates results h).1 a b))
         (removeDuplicates results h).2).
Proof.
  unfold rankAndDeduplicateResults.
  now destruct (removeDuplicates results h).
Qed.

(** *** The order on every engine *)

Section Consistent.
Context {A : Type} (compare : A -> A -> Q) (items : list A).
Hypothesis consistent : consistentComparator compare items.

Lemma consistent_antisym a b :
  a ∈ items -> b ∈ items -> (0 < compare a b)%Q -> (compare b a < 0)%Q.
Proof.
  intros Ha Hb Hgt.
  destruct (consistent a b a Ha Hb Ha) as (Hrefl & _ & _ & _ & Hgt_trans).
  destruct (consistent b a b Hb Ha Hb) as (_ & Hsym & _).
  destruct (Q_dec (compare b a) 0) as [[Hlt|Hgt']|Heq]; [exact Hlt| |].
  - specialize (Hgt_trans Hgt Hgt'). lra.
  - apply Hsym in Heq. lra.
Qed.

(** With a consistent comparator, "the comparison does not put [b] before
    [a]" is transitive. *)
Lemma consistent_notBefore_trans a b c :
  a ∈ items -> b ∈ items -> c ∈ items ->
  ~ (compare b a < 0)%Q -> ~ (compare c b < 0)%Q -> ~ (compare c a < 0)%Q.
Proof.
  intros Ha Hb Hc Hba Hcb Hca.
  destruct (consistent c b a Hc Hb Ha) as (_ & _ & Heq_trans & _ & Hgt_trans).
  destruct (consistent b c a Hb Hc Ha) as (_ & _ & _ & Hlt_bca & _).
  destruct (consistent c a b Hc Ha Hb) as (_ & _ & _ & Hlt_cab & _).
  destruct (Q_dec (compare b a) 0) as [[Hlt|Hgt]|Heq]; [contradiction| |];
    destruct (Q_dec (compare c b) 0) as [[Hlt'|Hgt']|Heq']; try contradiction.
  - specialize (Hgt_trans Hgt' Hgt). lra.
  - pose proof (consistent_antisym b a Hb Ha Hgt) as Hab.
    specialize (Hlt_cab Hca Hab). lra.
  - pose proof (consistent_antisym c b Hc Hb Hgt') as Hbc.
    specialize (Hlt_bca Hbc Hca). lra.
  - specialize (Heq_trans Heq' Heq). lra.
Qed.
End Consistent.

Lemma Sorted_pairwise {A} (R : A -> A -> Prop) (l : list A) :
  Sorted R l ->
  (forall x y z, x ∈ l -> y ∈ l -> z ∈ l -> R x y -> R y z -> R x z) ->
  forall i j a b,
    (i < j)%nat -> l !! i = Some a -> l !! j = Some b -> R a b.
Proof.
  induction 1 as [|x l Hs IH Hhd]; intros Htrans i j a b Hij Ha Hb;
    [discriminate|].
  assert (forall k y, l !! k = Some y -> R x y) as Hfirst.
  { intros k y Hy. destruct l as [|z l]; [discriminate|].
    assert (R x z) as Hxz by now inversion Hhd.
    destruct k as [|k]; cbn in Hy; [now injection Hy as <-|].
    apply (Htrans x z y); [now left | right; now left | | exact Hxz |].
    - right. right. now apply list_elem_of_lookup_2 in Hy.
    - apply (IH (fun u v w Hu Hv Hw => Htrans u v w (list_elem_of_further _ _ _ Hu)
                   (list_elem_of_further _ _ _ Hv) (list_elem_of_further _ _ _ Hw))
               0%nat (S k) z y); [lia | reflexivity | exact Hy]. }
  destruct j as [|j]; [lia|]. cbn in Hb.
  destruct i as [|i]; cbn in Ha.
  - injection Ha as <-. now apply (Hfirst j).
  - apply (IH (fun u v w Hu Hv Hw => Htrans u v w (list_elem_of_further _ _ _ Hu)
                 (list_elem_of_further _ _ _ Hv) (list_elem_of_further _ _ _ Hw))
             i j); [lia | exact Ha | exact Hb].
Qed.

(** The insertion sort gives an order that every engine may give. *)
Lemma Array_sort_sortOrder {A} (compare : A -> A -> Q) (items : list A) :
  (forall x y, (compare x y < 0)%Q -> ~ (compare y x < 0)%Q) ->
  sortOrder compare items
    (Array_sort (fun a b => negative (compare a b)) items).
Proof.
  intros Hasym.
  pose proof (Array_sort_perm (fun a b => negative (compare a b)) items)
    as Hperm.
  split; [now symmetry|].
  intros Hconsistent i j a b Hij Ha Hb.
  rewrite <- negative_spec, not_true_iff_false.
  refine (Sorted_pairwise
            (fun a b => negative (compare b a) = false) _ _ _ i j a b
            Hij Ha Hb).
  - apply Array_sort_Sorted. intros x y.
    rewrite negative_spec, <- not_true_iff_false, negative_spec.
    apply Hasym.
  - intros x y z Hx Hy Hz. rewrite Hperm in Hx, Hy, Hz.
    rewrite <- !not_true_iff_false, !negative_spec.
    now apply (consistent_notBefore_trans compare items Hconsistent).
Qed.

(** *** The comparison function in any arithmetic *)

Lemma compareResultsIn_exact h a b :
  compareResultsIn exactArithmetic h a b = compareResults h a b.
Proof. reflexivity. Qed.

(** When the comparison does not put [b] before [a], the confidence of [a]
    less that of [b] is not under -0.1. *)
Lemma compareResultsIn_notBefore num h a b :
  (0 <= oneTenth num)%Q ->
  ~ (compareResultsIn num h b a < 0)%Q ->
  (- oneTenth num
   <= subtract num (confidenceOf (h a)) (confidenceOf (h b)))%Q.
Proof.
  intros Hpos. unfold compareResultsIn. cbv zeta.
  destruct (Qlt_le_dec _ _) as [H1|H1].
  - intros Hnot. apply Qnot_lt_le in Hnot. lra.
  - apply Qabs_Qle_condition in H1. intros _. lra.
Qed.

(** When the comparison does not put [a] after [b], the confidence of [b]
    less that of [a] is not over 0.1. *)
Lemma compareResultsIn_notAfter num h a b :
  (0 <= oneTenth num)%Q ->
  (compareResultsIn num h a b <= 0)%Q ->
  (subtract num (confidenceOf (h b)) (confidenceOf (h a))
   <= oneTenth num)%Q.
Proof.
  intros Hpos. unfold compareResultsIn. cbv zeta.
  destruct (Qlt_le_dec _ _) as [H1|H1].
  - intros Hle. lra.
  - apply Qabs_Qle_condition in H1. intros _. lra.
Qed.

(** The comparison puts [a] before [b] exactly when [a] is more confident
    by more than 0.1, or the confidences tie within 0.1 and [a] is more
    complete by more than 0.1, or both tie and [a] alone is of Wikidata;
    the differences are those that the arithmetic gives. *)
Lemma compareResultsIn_order num h a b :
  (0 <= oneTenth num)%Q ->
  (compareResultsIn num h a b < 0)%Q <->
  let confidenceDiff :=
    subtract num (confidenceOf (h b)) (confidenceOf (h a)) in
  let completenessDiff :=
    subtract num (calculateDataCompleteness (h b))
      (calculateDataCompleteness (h a)) in
  (confidenceDiff < - oneTenth num)%Q
  \/ ((Qabs confidenceDiff <= oneTenth num)%Q
      /\ (completenessDiff < - oneTenth num)%Q)
  \/ ((Qabs confidenceDiff <= oneTenth num)%Q
      /\ (Qabs completenessDiff <= oneTenth num)%Q
      /\ (sourceScore (h b) < sourceScore (h a))%Z).
Proof.
  intros Hpos. unfold compareResultsIn. cbv zeta.
  set (c := subtract num (confidenceOf (h b)) (confidenceOf (h a))).
  set (d := subtract num (calculateDataCompleteness (h b))
              (calculateDataCompleteness (h a))).
  assert (Hz : (inject_Z (sourceScore (h b) - sourceScore (h a)) < 0)%Q
               <-> (sourceScore (h b) < sourceScore (h a))%Z).
  { change 0%Q with (inject_Z 0). rewrite <- Zlt_Qlt. lia. }
  destruct (Qlt_le_dec (oneTenth num) (Qabs c)) as [H1|H1].
  - pose proof H1 as H1'. apply Qabs_gt in H1'. split.
    + intros. left. lra.
    + intros [H | [[H _] | [H _]]]; lra.
  - pose proof H1 as H1'. apply Qabs_Qle_condition in H1'.
    destruct (Qlt_le_dec (oneTenth num) (Qabs d)) as [H2|H2].
    + pose proof H2 as H2'. apply Qabs_gt in H2'. split.
      * intros. right. left. split; [exact H1 | lra].
      * intros [H | [[_ H] | (_ & H & _)]]; lra.
    + pose proof H2 as H2'. apply Qabs_Qle_condition in H2'.
      rewrite Hz. split.
      * intros. right. right. auto.
      * intros [H | [[_ H] | (_ & _ & H)]]; [lra | lra | exact H].
Qed.

(** What [rankAndDeduplicateResults] returns is among the outcomes of
    [rankAndDeduplicateResultsOn] in the exact arithmetic. *)
Lemma rankAndDeduplicateResults_conforms results h :
  rankAndDeduplicateResultsOn exactArithmetic results h
    (rankAndDeduplicateResults results h).
Proof.
  unfold rankAndDeduplicateResultsOn, rankAndDeduplicateResults.
  destruct (removeDuplicates results h) as [h' uniqueResults].
  eexists. split; [|reflexivity].
  apply (Array_sort_sortOrder (compareResults h')). intros x y Hxy.
  rewrite <- negative_spec, not_true_iff_false.
  apply compareResults_asym. now apply negative_spec.
Qed.

(** The insertion sort, with exact numbers, leaves no two neighbours that
    it has not compared: between neighbours the bound holds for every
    input, whether the comparison is a consistent comparator or not.  This
    is a property of that algorithm, not of [sort]. *)
Lemma insertionSort_neighbours (h : Heap) (results : list loc) :
  let ranked := rankAndDeduplicateResults results h in
  forall i a b,
    ranked.2 !! i = Some a -> ranked.2 !! S i = Some b ->
    (confidenceOf (ranked.1 b) - (1 # 10) <= confidenceOf (ranked.1 a))%Q.
Proof.
  cbv zeta.
  rewrite rankAndDeduplicateResults_heap, rankAndDeduplicateResults_list.
  set (h' := (removeDuplicates results h).1).
  intros i a b Ha Hb.
  apply compareResults_band, negative_false.
  refine (Sorted_adjacent
            (fun a b => negative (compareResults h' b a) = false)
            _ _ i a b Ha Hb).
  apply Sorted_firstn.
  apply (Array_sort_Sorted (fun a b => negative (compareResults h' a b))).
  intros x y. apply compareResults_asym.
Qed.

(** The order of the ranked array, for every array that an engine may
    leave. *)
Lemma rankAndDeduplicateResultsOn_ordered num h results ranked :
  (0 <= oneTenth num)%Q ->
  rankAndDeduplicateResultsOn num results h ranked ->
  consistentComparator
    (compareResultsIn num (removeDuplicates results h).1)
    (removeDuplicates results h).2 ->
  forall i j a b,
    (i < j)%nat -> ranked.2 !! i = Some a -> ranked.2 !! j = Some b ->
    ~ (compareResultsIn num ranked.1 b a < 0)%Q
    /\ (compareResultsIn num ranked.1 a b <= 0)%Q.
Proof.
  intros Hpos. unfold rankAndDeduplicateResultsOn.
  destruct (removeDuplicates results h) as [h' uniqueResults]. cbn [fst snd].
  intros (sorted & [Hperm Hsorted] & ->) Hconsistent. cbn [fst snd].
  intros i j a b Hij Ha Hb. unfold slice0 in Ha, Hb.
  apply lookup_take_Some in Ha as [Ha _], Hb as [Hb _].
  pose proof (Hsorted Hconsistent i j a b Hij Ha Hb) as Hab.
  split; [exact Hab|].
  apply Qnot_lt_le. intros Hgt. apply Hab.
  apply (consistent_antisym _ uniqueResults Hconsistent);
    [rewrite Hperm; now apply list_elem_of_lookup_2 in Ha
    |rewrite Hperm; now apply list_elem_of_lookup_2 in Hb
    |exact Hgt].
Qed.



(** On three results whose confidences step down by 0.08 while their
    completeness steps up by an eighth, as in [Examples.cyclicHeap], the
    comparison is cyclic, in every arithmetic that is exact up to a
    thousandth: the first before the third by confidence, the third before
    the second and the second before the first by completeness. *)
Lemma compareResultsIn_cyclic num (h : Heap) :
  roundsWithin (1 # 1000)%Q num ->
  confidenceOf (h 0%nat) = (90 # 100)%Q ->
  confidenceOf (h 1%nat) = (82 # 100)%Q ->
  confidenceOf (h 2%nat) = (74 # 100)%Q ->
  calculateDataCompleteness (h 0%nat) = (4 # 8)%Q ->
  calculateDataCompleteness (h 1%nat) = (5 # 8)%Q ->
  calculateDataCompleteness (h 2%nat) = (6 # 8)%Q ->
  (0 <= oneTenth num)%Q
  /\ (compareResultsIn num h 0%nat 2%nat < 0)%Q
  /\ (compareResultsIn num h 2%nat 1%nat < 0)%Q
  /\ (compareResultsIn num h 1%nat 0%nat < 0)%Q
  /\ (0 < compareResultsIn num h 0%nat 1%nat)%Q
  /\ ~ (subtract num (confidenceOf (h 0%nat)) (confidenceOf (h 2%nat))
        <= oneTenth num)%Q.
Proof.
  intros [Hminus Htenth] Hc0 Hc1 Hc2 Hd0 Hd1 Hd2.
  apply Qabs_Qle_condition in Htenth.
  assert (forall x y, (0 <= x <= 1)%Q -> (0 <= y <= 1)%Q ->
            (x - y - (1 # 1000) <= subtract num x y <= x - y + (1 # 1000))%Q)
    as Hnear.
  { intros x y Hx Hy. pose proof (Hminus x y Hx Hy) as Hxy.
    apply Qabs_Qle_condition in Hxy. lra. }
  assert (0 <= oneTenth num)%Q as Hpos by lra.
  split; [exact Hpos|].
  unfold compareResultsIn. cbv zeta.
  rewrite Hc0, Hc1, Hc2, Hd0, Hd1, Hd2.
  pose proof (Hnear (74 # 100)%Q (90 # 100)%Q ltac:(lra) ltac:(lra)) as H02.
  pose proof (Hnear (90 # 100)%Q (74 # 100)%Q ltac:(lra) ltac:(lra)) as H20.
  pose proof (Hnear (82 # 100)%Q (74 # 100)%Q ltac:(lra) ltac:(lra)) as H21.
  pose proof (Hnear (90 # 100)%Q (82 # 100)%Q ltac:(lra) ltac:(lra)) as H10.
  pose proof (Hnear (82 # 100)%Q (90 # 100)%Q ltac:(lra) ltac:(lra)) as H01.
  pose proof (Hnear (5 # 8)%Q (6 # 8)%Q ltac:(lra) ltac:(lra)) as C21.
  pose proof (Hnear (4 # 8)%Q (5 # 8)%Q ltac:(lra) ltac:(lra)) as C10.
  pose proof (Hnear (5 # 8)%Q (4 # 8)%Q ltac:(lra) ltac:(lra)) as C01.
  repeat split;
    repeat (let Hband := fresh "Hband" in
            destruct (Qlt_le_dec _ _) as [Hband|Hband];
            [apply Qabs_gt in Hband | apply Qabs_Qle_condition in Hband]);
    lra.
Qed.


(** On the same three results the insertion sort, with exact numbers,
    leaves "Doom 3", "Doom II", "Doom": neighbours are within the band, and
    the least confident result (0.74) is first, the most confident one
    (0.90) last. *)
Lemma insertionSort_cyclic_example :
  let ranked := rankAndDeduplicateResults [0; 1; 2] Examples.cyclicHeap in
  ranked.2 = [2; 1; 0]
  /\ confidenceOf (ranked.1 2%nat) = (74 # 100)%Q
  /\ confidenceOf (ranked.1 1%nat) = (82 # 100)%Q
  /\ confidenceOf (ranked.1 0%nat) = (90 # 100)%Q.
Proof. cbv zeta. repeat split; vm_compute; reflexivity. Qed.

(** C9 (as amended).  Candidates are updated in place.  The merge assigns
    only to Wikidata results, and only to their description, series, modes,
    [dataSource] and [searchMetadata]; every other property of every
    object, and every object that is not a Wikidata result of the merge, is
    as before.  Deduplication and ranking assign to no property other than
    [platforms], and to no object outside the array they are given. *)
Theorem candidates_updated_in_place :
  (forall h wds wps l,
      outsideEnhancement ((mergeSearchResults wds wps h).1 l)
      = outsideEnhancement (h l))
  /\ (forall h wds wps l,
        l ∉ wds -> (mergeSearchResults wds wps h).1 l = h l)
  /\ (forall h results l,
        set_platforms None ((rankAndDeduplicateResults results h).1 l)
        = set_platforms None (h l))
  /\ (forall h results l,
        l ∉ results -> (rankAndDeduplicateResults results h).1 l = h l).
Proof.
  repeat split.
  - intros h wds wps l. rewrite mergeSearchResults_eq.
    apply enhanceTurns_outside.
  - intros h wds wps l Hl. rewrite mergeSearchResults_eq.
    now apply enhanceTurns_other.
  - intros h results l. rewrite rankAndDeduplicateResults_heap.
    apply removeDuplicatesFrom_outside.
  - intros h results l Hl. rewrite rankAndDeduplicateResults_heap.
    now apply removeDuplicatesFrom_other.
Qed.

(** The theorem at the merge of "DOOM" and "Doom": the Wikipedia entry is
    not a Wikidata result, and it is as it was. *)
Lemma candidates_updated_in_place_witness :
  (mergeSearchResults [0] [1] Examples.doomHeap).1 1 = Examples.doomHeap 1
  /\ (rankAndDeduplicateResults [0] Examples.doomHeap).1 1
     = Examples.doomHeap 1.
Proof.
  destruct candidates_updated_in_place as (_ & Hmerge & _ & Hrank).
  split; [apply Hmerge | apply Hrank];
    intros Hin; apply list_elem_of_singleton in Hin; discriminate Hin.
Defined.

(** Deduplication sorts the platforms array of a result where it stands:
    ["PC"; "DOS"] is ["DOS"; "PC"] afterwards. *)
Lemma removeDuplicates_sorts_platforms_in_place :
  platforms (Examples.scoredHeap 2%nat) = Some ["PC"; "DOS"]
  /\ platforms ((removeDuplicates [2%nat] Examples.scoredHeap).1 2%nat)
     = Some ["DOS"; "PC"].
Proof. split; vm_compute; reflexivity. Qed.

(** C9 as stated fails: the merge writes the description of the Wikipedia
    entry into the Wikidata object itself. *)
Lemma candidates_immutable_counterexample :
  let h := Examples.doomHeap in
  let merged := mergeSearchResults [0] [1] h in
  description (h 0) = JNull
  /\ description (merged.1 0) = JStr "Doom is a 1993 first-person shooter."
  /\ merged.1 0 <> h 0.
Proof.
  cbv zeta. split; [reflexivity|]. split; [vm_compute; reflexivity|].
  intros Heq. apply (f_equal description) in Heq. vm_compute in Heq.
  discriminate Heq.
Qed.

End RankFacts.

(** ** The search manager *)

Module SearchFacts.
Import SearchManager SearchInvariants MergeFacts RankFacts JsStringFacts.

(** *** The two requests *)

Lemma bind_unfold {A B} (m : M A) (k : A -> M B) w :
  bind m k w =
  match m w with
  | (Returned a, w') => k a w'
  | (Thrown e, w') => (Thrown e, w')
  end.
Proof. reflexivity. Qed.

Lemma tryCatch_unfold {A} (m : M A) (handler : string -> M A) w :
  tryCatch m handler w =
  match m w with
  | (Returned a, w') => (Returned a, w')
  | (Thrown e, w') => handler e w'
  end.
Proof. reflexivity. Qed.

(** The objects that [executeWikidataSearch] and [executeFallbackSearch]
    create are new: they take the next free references, in order, and no
    object that existed before is touched. *)
Lemma mapM_alloc_spec (G : Z -> Candidate -> Candidate) (xs : list Candidate) :
  forall w, exists w',
    mapM (fun result => timestamp <- dateNow ;; alloc (G timestamp result)) xs w
    = (Returned (seq (nextLoc w) (length xs)), w')
    /\ nextLoc w' = (nextLoc w + length xs)%nat
    /\ searchCache w' = searchCache w /\ now w' = now w
    /\ calls w' = calls w /\ randomDraws w' = randomDraws w
    /\ (forall l, (l < nextLoc w)%nat -> heap w' l = heap w l)
    /\ (forall i x, xs !! i = Some x ->
          heap w' (nextLoc w + i)%nat = G (now w) x).
Proof.
  induction xs as [|x xs IH]; intros w.
  - exists w. cbn. rewrite Nat.add_0_r. repeat split; auto. intros; discriminate.
  - set (w1 := mkWorld (store (nextLoc w) (G (now w) x) (heap w))
                 (S (nextLoc w)) (searchCache w) (now w) (calls w)
                 (randomDraws w)).
    destruct (IH w1) as (w' & Hrun & Hn & Hc & Ht & Hcalls & Hr & Hold & Hnew).
    exists w'.
    change (mapM _ (x :: xs) w) with
      (match mapM (fun result =>
                     timestamp <- dateNow ;; alloc (G timestamp result)) xs w1
       with
       | (Returned ys, w2) => (Returned (nextLoc w :: ys), w2)
       | (Thrown e, w2) => (Thrown e, w2)
       end).
    rewrite Hrun. subst w1. cbn in *.
    repeat split; auto; try lia.
    + intros l Hl. rewrite Hold by lia. unfold store.
      destruct (Nat.eqb_spec l (nextLoc w)); [lia | reflexivity].
    + intros [|i] y Hy; cbn in Hy.
      * injection Hy as ->. rewrite Nat.add_0_r, Hold by lia.
        unfold store. now rewrite Nat.eqb_refl.
      * rewrite <- (Hnew i y Hy). f_equal. lia.
Qed.

Lemma executeWikidataSearch_spec svc q w :
  exists wds w',
    executeWikidataSearch svc q w = (Returned wds, w')
    /\ wds = seq (nextLoc w) (length wds)
    /\ nextLoc w' = (nextLoc w + length wds)%nat
    /\ searchCache w' = searchCache w
    /\ now w' = (now w + Z.of_nat (searchGameByTitle svc q).1)%Z
    /\ calls w' = (calls w ++ [CallWikidata q])%list
    /\ randomDraws w' = randomDraws w
    /\ (forall l, (l < nextLoc w)%nat -> heap w' l = heap w l)
    /\ (forall l, l ∈ wds ->
          (source <$> searchMetadata (heap w' l)) = Some (JStr "wikidata")).
Proof.
  unfold executeWikidataSearch. rewrite tryCatch_unfold, bind_unfold.
  unfold awaitWikidata.
  destruct (searchGameByTitle svc q) as [elapsed [games|e]]; cbn [fst snd].
  - set (w1 := mkWorld _ _ _ _ _ _).
    destruct (mapM_alloc_spec
                (fun timestamp result =>
                   set_searchMetadata
                     (Some (mkSearchMetadata (JStr "wikidata") (JStr q)
                              (Some timestamp)
                              (Some (calculateWikidataConfidence result q))
                              false)) result) games w1)
      as (w' & Hrun & Hn & Hc & Ht & Hcalls & Hr & Hold & Hnew).
    rewrite Hrun. exists (seq (nextLoc w1) (length games)), w'.
    rewrite length_seq. subst w1. cbn in *.
    repeat split; auto.
    intros l Hl. apply elem_of_seq in Hl as [Hlo Hhi].
    destruct (lookup_lt_is_Some_2 games (l - nextLoc w)) as [x Hx]; [lia|].
    replace l with (nextLoc w + (l - nextLoc w))%nat by lia.
    now rewrite (Hnew _ x Hx).
  - exists [], (mkWorld (heap w) (nextLoc w) (searchCache w)
                  (now w + Z.of_nat elapsed) (calls w ++ [CallWikidata q])
                  (randomDraws w)).
    cbn. rewrite Nat.add_0_r. repeat split; auto.
    intros l Hl. now apply elem_of_nil in Hl.
Qed.

Lemma executeFallbackSearch_spec svc q w :
  exists wps w',
    executeFallbackSearch svc q w = (Returned wps, w')
    /\ wps = seq (nextLoc w) (length wps)
    /\ nextLoc w' = (nextLoc w + length wps)%nat
    /\ searchCache w' = searchCache w
    /\ now w' = (now w + Z.of_nat (extractGameMetadata svc q).1)%Z
    /\ calls w' = (calls w ++ [CallWikipedia q])%list
    /\ (forall l, (l < nextLoc w)%nat -> heap w' l = heap w l)
    /\ (forall l, l ∈ wps ->
          (source <$> searchMetadata (heap w' l)) = Some (JStr "wikipedia")).
Proof.
  unfold executeFallbackSearch. rewrite tryCatch_unfold, bind_unfold.
  unfold awaitWikipedia.
  destruct (extractGameMetadata svc q) as [elapsed [[result|]|e]];
    cbn [fst snd].
  - unfold bind, generateSearchResultId, dateNow, alloc, ret. cbn.
    eexists [_], _. split; [reflexivity|]. cbn.
    repeat split; auto; try lia.
    + intros l Hl. unfold store.
      destruct (Nat.eqb_spec l (nextLoc w)); [lia | reflexivity].
    + intros l Hl. apply list_elem_of_singleton in Hl as ->.
      unfold store. now rewrite Nat.eqb_refl.
  - unfold ret. eexists [], _. split; [reflexivity|]. cbn.
    rewrite Nat.add_0_r. repeat split; auto.
    intros l Hl. now apply elem_of_nil in Hl.
  - unfold ret. eexists [], _. split; [reflexivity|]. cbn.
    rewrite Nat.add_0_r. repeat split; auto.
    intros l Hl. now apply elem_of_nil in Hl.
Qed.

(** *** The cache *)

Lemma cacheResult_eq q rs w :
  cacheResult q rs w =
  (Returned tt,
   set_searchCache
     (filter (fun kv => ~ (cacheTimeout < now w - entry_timestamp kv.2)%Z)
        (<[trim (toLowerCase q) := mkCacheEntry rs (now w)]> (searchCache w)))
     w).
Proof. reflexivity. Qed.

(** What was just cached is in the cache. *)
Lemma cacheResult_lookup q rs w :
  searchCache (cacheResult q rs w).2 !! trim (toLowerCase q)
  = Some (mkCacheEntry rs (now w)).
Proof.
  rewrite cacheResult_eq. cbn [snd set_searchCache searchCache].
  apply map_lookup_filter_Some. split; [apply lookup_insert_eq|].
  cbn. unfold cacheTimeout. lia.
Qed.

Lemma cacheResult_frame q rs w :
  heap (cacheResult q rs w).2 = heap w
  /\ nextLoc (cacheResult q rs w).2 = nextLoc w
  /\ now (cacheResult q rs w).2 = now w
  /\ calls (cacheResult q rs w).2 = calls w.
Proof. rewrite cacheResult_eq. cbn. auto. Qed.

(** Every entry of the cache after [cacheResult] is the new entry or was in
    the cache before. *)
Lemma cacheResult_entries q rs w k e :
  searchCache (cacheResult q rs w).2 !! k = Some e ->
  e = mkCacheEntry rs (now w) \/ searchCache w !! k = Some e.
Proof.
  rewrite cacheResult_eq. cbn [snd set_searchCache searchCache].
  intros [He _]%map_lookup_filter_Some.
  destruct (decide (trim (toLowerCase q) = k)) as [<-|Hne].
  - rewrite lookup_insert_eq in He. left. congruence.
  - rewrite lookup_insert_ne in He by exact Hne. now right.
Qed.

Lemma getCachedResult_cases q w :
  (exists w0, getCachedResult q w = (Returned None, w0)
      /\ heap w0 = heap w /\ nextLoc w0 = nextLoc w /\ now w0 = now w
      /\ calls w0 = calls w
      /\ (forall k e, searchCache w0 !! k = Some e -> searchCache w !! k = Some e))
  \/ (exists e, searchCache w !! trim (toLowerCase q) = Some e
      /\ (now w - entry_timestamp e <= cacheTimeout)%Z
      /\ getCachedResult q w = (Returned (Some (results e)), w)).
Proof.
  unfold getCachedResult.
  destruct (searchCache w !! trim (toLowerCase q)) as [e|] eqn:He.
  - destruct (Z.ltb_spec cacheTimeout (now w - entry_timestamp e)).
    + left. eexists. split; [reflexivity|]. cbn. repeat split; auto.
      intros k e'. destruct (decide (trim (toLowerCase q) = k)) as [<-|Hne].
      * now rewrite lookup_delete_eq.
      * now rewrite lookup_delete_ne.
    + right. exists e. auto.
  - left. exists w. repeat split; auto.
Qed.

(** A live entry answers the search. *)
Lemma searchGame_hit svc q w e :
  (2 <= String.length (trim q))%nat ->
  searchCache w !! trim (toLowerCase (trim q)) = Some e ->
  (now w - entry_timestamp e <= cacheTimeout)%Z ->
  searchGame svc q w = (Returned (results e), w).
Proof.
  intros Hlen He Hlive. unfold searchGame.
  destruct q as [|c q]; [cbn in Hlen; lia|].
  cbn [String.eqb orb].
  destruct (Nat.ltb_spec (String.length (trim (String c q))) 2); [lia|].
  rewrite bind_unfold. unfold getCachedResult. rewrite He.
  destruct (Z.ltb_spec cacheTimeout (now w - entry_timestamp e)); [lia|].
  reflexivity.
Qed.

Lemma searchGame_short svc q w :
  (String.length (trim q) < 2)%nat -> searchGame svc q w = (Returned [], w).
Proof.
  intros Hlen. unfold searchGame.
  destruct (Nat.ltb_spec (String.length (trim q)) 2); [|lia].
  now rewrite orb_true_r.
Qed.

(** The search on a cache miss: the Wikidata request, then either the
    ranking of its results, or the Wikipedia request, the merge and the
    ranking; the outcome is cached and returned. *)
Lemma searchGame_miss svc q w w0 :
  (2 <= String.length (trim q))%nat ->
  getCachedResult (trim q) w = (Returned None, w0) ->
  exists wds w1,
    executeWikidataSearch svc (trim q) w0 = (Returned wds, w1)
    /\ (((0 <? length wds)%nat && hasGoodQualityResults (heap w1) wds = true
         /\ searchGame svc q w =
            (Returned (rankAndDeduplicateResults wds (heap w1)).2,
             (cacheResult (trim q) (rankAndDeduplicateResults wds (heap w1)).2
                (set_heap (rankAndDeduplicateResults wds (heap w1)).1 w1)).2))
        \/ ((0 <? length wds)%nat && hasGoodQualityResults (heap w1) wds = false
            /\ exists wps w2,
                executeFallbackSearch svc (trim q) w1 = (Returned wps, w2)
                /\ let merged := mergeSearchResults wds wps (heap w2) in
                   let ranked := rankAndDeduplicateResults merged.2 merged.1 in
                   searchGame svc q w =
                   (Returned ranked.2,
                    (cacheResult (trim q) ranked.2 (set_heap ranked.1 w2)).2))).
Proof.
  intros Hlen Hmiss.
  destruct (executeWikidataSearch_spec svc (trim q) w0)
    as (wds & w1 & Hwd & _).
  exists wds, w1. split; [exact Hwd|].
  unfold searchGame.
  destruct q as [|c q]; [cbn in Hlen; lia|].
  cbn [String.eqb orb].
  destruct (Nat.ltb_spec (String.length (trim (String c q))) 2); [lia|].
  rewrite bind_unfold, Hmiss, tryCatch_unfold, bind_unfold, Hwd, bind_unfold.
  unfold readHeap. lazy beta iota.
  destruct ((0 <? length wds)%nat && hasGoodQualityResults (heap w1) wds)
    eqn:Hgate.
  - left. split; [reflexivity|].
    rewrite bind_unfold. unfold onHeap at 1.
    destruct (rankAndDeduplicateResults wds (heap w1)) as [h' rs].
    unfold bind at 1. rewrite cacheResult_eq. reflexivity.
  - right. split; [reflexivity|].
    destruct (executeFallbackSearch_spec svc (trim (String c q)) w1)
      as (wps & w2 & Hwp & _).
    exists wps, w2. split; [exact Hwp|]. cbv zeta.
    rewrite bind_unfold, Hwp, bind_unfold. unfold onHeap at 1.
    destruct (mergeSearchResults wds wps (heap w2)) as [hm merged].
    rewrite bind_unfold. unfold onHeap at 1. cbn [heap set_heap fst snd].
    destruct (rankAndDeduplicateResults merged hm) as [hf final].
    unfold bind at 1. rewrite cacheResult_eq. reflexivity.
Qed.

Lemma searchGame_returns svc q w :
  exists rs, (searchGame svc q w).1 = Returned rs.
Proof.
  destruct (Nat.lt_ge_cases (String.length (trim q)) 2) as [Hshort|Hlen].
  { rewrite searchGame_short by exact Hshort. now exists []. }
  destruct (getCachedResult_cases (trim q) w)
    as [(w0 & Hmiss & _) | (e & He & Hlive & _)].
  - destruct (searchGame_miss svc q w w0 Hlen Hmiss)
      as (wds & w1 & _ & [[_ ->] | (_ & wps & w2 & _ & ->)]); eauto.
  - rewrite (searchGame_hit svc q w e Hlen He Hlive). eauto.
Qed.

Lemma executeWikidataSearch_thrown svc q w e :
  (searchGameByTitle svc q).2 = Thrown e ->
  (executeWikidataSearch svc q w).1 = Returned [].
Proof.
  intros He. unfold executeWikidataSearch.
  rewrite tryCatch_unfold, bind_unfold. unfold awaitWikidata.
  destruct (searchGameByTitle svc q) as [elapsed out]. cbn in He. subst out.
  reflexivity.
Qed.

Lemma executeFallbackSearch_thrown svc q w e :
  (extractGameMetadata svc q).2 = Thrown e ->
  (executeFallbackSearch svc q w).1 = Returned [].
Proof.
  intros He. unfold executeFallbackSearch.
  rewrite tryCatch_unfold, bind_unfold. unfold awaitWikipedia.
  destruct (extractGameMetadata svc q) as [elapsed out]. cbn in He. subst out.
  reflexivity.
Qed.

(** *** Later searches and the cache *)

(** A miss leaves no entry under the key, and keeps every live entry. *)
Lemma getCachedResult_miss q w w0 :
  getCachedResult q w = (Returned None, w0) ->
  now w0 = now w
  /\ searchCache w0 !! trim (toLowerCase q) = None
  /\ (forall k e, searchCache w !! k = Some e ->
        (now w - entry_timestamp e <= cacheTimeout)%Z ->
        searchCache w0 !! k = Some e).
Proof.
  unfold getCachedResult.
  destruct (searchCache w !! trim (toLowerCase q)) as [cached|] eqn:He.
  - destruct (Z.ltb_spec cacheTimeout (now w - entry_timestamp cached));
      [|discriminate].
    intros [= <-]. cbn. split; [reflexivity|].
    split; [apply lookup_delete_eq|].
    intros k e Hk Hlive.
    destruct (decide (trim (toLowerCase q) = k)) as [<-|Hne].
    + rewrite He in Hk. injection Hk as <-. lia.
    + now rewrite lookup_delete_ne.
  - intros [= <-]. auto.
Qed.

(** The world in which a search that missed the cache caches its outcome:
    the cache is the one the miss left, and the clock has not gone back. *)
Lemma searchGame_miss_world svc q w w0 :
  (2 <= String.length (trim q))%nat ->
  getCachedResult (trim q) w = (Returned None, w0) ->
  exists rs wc,
    searchGame svc q w = (Returned rs, (cacheResult (trim q) rs wc).2)
    /\ searchCache wc = searchCache w0
    /\ (now w0 <= now wc)%Z.
Proof.
  intros Hlen Hmiss.
  destruct (searchGame_miss svc q w w0 Hlen Hmiss)
    as (wds & w1 & Hwd & Hcases).
  destruct (executeWikidataSearch_spec svc (trim q) w0)
    as (wds' & w1' & Hwd' & _ & _ & Hc1 & Ht1 & _).
  rewrite Hwd in Hwd'. injection Hwd' as <- <-.
  destruct Hcases as [[_ Heq] | (_ & wps & w2 & Hwp & Heq)].
  - eexists _, _. split; [exact Heq|]. cbn [searchCache now set_heap].
    split; [exact Hc1 | lia].
  - destruct (executeFallbackSearch_spec svc (trim q) w1)
      as (wps' & w2' & Hwp' & _ & _ & Hc2 & Ht2 & _).
    rewrite Hwp in Hwp'. injection Hwp' as <- <-.
    cbv zeta in Heq.
    eexists _, _. split; [exact Heq|]. cbn [searchCache now set_heap].
    split; [congruence | lia].
Qed.

(** The clock does not go back during a search. *)
Lemma searchGame_now svc q w : (now w <= now (searchGame svc q w).2)%Z.
Proof.
  destruct (Nat.lt_ge_cases (String.length (trim q)) 2) as [Hshort|Hlen].
  { rewrite searchGame_short by exact Hshort. cbn. lia. }
  destruct (getCachedResult_cases (trim q) w)
    as [(w0 & Hmiss & _) | (e & He & Hlive & _)].
  - destruct (getCachedResult_miss _ _ _ Hmiss) as (Ht0 & _).
    destruct (searchGame_miss_world svc q w w0 Hlen Hmiss)
      as (rs & wc & -> & _ & Ht).
    cbn [snd]. destruct (cacheResult_frame (trim q) rs wc) as (_ & _ & -> & _).
    lia.
  - rewrite (searchGame_hit svc q w e Hlen He Hlive). cbn. lia.
Qed.

(** A search, for whatever query, keeps every cache entry that is still
    live when it ends. *)
Lemma searchGame_keeps_live svc q w k e :
  searchCache w !! k = Some e ->
  (now (searchGame svc q w).2 - entry_timestamp e <= cacheTimeout)%Z ->
  searchCache (searchGame svc q w).2 !! k = Some e.
Proof.
  destruct (Nat.lt_ge_cases (String.length (trim q)) 2) as [Hshort|Hlen].
  { now rewrite searchGame_short by exact Hshort. }
  destruct (getCachedResult_cases (trim q) w)
    as [(w0 & Hmiss & _) | (e' & He' & Hlive' & _)].
  - destruct (getCachedResult_miss _ _ _ Hmiss) as (Ht0 & Hnone & Hkeep).
    destruct (searchGame_miss_world svc q w w0 Hlen Hmiss)
      as (rs & wc & -> & Hc & Ht).
    cbn [snd]. destruct (cacheResult_frame (trim q) rs wc) as (_ & _ & Hnow & _).
    rewrite Hnow. intros Hk Hlive.
    apply Hkeep in Hk; [|lia].
    rewrite cacheResult_eq. cbn [snd set_searchCache searchCache].
    apply map_lookup_filter_Some. split; [|cbn; lia].
    rewrite lookup_insert_ne, Hc; [exact Hk|].
    intros Hsame. rewrite Hsame in Hnone. congruence.
  - now rewrite (searchGame_hit svc q w e' Hlen He' Hlive').
Qed.

Lemma SearchesFrom_now w w' : SearchesFrom w w' -> (now w <= now w')%Z.
Proof.
  induction 1 as [|svc q w' _ IH|elapsed w' Helapsed _ IH]; [lia| |].
  - pose proof (searchGame_now svc q w'). lia.
  - cbn. lia.
Qed.

(** Searches and time keep every cache entry that is still live at the
    end. *)
Lemma SearchesFrom_keeps_live w w' k e :
  SearchesFrom w w' ->
  searchCache w !! k = Some e ->
  (now w' - entry_timestamp e <= cacheTimeout)%Z ->
  searchCache w' !! k = Some e.
Proof.
  induction 1 as [|svc q w' _ IH|elapsed w' Helapsed _ IH];
    intros Hk Hlive; [exact Hk| |].
  - apply searchGame_keeps_live; [|exact Hlive].
    apply IH; [exact Hk|].
    pose proof (searchGame_now svc q w'). lia.
  - cbn in *. apply IH; [exact Hk | lia].
Qed.

(** C8.  A query has fewer than two characters that are not white space
    exactly when its trimmed form is shorter than two characters, and for
    such a query [searchGame] returns the empty array and leaves the world
    as it was: no request to either service, no change to the cache. *)
Theorem searchGame_short_query (svc : Services) (q : string) (w : World) :
  ((nonWhiteSpaceCount q < 2)%nat <-> (String.length (trim q) < 2)%nat)
  /\ ((nonWhiteSpaceCount q < 2)%nat ->
      searchGame svc q w = (Returned [], w)).
Proof.
  split; [apply short_query_iff|].
  intros Hq. apply searchGame_short. now apply short_query_iff.
Qed.

(** C7.  [searchGame] never ends with an exception, whatever the services
    do; and when both services throw for the query (they are asked on a
    cache miss), it returns the empty array. *)
Theorem searchGame_both_services_throw :
  (forall svc q w, exists rs, (searchGame svc q w).1 = Returned rs)
  /\ (forall svc q w e1 e2,
        (searchGameByTitle svc (trim q)).2 = Thrown e1 ->
        (extractGameMetadata svc (trim q)).2 = Thrown e2 ->
        (getCachedResult (trim q) w).1 = Returned None ->
        (searchGame svc q w).1 = Returned []).
Proof.
  split; [apply searchGame_returns|].
  intros svc q w e1 e2 H1 H2 Hmiss.
  destruct (Nat.lt_ge_cases (String.length (trim q)) 2) as [Hshort|Hlen].
  { now rewrite searchGame_short. }
  destruct (getCachedResult (trim q) w) as [o w0] eqn:Hget.
  cbn in Hmiss. subst o.
  destruct (searchGame_miss svc q w w0 Hlen Hget) as (wds & w1 & Hwd & Hrun).
  pose proof (executeWikidataSearch_thrown svc (trim q) w0 e1 H1) as Hnil.
  rewrite Hwd in Hnil. injection Hnil as ->.
  destruct Hrun as [[Hgate _] | (_ & wps & w2 & Hwp & Heq)];
    [discriminate Hgate|].
  pose proof (executeFallbackSearch_thrown svc (trim q) w1 e2 H2) as Hnil.
  rewrite Hwp in Hnil. injection Hnil as ->.
  cbv zeta in Heq. rewrite Heq. reflexivity.
Qed.

(** C2.  On a cache miss, when the results of the Wikidata service pass the
    good-quality gate, the Wikipedia service is not asked (the one request
    of the search goes to Wikidata) and the search is the same, in its
    result and in the world it leaves, whatever the Wikipedia service would
    have answered. *)
Theorem searchGame_good_quality_skips_wikipedia
    (svc : Services) (wikipedia' : string -> nat * Outcome (option Candidate))
    (q : string) (w w0 w1 : World) (wds : list loc) :
  (2 <= String.length (trim q))%nat ->
  getCachedResult (trim q) w = (Returned None, w0) ->
  executeWikidataSearch svc (trim q) w0 = (Returned wds, w1) ->
  hasGoodQualityResults (heap w1) wds = true ->
  searchGame (withWikipedia wikipedia' svc) q w = searchGame svc q w
  /\ calls (searchGame svc q w).2 = (calls w ++ [CallWikidata (trim q)])%list
  /\ (forall q', CallWikipedia q' ∈ calls (searchGame svc q w).2 ->
                 CallWikipedia q' ∈ calls w).
Proof.
  intros Hlen Hmiss Hwd Hgood.
  assert ((0 <? length wds)%nat && hasGoodQualityResults (heap w1) wds = true)
    as Hgate.
  { rewrite Hgood. destruct wds; [discriminate Hgood | reflexivity]. }
  assert (forall svc',
            executeWikidataSearch svc' (trim q) w0 = (Returned wds, w1) ->
            searchGame svc' q w =
            (Returned (rankAndDeduplicateResults wds (heap w1)).2,
             (cacheResult (trim q) (rankAndDeduplicateResults wds (heap w1)).2
                (set_heap (rankAndDeduplicateResults wds (heap w1)).1 w1)).2))
    as Hrun.
  { intros svc' Hwd'.
    destruct (searchGame_miss svc' q w w0 Hlen Hmiss)
      as (wds' & w1' & Hwd'' & Hcases).
    rewrite Hwd' in Hwd''. injection Hwd'' as <- <-.
    destruct Hcases as [[_ ->] | [Hno _]]; [reflexivity | congruence]. }
  assert (calls (searchGame svc q w).2 = (calls w ++ [CallWikidata (trim q)])%list)
    as Hcalls.
  { rewrite (Hrun svc Hwd). cbn [snd].
    destruct (cacheResult_frame (trim q)
                (rankAndDeduplicateResults wds (heap w1)).2
                (set_heap (rankAndDeduplicateResults wds (heap w1)).1 w1))
      as (_ & _ & _ & ->).
    cbn [calls set_heap].
    destruct (executeWikidataSearch_spec svc (trim q) w0)
      as (wds' & w1' & Hwd' & _ & _ & _ & _ & Hc & _).
    rewrite Hwd in Hwd'. injection Hwd' as <- <-. rewrite Hc.
    destruct (getCachedResult_cases (trim q) w)
      as [(w0' & Hmiss' & _ & _ & _ & Hc0 & _) | (e & _ & _ & Hhit)].
    - rewrite Hmiss in Hmiss'. injection Hmiss' as <-. now rewrite Hc0.
    - rewrite Hmiss in Hhit. discriminate Hhit. }
  split; [|split].
  - rewrite (Hrun svc Hwd). apply Hrun. exact Hwd.
  - exact Hcalls.
  - intros q' Hin. rewrite Hcalls in Hin.
    apply elem_of_app in Hin as [Hin|Hin]; [exact Hin|].
    apply list_elem_of_singleton in Hin. discriminate Hin.
Qed.


(** The theorem at the query " a ". *)
Lemma searchGame_short_query_witness :
  searchGame Examples.doomServices " a " Examples.initialWorld
  = (Returned [], Examples.initialWorld).
Proof.
  apply (proj2 (searchGame_short_query Examples.doomServices " a "
                  Examples.initialWorld)).
  vm_compute. lia.
Defined.

(** The theorem at two services that throw. *)
Lemma searchGame_both_services_throw_witness :
  (searchGame Examples.throwingServices "doom" Examples.initialWorld).1
  = Returned [].
Proof.
  apply (proj2 searchGame_both_services_throw Examples.throwingServices
           "doom" Examples.initialWorld "Wikidata search failed"
           "NetworkError");
    vm_compute; reflexivity.
Defined.

(** The theorem at a Wikidata service whose first result has confidence
    0.925 and completeness 0.75. *)
Lemma searchGame_good_quality_skips_wikipedia_witness :
  searchGame (withWikipedia Examples.doomWikipedia Examples.doomServices)
    "doom" Examples.initialWorld
  = searchGame Examples.doomServices "doom" Examples.initialWorld
  /\ calls (searchGame Examples.doomServices "doom" Examples.initialWorld).2
     = [CallWikidata "doom"].
Proof.
  destruct (searchGame_good_quality_skips_wikipedia Examples.doomServices
              Examples.doomWikipedia "doom" Examples.initialWorld
              Examples.initialWorld
              (executeWikidataSearch Examples.doomServices "doom"
                 Examples.initialWorld).2
              [0; 1]%nat) as (Hsame & Hcalls & _).
  - vm_compute. lia.
  - vm_compute. reflexivity.
  - vm_compute. reflexivity.
  - vm_compute. reflexivity.
  - split; [exact Hsame | exact Hcalls].
Defined.


(** C4 as stated fails: the Wikidata service returns "Doom" and
    "Doom II", one title contains the other, and the search returns
    both. *)
Lemma searchGame_similar_entries_counterexample :
  let run := searchGame Examples.doomServices " Doom " Examples.initialWorld in
  run.1 = Returned [0; 1]%nat
  /\ title (heap run.2 0%nat) = JStr "Doom"
  /\ title (heap run.2 1%nat) = JStr "Doom II"
  /\ areResultsSimilar (heap run.2 0%nat) (heap run.2 1%nat) = true.
Proof. cbv zeta. repeat split; vm_compute; reflexivity. Qed.

End SearchFacts.

(** ** The result array of a search *)

Module InvariantFacts.
Import SearchManager SearchInvariants MergeFacts RankFacts SearchFacts.

(** *** Deduplication keys *)

Lemma sortPlatformsInPlace_at r h :
  title (sortPlatformsInPlace r h r) = title (h r)
  /\ releaseDate (sortPlatformsInPlace r h r) = releaseDate (h r)
  /\ orNil (platforms (sortPlatformsInPlace r h r)) = sortedPlatforms (h r).
Proof.
  unfold sortPlatformsInPlace.
  destruct (platforms (h r)) as [ps|] eqn:Hp.
  - rewrite modify_same. cbn. auto.
  - rewrite Hp. unfold sortedPlatforms. rewrite Hp. auto.
Qed.

Lemma sortPlatformsInPlace_key r h :
  template (titleLowerCase (h r)) ++ "_" ++ template (releaseDate (h r))
  ++ "_" ++ join "," (sortedPlatforms (h r))
  = dedupKey (sortPlatformsInPlace r h r).
Proof.
  destruct (sortPlatformsInPlace_at r h) as (Ht & Hr & Hp).
  unfold dedupKey, titleLowerCase. now rewrite Ht, Hr, Hp.
Qed.

Lemma removeDuplicatesFrom_keys results : forall seen h,
  NoDup results ->
  NoDup ((fun l => dedupKey ((removeDuplicatesFrom seen results h).1 l))
           <$> (removeDuplicatesFrom seen results h).2)
  /\ (forall l, l ∈ (removeDuplicatesFrom seen results h).2 ->
        (dedupKey ((removeDuplicatesFrom seen results h).1 l) ∉ seen)
        /\ l ∈ results).
Proof.
  induction results as [|r results IH]; intros seen h Hnd.
  - cbn. split; [constructor|]. intros l Hl. now apply elem_of_nil in Hl.
  - apply list.NoDup_cons in Hnd as [Hr Hnd].
    cbn [removeDuplicatesFrom]. cbv zeta.
    rewrite sortPlatformsInPlace_key.
    set (h1 := sortPlatformsInPlace r h).
    set (key := dedupKey (h1 r)).
    destruct (bool_decide (key ∈ seen)) eqn:Hseen.
    + destruct (IH seen h1 Hnd) as [Hkeys Hin].
      split; [exact Hkeys|].
      intros l Hl. destruct (Hin l Hl). split; [assumption | now right].
    + apply bool_decide_eq_false in Hseen.
      pose proof (removeDuplicatesFrom_other results ({[key]} ∪ seen) h1 r Hr)
        as Hsame.
      destruct (IH ({[key]} ∪ seen) h1 Hnd) as [Hkeys Hin].
      destruct (removeDuplicatesFrom ({[key]} ∪ seen) results h1)
        as [h' kept].
      cbn [fst snd] in *. split.
      * rewrite fmap_cons. apply list.NoDup_cons. split; [|exact Hkeys].
        rewrite Hsame. fold key.
        intros Hk. apply list_elem_of_fmap in Hk as (l & Heq & Hl).
        destruct (Hin l Hl) as [Hnot _]. apply Hnot.
        rewrite <- Heq. apply elem_of_union. left.
        now apply elem_of_singleton.
      * intros l Hl. apply elem_of_cons in Hl as [->|Hl].
        -- rewrite Hsame. fold key. split; [exact Hseen | now left].
        -- destruct (Hin l Hl) as [Hnot ?]. split; [|now right].
           intros Hk. apply Hnot. apply elem_of_union. now right.
Qed.

Lemma removeDuplicatesFrom_elem results : forall seen h l,
  l ∈ (removeDuplicatesFrom seen results h).2 -> l ∈ results.
Proof.
  induction results as [|r results IH]; intros seen h l; cbn; [easy|].
  destruct (bool_decide _).
  - intros Hl. right. now apply IH in Hl.
  - match goal with
    | |- context [removeDuplicatesFrom ?s results ?h1] =>
        specialize (IH s h1 l);
        destruct (removeDuplicatesFrom s results h1) as [h' kept]
    end.
    cbn in *. intros [->|Hl]%elem_of_cons; [now left | right; auto].
Qed.

Lemma rankAndDeduplicateResults_elem results h l :
  l ∈ (rankAndDeduplicateResults results h).2 -> l ∈ results.
Proof.
  rewrite rankAndDeduplicateResults_list. unfold slice0, removeDuplicates.
  intros Hl. apply subseteq_take in Hl.
  rewrite Array_sort_perm in Hl.
  now apply removeDuplicatesFrom_elem in Hl.
Qed.

(** The array that [rankAndDeduplicateResults] returns for distinct
    references has no two entries with the same key. *)
Lemma rankAndDeduplicateResults_keys results h :
  NoDup results ->
  NoDup ((fun l => dedupKey ((rankAndDeduplicateResults results h).1 l))
           <$> (rankAndDeduplicateResults results h).2).
Proof.
  intros Hnd.
  rewrite rankAndDeduplicateResults_heap, rankAndDeduplicateResults_list.
  unfold slice0, removeDuplicates.
  destruct (removeDuplicatesFrom_keys results ∅ h Hnd) as [Hkeys _].
  rewrite fmap_take.
  eapply sublist_NoDup; [|apply sublist_take].
  now rewrite Array_sort_perm.
Qed.

(** *** What ranking leaves of an object *)

Lemma removeDuplicatesFrom_platforms results : forall seen h l,
  orNil (platforms ((removeDuplicatesFrom seen results h).1 l))
  ≡ₚ orNil (platforms (h l)).
Proof.
  assert (Hstep : forall r h l,
            orNil (platforms (sortPlatformsInPlace r h l))
            ≡ₚ orNil (platforms (h l))).
  { intros r h l. destruct (Nat.eq_dec l r) as [->|Hne].
    - destruct (sortPlatformsInPlace_at r h) as (_ & _ & ->).
      apply Array_sort_perm.
    - now rewrite sortPlatformsInPlace_other. }
  induction results as [|r results IH]; intros seen h l; cbn; [reflexivity|].
  destruct (bool_decide _).
  - now rewrite IH.
  - match goal with
    | |- context [removeDuplicatesFrom ?s results ?h1] =>
        specialize (IH s h1 l);
        destruct (removeDuplicatesFrom s results h1) as [h' kept]
    end.
    cbn in *. now rewrite IH.
Qed.

Lemma commonPlatforms_perm (ps ps' qs qs' : list string) :
  ps ≡ₚ ps' -> qs ≡ₚ qs' ->
  (0 <? length (filter (fun p => existsb (String.eqb p) qs = true) ps))%nat
  = (0 <? length (filter (fun p => existsb (String.eqb p) qs' = true) ps'))%nat.
Proof.
  intros Hp Hq.
  assert (forall p, existsb (String.eqb p) qs = existsb (String.eqb p) qs')
    as Hex.
  { intros p. apply eq_true_iff_eq. rewrite !existsb_exists.
    split; intros (x & Hx & Hpx); exists x; split; auto;
      [now rewrite <- Hq | now rewrite Hq]. }
  rewrite (list_filter_iff _ (fun p => existsb (String.eqb p) qs' = true))
    by (intros p; now rewrite Hex).
  now rewrite Hp.
Qed.

(** Similarity reads the platforms as a set. *)
Lemma areResultsSimilar_perm a a' b b' :
  title a = title a' -> releaseDate a = releaseDate a' ->
  orNil (platforms a) ≡ₚ orNil (platforms a') ->
  title b = title b' -> releaseDate b = releaseDate b' ->
  orNil (platforms b) ≡ₚ orNil (platforms b') ->
  areResultsSimilar a b = areResultsSimilar a' b'.
Proof.
  intros Ht Hr Hp Ht' Hr' Hp'. unfold areResultsSimilar.
  rewrite Ht, Hr, Ht', Hr'.
  rewrite (commonPlatforms_perm
             (map toLowerCase (orNil (platforms a)))
             (map toLowerCase (orNil (platforms a')))
             (map toLowerCase (orNil (platforms b)))
             (map toLowerCase (orNil (platforms b'))))
    by (now apply Permutation_map).
  reflexivity.
Qed.

Lemma rankAndDeduplicateResults_similar results h a b :
  areResultsSimilar ((rankAndDeduplicateResults results h).1 a)
    ((rankAndDeduplicateResults results h).1 b)
  = areResultsSimilar (h a) (h b).
Proof.
  rewrite rankAndDeduplicateResults_heap. unfold removeDuplicates.
  pose proof (removeDuplicatesFrom_outside results ∅ h a) as Ha.
  pose proof (removeDuplicatesFrom_outside results ∅ h b) as Hb.
  apply areResultsSimilar_perm.
  - apply (f_equal title) in Ha. exact Ha.
  - apply (f_equal releaseDate) in Ha. exact Ha.
  - apply removeDuplicatesFrom_platforms.
  - apply (f_equal title) in Hb. exact Hb.
  - apply (f_equal releaseDate) in Hb. exact Hb.
  - apply removeDuplicatesFrom_platforms.
Qed.

Lemma rankAndDeduplicateResults_source results h l :
  sourceOf ((rankAndDeduplicateResults results h).1 l) = sourceOf (h l).
Proof.
  rewrite rankAndDeduplicateResults_heap. unfold removeDuplicates, sourceOf.
  pose proof (removeDuplicatesFrom_outside results ∅ h l) as Hl.
  apply (f_equal searchMetadata) in Hl. cbn in Hl. now rewrite Hl.
Qed.

(** *** What merging leaves of an object *)

Lemma enhance_source p s h l x :
  sourceOf (h l) = Some x ->
  sourceOf (enhanceResultWithWikipediaData p s h l) = Some x.
Proof.
  intros Hx. destruct (Nat.eq_dec l p) as [->|Hne].
  - rewrite enhance_at. unfold sourceOf in *. cbn.
    destruct (searchMetadata (h p)); [exact Hx | discriminate Hx].
  - now rewrite enhance_other.
Qed.

Lemma mergeSearchResults_source wds wps h l x :
  sourceOf (h l) = Some x ->
  sourceOf ((mergeSearchResults wds wps h).1 l) = Some x.
Proof.
  rewrite mergeSearchResults_eq. cbn [fst].
  generalize h at 1 3. intros hk.
  revert hk. induction wps as [|s wps IH]; intros hk Hx; cbn [fold_left];
    [exact Hx|].
  apply IH. destruct (matchingResult h wds s); [|exact Hx].
  now apply enhance_source.
Qed.

Lemma mergeSearchResults_similar wds wps h a b :
  areResultsSimilar ((mergeSearchResults wds wps h).1 a)
    ((mergeSearchResults wds wps h).1 b)
  = areResultsSimilar (h a) (h b).
Proof.
  rewrite mergeSearchResults_eq. cbn [fst].
  destruct (enhanceTurns_identity h wds wps h a) as (? & ? & ?); [auto|].
  destruct (enhanceTurns_identity h wds wps h b) as (? & ? & ?); [auto|].
  now apply areResultsSimilar_ext.
Qed.

Lemma isDuplicate_false h wds s a :
  isDuplicate h wds s = false -> a ∈ wds ->
  areResultsSimilar (h a) (h s) = false.
Proof.
  unfold isDuplicate. intros Hdup Ha.
  destruct (areResultsSimilar (h a) (h s)) eqn:Hsim; [|reflexivity].
  assert (existsb (fun wd => areResultsSimilar (h wd) (h s)) wds = true)
    as Hex; [|congruence].
  apply existsb_exists. exists a. split; [now apply list_elem_of_In | exact Hsim].
Qed.

(** *** The invariant *)

Lemma distinctResults_nil h : distinctResults h [].
Proof.
  split; [constructor|]. intros a b Ha. now apply elem_of_nil in Ha.
Qed.

(** [distinctResults] reads the objects of the array only. *)
Lemma distinctResults_same h h' rs :
  (forall l, l ∈ rs -> h' l = h l) ->
  distinctResults h rs -> distinctResults h' rs.
Proof.
  intros Hsame [Hkeys Hcross]. split.
  - erewrite list_fmap_ext; [exact Hkeys|].
    intros i l Hl. cbn. rewrite Hsame; [reflexivity|].
    now apply list_elem_of_lookup_2 in Hl.
  - intros a b Ha Hb. rewrite !Hsame by assumption. now apply Hcross.
Qed.

(** Caching a sound array keeps the cache sound. *)
Lemma cacheResult_sound q rs (W : World) (h0 : Heap) (n0 : loc) :
  (forall k e, searchCache W !! k = Some e ->
     Forall (fun l => (l < n0)%nat) (results e)
     /\ distinctResults h0 (results e)) ->
  (forall l, (l < n0)%nat -> heap W l = h0 l) ->
  (n0 <= nextLoc W)%nat ->
  Forall (fun l => (l < nextLoc W)%nat) rs ->
  distinctResults (heap W) rs ->
  cacheSound (cacheResult q rs W).2
  /\ Forall (fun l => (l < nextLoc (cacheResult q rs W).2)%nat) rs
  /\ distinctResults (heap (cacheResult q rs W).2) rs.
Proof.
  intros Hold Hframe Hle Hlt Hdist.
  destruct (cacheResult_frame q rs W) as (Hh & Hn & _ & _).
  unfold cacheSound. rewrite Hh, Hn. split; [|auto].
  intros k e [-> | He]%cacheResult_entries; [auto|].
  destruct (Hold k e He) as [Hlt0 Hdist0]. split.
  - eapply Forall_impl; [|exact Hlt0]. cbn. intros; lia.
  - apply (distinctResults_same h0); [|exact Hdist0].
    intros l Hl. apply Hframe.
    now apply (proj1 (list.Forall_forall _ _) Hlt0).
Qed.

(** The ranking of new Wikidata results is sound. *)
Lemma ranked_wikidata_sound (h : Heap) (n : loc) (wds : list loc) :
  wds = seq n (length wds) ->
  (forall l, l ∈ wds -> sourceOf (h l) = Some (JStr "wikidata")) ->
  let ranked := rankAndDeduplicateResults wds h in
  Forall (fun l => (l < n + length wds)%nat) ranked.2
  /\ distinctResults ranked.1 ranked.2
  /\ (forall l, (l < n)%nat -> ranked.1 l = h l).
Proof.
  intros Hseq Hsrc ranked.
  assert (forall l, l ∈ ranked.2 -> l ∈ wds) as Hsub
    by (intros l; apply rankAndDeduplicateResults_elem).
  assert (forall l, l ∈ wds -> (n <= l < n + length wds)%nat) as Hrange.
  { intros l Hl. rewrite Hseq in Hl. now apply elem_of_seq in Hl. }
  split; [|split].
  - apply list.Forall_forall. intros l Hl. apply Hsub, Hrange in Hl. lia.
  - split.
    + apply rankAndDeduplicateResults_keys. rewrite Hseq. apply NoDup_seq.
    + intros a b _ Hb _ Hwp. apply Hsub, Hsrc in Hb.
      subst ranked. rewrite rankAndDeduplicateResults_source in Hwp.
      congruence.
  - intros l Hl. subst ranked.
    rewrite rankAndDeduplicateResults_heap.
    apply removeDuplicatesFrom_other. intros Hin. apply Hrange in Hin. lia.
Qed.

(** The ranking of the merge of new Wikidata and Wikipedia results is
    sound. *)
Lemma ranked_merged_sound (h : Heap) (n : loc) (wds wps : list loc) :
  wds = seq n (length wds) ->
  wps = seq (n + length wds) (length wps) ->
  (forall l, l ∈ wds -> sourceOf (h l) = Some (JStr "wikidata")) ->
  (forall l, l ∈ wps -> sourceOf (h l) = Some (JStr "wikipedia")) ->
  let merged := mergeSearchResults wds wps h in
  let ranked := rankAndDeduplicateResults merged.2 merged.1 in
  Forall (fun l => (l < n + length wds + length wps)%nat) ranked.2
  /\ distinctResults ranked.1 ranked.2
  /\ (forall l, (l < n)%nat -> ranked.1 l = h l).
Proof.
  intros Hseq Hseq' Hsrc Hsrc' merged ranked.
  assert (forall l, l ∈ wds -> (n <= l < n + length wds)%nat) as Hrange.
  { intros l Hl. rewrite Hseq in Hl. now apply elem_of_seq in Hl. }
  assert (forall l, l ∈ wps ->
            (n + length wds <= l < n + length wds + length wps)%nat)
    as Hrange'.
  { intros l Hl. rewrite Hseq' in Hl. now apply elem_of_seq in Hl. }
  assert (merged.2 =
          (wds ++ filter (fun s => isDuplicate h wds s = false) wps)%list)
    as Hlist by (subst merged; now rewrite mergeSearchResults_eq).
  assert (forall l, l ∈ merged.2 ->
            l ∈ wds \/ (l ∈ wps /\ isDuplicate h wds l = false)) as Hmerged.
  { intros l. rewrite Hlist, elem_of_app, list_elem_of_filter. tauto. }
  assert (forall l, l ∈ ranked.2 -> l ∈ merged.2) as Hsub
    by (intros l; apply rankAndDeduplicateResults_elem).
  assert (forall l, l ∉ wds -> merged.1 l = h l) as Hother.
  { intros l Hl. subst merged. rewrite mergeSearchResults_eq.
    now apply enhanceTurns_other. }
  split; [|split].
  - apply list.Forall_forall. intros l Hl.
    destruct (Hmerged l (Hsub l Hl)) as [Hin | [Hin _]];
      [apply Hrange in Hin | apply Hrange' in Hin]; lia.
  - split.
    + apply rankAndDeduplicateResults_keys. rewrite Hlist.
      apply list.NoDup_app. split; [rewrite Hseq; apply NoDup_seq|]. split.
      * intros l Hl Hl'. apply list_elem_of_filter in Hl' as [_ Hl'].
        apply Hrange in Hl. apply Hrange' in Hl'. lia.
      * apply list.NoDup_filter. rewrite Hseq'. apply NoDup_seq.
    + intros a b Ha Hb Hwd Hwp. subst ranked.
      rewrite rankAndDeduplicateResults_source in Hwd, Hwp.
      rewrite rankAndDeduplicateResults_similar.
      subst merged. rewrite mergeSearchResults_similar.
      destruct (Hmerged a (Hsub a Ha)) as [Hawd | [Hawp _]].
      2:{ rewrite Hother in Hwd.
          - rewrite (Hsrc' a Hawp) in Hwd. discriminate Hwd.
          - intros Hin. apply Hrange in Hin. apply Hrange' in Hawp. lia. }
      destruct (Hmerged b (Hsub b Hb)) as [Hbwd | [_ Hdup]].
      { rewrite (mergeSearchResults_source wds wps h b _ (Hsrc b Hbwd)) in Hwp.
        discriminate Hwp. }
      now apply isDuplicate_false with (wds := wds).
  - intros l Hl. subst ranked.
    rewrite rankAndDeduplicateResults_heap. unfold removeDuplicates.
    rewrite removeDuplicatesFrom_other.
    + apply Hother. intros Hin. apply Hrange in Hin. lia.
    + intros Hin. destruct (Hmerged l Hin) as [Hin' | [Hin' _]];
        [apply Hrange in Hin' | apply Hrange' in Hin']; lia.
Qed.

(** A search keeps the cache sound and returns a sound array. *)
Lemma searchGame_sound svc q w :
  cacheSound w ->
  cacheSound (searchGame svc q w).2
  /\ forall rs, (searchGame svc q w).1 = Returned rs ->
       Forall (fun l => (l < nextLoc (searchGame svc q w).2)%nat) rs
       /\ distinctResults (heap (searchGame svc q w).2) rs.
Proof.
  intros Hinv.
  destruct (Nat.lt_ge_cases (String.length (trim q)) 2) as [Hshort|Hlen].
  { rewrite searchGame_short by exact Hshort. split; [exact Hinv|].
    intros rs [= <-]. split; [constructor | apply distinctResults_nil]. }
  destruct (getCachedResult_cases (trim q) w)
    as [(w0 & Hmiss & Hh0 & Hn0 & _ & _ & Hcache0) | (e & He & Hlive & _)].
  2:{ rewrite (searchGame_hit svc q w e Hlen He Hlive).
      split; [exact Hinv|]. intros rs [= <-]. exact (Hinv _ e He). }
  destruct (executeWikidataSearch_spec svc (trim q) w0)
    as (wds & w1 & Hwd & Hseq1 & Hn1 & Hc1 & _ & _ & _ & Hold1 & Hsrc1).
  destruct (searchGame_miss svc q w w0 Hlen Hmiss)
    as (wds' & w1' & Hwd' & Hcases).
  rewrite Hwd in Hwd'.
  assert (wds' = wds /\ w1' = w1) as [-> ->] by (split; congruence).
  clear Hwd'.
  assert (forall k e, searchCache w1 !! k = Some e ->
            Forall (fun l => (l < nextLoc w0)%nat) (results e)
            /\ distinctResults (heap w0) (results e)) as Hcached.
  { intros k e He. rewrite Hc1 in He. apply Hcache0 in He.
    rewrite Hh0, Hn0. exact (Hinv k e He). }
  destruct Hcases as [[_ Heq] | (_ & wps & w2 & Hwp & Heq)].
  - rewrite Heq. cbn [fst snd].
    destruct (ranked_wikidata_sound (heap w1) (nextLoc w0) wds Hseq1 Hsrc1)
      as (Hlt & Hdist & Hframe).
    destruct (cacheResult_sound (trim q)
                (rankAndDeduplicateResults wds (heap w1)).2
                (set_heap (rankAndDeduplicateResults wds (heap w1)).1 w1)
                (heap w0) (nextLoc w0)) as (Hsound & Hres).
    + exact Hcached.
    + intros l Hl. cbn. rewrite Hframe by exact Hl. now apply Hold1.
    + cbn. lia.
    + cbn. now rewrite Hn1.
    + exact Hdist.
    + split; [exact Hsound|]. intros rs [= <-]. exact Hres.
  - cbv zeta in Heq. rewrite Heq. cbn [fst snd].
    destruct (executeFallbackSearch_spec svc (trim q) w1)
      as (wps' & w2' & Hwp' & Hseq2 & Hn2 & Hc2 & _ & _ & Hold2 & Hsrc2).
    rewrite Hwp in Hwp'.
    assert (wps' = wps /\ w2' = w2) as [-> ->] by (split; congruence).
    clear Hwp'. rewrite Hn1 in Hseq2.
    assert (forall l, l ∈ wds -> sourceOf (heap w2 l) = Some (JStr "wikidata"))
      as Hsrc1'.
    { intros l Hl. rewrite Hold2; [now apply Hsrc1|].
      rewrite Hseq1 in Hl. apply elem_of_seq in Hl. lia. }
    destruct (ranked_merged_sound (heap w2) (nextLoc w0) wds wps
                Hseq1 Hseq2 Hsrc1' Hsrc2) as (Hlt & Hdist & Hframe).
    cbv zeta in Hlt, Hdist, Hframe.
    destruct (cacheResult_sound (trim q)
                (rankAndDeduplicateResults
                   (mergeSearchResults wds wps (heap w2)).2
                   (mergeSearchResults wds wps (heap w2)).1).2
                (set_heap
                   (rankAndDeduplicateResults
                      (mergeSearchResults wds wps (heap w2)).2
                      (mergeSearchResults wds wps (heap w2)).1).1 w2)
                (heap w0) (nextLoc w0)) as (Hsound & Hres).
    + intros k e He. cbn in He. rewrite Hc2 in He. exact (Hcached k e He).
    + intros l Hl. cbn. rewrite Hframe by exact Hl.
      rewrite Hold2 by lia. now apply Hold1.
    + cbn. lia.
    + cbn. now rewrite Hn2, Hn1.
    + exact Hdist.
    + split; [exact Hsound|]. intros rs [= <-]. exact Hres.
Qed.

Lemma Reachable_sound w : Reachable w -> cacheSound w.
Proof.
  induction 1 as [h n t | svc q w _ IH | elapsed w _ _ IH].
  - intros k e He. cbn in He. now rewrite lookup_empty in He.
  - now apply searchGame_sound.
  - exact IH.
Qed.

(** C4 (as amended).  Every array that [searchGame] returns, in any world
    that a search manager reaches, has no two entries with the same
    deduplication key (lower-cased title, release date and sorted platforms,
    joined), and no entry from Wikipedia in it is similar to an entry from
    Wikidata in it. *)
Theorem searchGame_results_distinct (w : World) :
  Reachable w ->
  forall svc q rs,
    (searchGame svc q w).1 = Returned rs ->
    NoDup ((fun l => dedupKey (heap (searchGame svc q w).2 l)) <$> rs)
    /\ (forall a b, a ∈ rs -> b ∈ rs ->
          sourceOf (heap (searchGame svc q w).2 a) = Some (JStr "wikidata") ->
          sourceOf (heap (searchGame svc q w).2 b) = Some (JStr "wikipedia") ->
          areResultsSimilar (heap (searchGame svc q w).2 a)
            (heap (searchGame svc q w).2 b) = false).
Proof.
  intros Hreach svc q rs Hrs.
  destruct (searchGame_sound svc q w (Reachable_sound w Hreach)) as [_ Hres].
  destruct (Hres rs Hrs) as [_ Hdist]. exact Hdist.
Qed.

(** The theorem at the first search of a new search manager. *)
Lemma searchGame_results_distinct_witness :
  let run := searchGame Examples.doomServices " Doom " Examples.initialWorld in
  NoDup ((fun l => dedupKey (heap run.2 l)) <$> [0; 1]%nat).
Proof.
  cbv zeta.
  apply (searchGame_results_distinct Examples.initialWorld
           (reach_new Examples.emptyHeap 0 1000) Examples.doomServices
           " Doom " [0; 1]%nat).
  vm_compute. reflexivity.
Defined.

End InvariantFacts.

(** ** The Wikipedia service *)

Module WikipediaFacts.
Import SearchManager SearchFacts.

Lemma executeFallbackSearch_of_service parse api elapsed svc q w :
  SearchManager.extractGameMetadata svc
  = WikipediaService.service parse api elapsed ->
  (executeFallbackSearch svc q w).1 =
  match WikipediaService.extractGameMetadata parse api q with
  | Some _ => Returned [nextLoc w]
  | None => Returned []
  end.
Proof.
  intros Hsvc. unfold executeFallbackSearch.
  rewrite tryCatch_unfold, bind_unfold. unfold awaitWikipedia.
  rewrite Hsvc. unfold WikipediaService.service.
  destruct (WikipediaService.extractGameMetadata parse api q); reflexivity.
Qed.

(** C5 (as amended).  When no matching article is found, the Wikipedia
    service yields no candidate; when an article is found and fetched and
    nothing is parsed from its infobox, it yields one candidate, made from
    the page alone: the title of the page, its extract as description, no
    platforms, genres or modes, and the attribution to the article. *)
Theorem wikipedia_fetch_outcomes
    (parse : string -> WikipediaService.InfoboxData)
    (api : WikipediaService.Api) (elapsed : nat) (svc : Services)
    (q : string) (w : World) :
  SearchManager.extractGameMetadata svc
  = WikipediaService.service parse api elapsed ->
  (WikipediaService.findGamePage api q = None ->
   WikipediaService.extractGameMetadata parse api q = None
   /\ (executeFallbackSearch svc q w).1 = Returned [])
  /\ (forall gamePage pageContent wikitext,
        WikipediaService.findGamePage api q = Some gamePage ->
        WikipediaService.getPageContent api
          (WikipediaService.hit_title gamePage) = Returned pageContent ->
        WikipediaService.getPageWikitext api
          (WikipediaService.hit_title gamePage) = Returned wikitext ->
        WikipediaService.parseInfoBox parse wikitext
        = WikipediaService.emptyInfobox ->
        WikipediaService.extractGameMetadata parse api q =
        Some (mkCandidate JUndefined JUndefined
                (WikipediaService.page_title pageContent)
                (JStr "") (JStr "") (JStr "") (Some []) (Some []) None
                (orElse (WikipediaService.page_image pageContent) (JStr ""))
                (orElse (WikipediaService.page_extract pageContent) (JStr ""))
                (JStr "") (JStr "") (Some [])
                (Some (mkDataSource (JStr "wikipedia") JUndefined
                         (WikipediaService.page_url pageContent)
                         JUndefined JUndefined))
                (Some (WikipediaService.generateAttribution
                         (WikipediaService.page_url pageContent)
                         (WikipediaService.page_title pageContent)))
                None)
        /\ (executeFallbackSearch svc q w).1 = Returned [nextLoc w]).
Proof.
  intros Hsvc. split.
  - intros Hnone.
    assert (WikipediaService.extractGameMetadata parse api q = None) as Hq.
    { unfold WikipediaService.extractGameMetadata. now rewrite Hnone. }
    split; [exact Hq|].
    rewrite (executeFallbackSearch_of_service parse api elapsed svc q w Hsvc).
    now rewrite Hq.
  - intros gamePage pageContent wikitext Hpage Hcontent Htext Hbox.
    assert (WikipediaService.extractGameMetadata parse api q =
            Some (WikipediaService.mapToGameDataModel
                    WikipediaService.emptyInfobox
                    (WikipediaService.mkPageData
                       (WikipediaService.page_title pageContent)
                       (WikipediaService.page_extract pageContent)
                       (WikipediaService.page_image pageContent)
                       (WikipediaService.page_url pageContent)))) as Hq.
    { unfold WikipediaService.extractGameMetadata.
      now rewrite Hpage, Hcontent, Htext, Hbox. }
    split; [exact Hq|].
    rewrite (executeFallbackSearch_of_service parse api elapsed svc q w Hsvc).
    now rewrite Hq.
Qed.

(** The theorem at a search that finds no article. *)
Lemma wikipedia_fetch_outcomes_witness :
  WikipediaService.extractGameMetadata Examples.noFields Examples.noArticleApi
    "Celeste" = None.
Proof.
  apply (proj1 (wikipedia_fetch_outcomes Examples.noFields
                  Examples.noArticleApi 300
                  (mkServices (fun _ => (120%nat, Returned []))
                     (WikipediaService.service Examples.noFields
                        Examples.noArticleApi 300)
                     (fun _ => "k3j9x0q2a"))
                  "Celeste" Examples.initialWorld eq_refl)).
  vm_compute. reflexivity.
Defined.

(** C5 as stated fails: the article "Celeste (video game)" is found, its
    text has no infobox, nothing is parsed, and the Wikipedia service
    yields one candidate, which the search returns. *)
Lemma wikipedia_no_infobox_counterexample :
  WikipediaService.parseInfoBox Examples.noFields
    "Celeste is a 2018 platform game. == Gameplay =="
  = WikipediaService.emptyInfobox
  /\ (title <$> WikipediaService.extractGameMetadata Examples.noFields
                  Examples.celesteApi "Celeste")
     = Some (JStr "Celeste (video game)")
  /\ (executeFallbackSearch Examples.celesteServices "Celeste"
        Examples.initialWorld).1 = Returned [0%nat]
  /\ (searchGame Examples.celesteServices "Celeste" Examples.initialWorld).1
     = Returned [0%nat].
Proof. repeat split; vm_compute; reflexivity. Qed.

(** An article with a single infobox: [match] with the [g] flag returns the
    one complete match, [match[1]] is undefined, and nothing is parsed. *)
Lemma parseInfoBox_single_infobox parse :
  WikipediaService.parseInfoBox parse
    "{{Infobox video game | title = Celeste | developer = Maddy Makes Games }} Celeste is a game."
  = WikipediaService.emptyInfobox.
Proof. vm_compute. reflexivity. Qed.

End WikipediaFacts.

(** ** The Wikidata service *)

Module WikidataFacts.
Import SearchManager SearchFacts.

Section Titles.
Variable toISODate : string -> option string.

Lemma mapUpdate_titles key f gameMap :
  (forall game, WikidataService.g_title (f game) = WikidataService.g_title game) ->
  map WikidataService.g_title (WikidataService.mapUpdate key f gameMap)
  = map WikidataService.g_title gameMap.
Proof.
  intros Hf. induction gameMap as [|game rest IH]; cbn; [reflexivity|].
  destruct (_ =? _)%string; cbn; [now rewrite Hf | now rewrite IH].
Qed.

Lemma groupBinding_titles gameMap binding :
  Forall (fun t => truthy t = true) (map WikidataService.g_title gameMap) ->
  Forall (fun t => truthy t = true)
    (map WikidataService.g_title
       (WikidataService.groupBinding toISODate gameMap binding)).
Proof.
  intros Hall. unfold WikidataService.groupBinding.
  destruct (negb _ || negb _); [exact Hall|].
  rewrite mapUpdate_titles by reflexivity.
  destruct (WikidataService.mapGet _ _); [exact Hall|].
  rewrite map_app. apply Forall_app. split; [exact Hall|].
  repeat constructor. cbn. unfold orElse.
  destruct (truthy (WikidataService.extractValue _)) eqn:Ht; [exact Ht|].
  reflexivity.
Qed.

(** Every result of the Wikidata service has a title that is not empty. *)
Lemma extractEnhancedMetadata_titles response :
  Forall (fun game => truthy (title game) = true)
    (WikidataService.extractEnhancedMetadata toISODate response).
Proof.
  unfold WikidataService.extractEnhancedMetadata. cbv zeta.
  rewrite Forall_map. cbn [title].
  unfold WikidataService.parseWikidataResponse.
  destruct response as [bindings|]; [|constructor].
  rewrite Forall_map. cbn [title WikidataService.toCandidate].
  assert (forall gameMap,
            Forall (fun t => truthy t = true)
              (map WikidataService.g_title gameMap) ->
            Forall (fun t => truthy t = true)
              (map WikidataService.g_title
                 (fold_left (WikidataService.groupBinding toISODate)
                    bindings gameMap))) as Hfold.
  { induction bindings as [|b bs IH]; intros gameMap Hall; cbn; [exact Hall|].
    apply IH. now apply groupBinding_titles. }
  specialize (Hfold [] (Forall_nil _)).
  now rewrite Forall_map in Hfold.
Qed.
End Titles.

(** C6, on the code.  The title of a result of the Wikidata service is never
    empty; but a row without a label is not discarded: its game is passed
    on under the placeholder title, [isValidGameData] rejects it and is not
    consulted, and [executeWikidataSearch] scores it. *)
Theorem wikidata_placeholder_title_is_scored :
  (forall toISODate response,
      Forall (fun game => truthy (title game) = true)
        (WikidataService.extractEnhancedMetadata toISODate response))
  /\ map title
       (WikidataService.extractEnhancedMetadata Examples.isoPrefix
          Examples.unlabelledResponse)
     = [JStr "Unknown Title"]
  /\ map WikidataService.isValidGameData
       (WikidataService.extractEnhancedMetadata Examples.isoPrefix
          Examples.unlabelledResponse)
     = [false]
  /\ (let run := executeWikidataSearch Examples.unlabelledServices "zelda"
                   Examples.initialWorld in
      run.1 = Returned [0%nat]
      /\ title (heap run.2 0%nat) = JStr "Unknown Title"
      /\ (confidence <$> searchMetadata (heap run.2 0%nat))
         = Some (Some (calculateWikidataConfidence (heap run.2 0%nat) "zelda")))
  /\ (let run := searchGame Examples.unlabelledServices "zelda"
                   Examples.initialWorld in
      run.1 = Returned [0%nat]
      /\ title (heap run.2 0%nat) = JStr "Unknown Title").
Proof.
  split; [apply extractEnhancedMetadata_titles|].
  repeat split; vm_compute; reflexivity.
Qed.

End WikidataFacts.

(** ** Scores *)

Module ScoringFacts.
Import SearchManager.

(** The number of filled fields, of eight. *)
Lemma calculateDataCompleteness_eq result :
  exists filled : nat,
    (filled <= 8)%nat
    /\ calculateDataCompleteness result
       = (inject_Z (Z.of_nat filled) / inject_Z 8)%Q.
Proof.
  unfold calculateDataCompleteness. cbv zeta.
  eexists. split; [|reflexivity].
  etransitivity; [apply length_filter|]. reflexivity.
Qed.

Lemma completeness_range result :
  (0 <= calculateDataCompleteness result <= 1)%Q.
Proof.
  destruct (calculateDataCompleteness_eq result) as (filled & Hle & ->).
  unfold Qle, Qdiv, Qmult, Qinv, inject_Z. cbn. lia.
Qed.

Lemma wikidataConfidence_range result query :
  (0 <= calculateWikidataConfidence result query <= 1)%Q.
Proof.
  pose proof (completeness_range result) as [Hlo Hhi].
  unfold calculateWikidataConfidence. cbv zeta.
  generalize dependent (calculateDataCompleteness result). intros C Hlo Hhi.
  split; [apply Q.min_glb; [|lra] | apply Q.le_min_r].
  repeat match goal with
         | |- context [if ?b then _ else _] => destruct b
         end; lra.
Qed.

Lemma wikipediaConfidence_range result query :
  (0 <= calculateWikipediaConfidence result query <= 1)%Q.
Proof.
  pose proof (completeness_range result) as [Hlo Hhi].
  unfold calculateWikipediaConfidence. cbv zeta.
  generalize dependent (calculateDataCompleteness result). intros C Hlo Hhi.
  split; [apply Q.min_glb; [|lra] | apply Q.le_min_r].
  repeat match goal with
         | |- context [if ?b then _ else _] => destruct b
         end; lra.
Qed.

(** X1.  The completeness that the search manager computes is a multiple of an
    eighth between 0 and 1, for every object. *)
Theorem calculateDataCompleteness_bounds result :
  (0 <= calculateDataCompleteness result <= 1)%Q
  /\ exists filled : nat,
       (filled <= 8)%nat
       /\ calculateDataCompleteness result
          = (inject_Z (Z.of_nat filled) / inject_Z 8)%Q.
Proof.
  split; [apply completeness_range | apply calculateDataCompleteness_eq].
Qed.

(** X2.  Both confidence scores are between 0 and 1, for every object and
    every query. *)
Theorem confidence_bounds result query :
  (0 <= calculateWikidataConfidence result query <= 1)%Q
  /\ (0 <= calculateWikipediaConfidence result query <= 1)%Q.
Proof.
  split; [apply wikidataConfidence_range | apply wikipediaConfidence_range].
Qed.

Lemma prefix_refl s : String.prefix s s = true.
Proof.
  induction s as [|c s IH]; cbn; [reflexivity|].
  now destruct (ascii_dec c c).
Qed.

Lemma includes_refl s : includes s s = true.
Proof.
  destruct s; cbn; [reflexivity|].
  now rewrite ?prefix_refl; destruct (ascii_dec _ _).
Qed.

(** X3.  A result whose title neither contains the query nor is contained in
    it (letter case apart) has a confidence below the 0.7 that the quality
    gate asks for, as a Wikidata result and as a Wikipedia result, however
    complete it is. *)
Theorem unrelated_title_confidence result query :
  includes (toLowerCase (orEmpty (title result))) (toLowerCase query) = false ->
  includes (toLowerCase query) (toLowerCase (orEmpty (title result))) = false ->
  (calculateWikidataConfidence result query < 7 # 10)%Q
  /\ (calculateWikipediaConfidence result query < 7 # 10)%Q.
Proof.
  intros Hin Hin'.
  pose proof (completeness_range result) as [Hlo Hhi].
  unfold calculateWikidataConfidence, calculateWikipediaConfidence. cbv zeta.
  rewrite Hin, Hin'. cbn [orb].
  destruct (String.eqb_spec (toLowerCase (orEmpty (title result)))
              (toLowerCase query)) as [Heq|_].
  { rewrite Heq, includes_refl in Hin. discriminate Hin. }
  generalize dependent (calculateDataCompleteness result). intros C Hlo Hhi.
  split; (eapply Qle_lt_trans; [apply Q.le_min_l|]);
    repeat match goal with
           | |- context [if ?b then _ else _] => destruct b
           end; lra.
Qed.

(** The theorem at the Wikidata result "Doom II" and the query "quake". *)
Lemma unrelated_title_confidence_witness :
  (calculateWikidataConfidence
     (Examples.wikidataGame "Q513867" "Doom II" (JStr "1994-10-10") ["PC"])
     "quake" < 7 # 10)%Q.
Proof.
  apply (unrelated_title_confidence
           (Examples.wikidataGame "Q513867" "Doom II" (JStr "1994-10-10") ["PC"])
           "quake"); vm_compute; reflexivity.
Defined.

End ScoringFacts.

(** ** Similarity *)

Module SimilarityFacts.
Import SearchManager.

Lemma nonempty_filter_iff {A} (P : A -> Prop) `{forall x, Decision (P x)}
    (l : list A) :
  (0 <? length (filter P l))%nat = true <-> exists x, x ∈ l /\ P x.
Proof.
  rewrite Nat.ltb_lt. split.
  - intros Hlen. destruct (filter P l) as [|x xs] eqn:Hf; [cbn in Hlen; lia|].
    exists x. apply and_comm, (list_elem_of_filter P). rewrite Hf. now left.
  - intros (x & Hx & HP).
    assert (x ∈ filter P l) as Hin by now apply list_elem_of_filter.
    destruct (filter P l); [now apply elem_of_nil in Hin | cbn; lia].
Qed.

Lemma existsb_eqb_iff (p : string) (qs : list string) :
  existsb (String.eqb p) qs = true <-> p ∈ qs.
Proof.
  rewrite existsb_exists. split.
  - intros (x & Hx & Heq). apply String.eqb_eq in Heq. subst x.
    now apply list_elem_of_In.
  - intros Hin. exists p. split; [now apply list_elem_of_In|].
    apply String.eqb_refl.
Qed.

(** Two lists of platforms have a platform in common whichever is read
    first. *)
Lemma commonPlatforms_sym (ps qs : list string) :
  (0 <? length (filter (fun p => existsb (String.eqb p) qs = true) ps))%nat
  = (0 <? length (filter (fun q => existsb (String.eqb q) ps = true) qs))%nat.
Proof.
  apply eq_true_iff_eq. rewrite !nonempty_filter_iff.
  split; intros (x & Hx & Hex); apply existsb_eqb_iff in Hex;
    exists x; (split; [assumption | now apply existsb_eqb_iff]).
Qed.

(** X4.  Similarity does not depend on the order of its arguments. *)
Theorem areResultsSimilar_sym result1 result2 :
  areResultsSimilar result1 result2 = areResultsSimilar result2 result1.
Proof.
  unfold areResultsSimilar. cbv zeta.
  rewrite (String.eqb_sym (trim (toLowerCase (orEmpty (title result2))))).
  destruct (_ =? _)%string; [reflexivity|].
  rewrite (orb_comm (includes (trim (toLowerCase (orEmpty (title result2)))) _)).
  destruct (_ || _); [reflexivity|].
  destruct (extractYear (releaseDate result1)) as [year1|],
           (extractYear (releaseDate result2)) as [year2|]; try reflexivity.
  rewrite (Nat.eqb_sym year2 year1).
  destruct (Nat.eqb_spec year1 year2) as [->|_].
  - destruct (negb (year2 =? 0)%nat); cbn [andb]; [|reflexivity].
    apply commonPlatforms_sym.
  - now rewrite !andb_false_r.
Qed.

End SimilarityFacts.

(** ** Merging, deduplication and ranking *)

Module RankingFacts.
Import SearchManager MergeFacts RankFacts InvariantFacts.

(** X5.  With no Wikidata results the merge is the Wikipedia results as they
    are, and no object is written. *)
Theorem mergeSearchResults_no_primaries
    (wikipediaResults : list loc) (h : Heap) :
  mergeSearchResults [] wikipediaResults h = (h, wikipediaResults).
Proof.
  unfold mergeSearchResults.
  match goal with
  | |- fold_left ?turn _ _ = _ =>
      enough (forall acc,
                fold_left turn wikipediaResults (h, acc)
                = (h, (acc ++ wikipediaResults)%list)) as Hloop
        by exact (Hloop [])
  end.
  induction wikipediaResults as [|s wps IH]; intros acc; cbn [fold_left].
  - now rewrite app_nil_r.
  - cbn [isDuplicate existsb negb]. rewrite IH, <- app_assoc. reflexivity.
Qed.

Lemma removeDuplicatesFrom_sublist results : forall seen h,
  (removeDuplicatesFrom seen results h).2 `sublist_of` results.
Proof.
  induction results as [|r results IH]; intros seen h; cbn; [constructor|].
  destruct (bool_decide _).
  - apply sublist_cons, IH.
  - match goal with
    | |- context [removeDuplicatesFrom ?s results ?h1] =>
        specialize (IH s h1);
        destruct (removeDuplicatesFrom s results h1) as [h' kept]
    end.
    cbn in *. now apply sublist_skip.
Qed.

(** X6.  Deduplication keeps the results it keeps in their order, and it
    always keeps the first one. *)
Theorem removeDuplicates_keeps_order (results : list loc) (h : Heap) :
  (removeDuplicates results h).2 `sublist_of` results
  /\ head (removeDuplicates results h).2 = head results.
Proof.
  split; [apply removeDuplicatesFrom_sublist|].
  unfold removeDuplicates. destruct results as [|r results]; [reflexivity|].
  cbn [removeDuplicatesFrom]. cbv zeta.
  rewrite bool_decide_eq_false_2 by apply not_elem_of_empty.
  now destruct (removeDuplicatesFrom _ results _).
Qed.

Lemma removeDuplicatesFrom_represents results : forall seen h,
  NoDup results ->
  forall l, l ∈ results ->
    dedupKey ((removeDuplicatesFrom seen results h).1 l) ∈ seen
    \/ exists l', l' ∈ (removeDuplicatesFrom seen results h).2
          /\ dedupKey ((removeDuplicatesFrom seen results h).1 l')
             = dedupKey ((removeDuplicatesFrom seen results h).1 l).
Proof.
  induction results as [|r results IH]; intros seen h Hnd l Hl.
  { now apply elem_of_nil in Hl. }
  apply list.NoDup_cons in Hnd as [Hr Hnd].
  cbn [removeDuplicatesFrom]. cbv zeta.
  rewrite sortPlatformsInPlace_key.
  set (h1 := sortPlatformsInPlace r h).
  set (key := dedupKey (h1 r)).
  destruct (bool_decide (key ∈ seen)) eqn:Hseen.
  - apply bool_decide_eq_true in Hseen.
    apply elem_of_cons in Hl as [->|Hl]; [|now apply IH].
    left. now rewrite removeDuplicatesFrom_other by exact Hr.
  - pose proof (removeDuplicatesFrom_other results ({[key]} ∪ seen) h1 r Hr)
      as Hsame.
    pose proof (IH ({[key]} ∪ seen) h1 Hnd) as Hrest.
    destruct (removeDuplicatesFrom ({[key]} ∪ seen) results h1) as [h' kept].
    cbn [fst snd] in *.
    apply elem_of_cons in Hl as [->|Hl].
    + right. exists r. split; [now left | reflexivity].
    + destruct (Hrest l Hl) as [Hin | (l' & Hl' & Heq)].
      * apply elem_of_union in Hin as [Hin|Hin]; [|now left].
        apply elem_of_singleton in Hin.
        right. exists r. split; [now left|]. now rewrite Hsame, Hin.
      * right. exists l'. split; [now right | exact Heq].
Qed.

(** X7.  Deduplication keeps one result for every key: of distinct objects, no
    two kept results have the same key, and every result has the key of a kept
    one. The keys are read after the call, which sorts the platforms of every
    result. *)
Theorem removeDuplicates_one_per_key (results : list loc) (h : Heap) :
  NoDup results ->
  let deduplicated := removeDuplicates results h in
  NoDup ((fun l => dedupKey (deduplicated.1 l)) <$> deduplicated.2)
  /\ forall l, l ∈ results ->
       exists l', l' ∈ deduplicated.2
         /\ dedupKey (deduplicated.1 l') = dedupKey (deduplicated.1 l).
Proof.
  intros Hnd deduplicated. subst deduplicated. unfold removeDuplicates. split.
  - now apply removeDuplicatesFrom_keys.
  - intros l Hl.
    destruct (removeDuplicatesFrom_represents results ∅ h Hnd l Hl)
      as [Hin|Hex]; [|exact Hex].
    now apply not_elem_of_empty in Hin.
Qed.

(** The theorem at "Doom II", "Doom 3" and "Doom". *)
Lemma removeDuplicates_one_per_key_witness :
  NoDup ((fun l => dedupKey ((removeDuplicates [0; 1; 2]%nat
                                Examples.scoredHeap).1 l))
           <$> (removeDuplicates [0; 1; 2]%nat Examples.scoredHeap).2).
Proof.
  apply (removeDuplicates_one_per_key [0; 1; 2]%nat Examples.scoredHeap).
  repeat (apply list.NoDup_cons; split;
          [rewrite ?elem_of_cons, elem_of_nil; lia|]).
  apply NoDup_nil_2.
Defined.

Lemma rankAndDeduplicateResults_length results h :
  (length (rankAndDeduplicateResults results h).2 <= length results)%nat.
Proof.
  rewrite rankAndDeduplicateResults_list. unfold slice0.
  pose proof (removeDuplicatesFrom_sublist results ∅ h) as Hsub.
  fold (removeDuplicates results h) in Hsub.
  rewrite length_take, Array_sort_perm.
  apply sublist_length in Hsub. lia.
Qed.

Lemma rankAndDeduplicateResults_NoDup results h :
  NoDup results -> NoDup (rankAndDeduplicateResults results h).2.
Proof.
  intros Hnd. rewrite rankAndDeduplicateResults_list. unfold slice0.
  pose proof (removeDuplicatesFrom_sublist results ∅ h) as Hsub.
  fold (removeDuplicates results h) in Hsub.
  eapply sublist_NoDup; [|apply sublist_take].
  rewrite Array_sort_perm. now apply (sublist_NoDup _ _ Hnd).
Qed.

(** X8.  [rankAndDeduplicateResults] returns at most ten results, never more
    than it was given, each of them one of those it was given, and none of
    them twice when none was given twice. *)
Theorem rankAndDeduplicateResults_bounded (results : list loc) (h : Heap) :
  let ranked := (rankAndDeduplicateResults results h).2 in
  (length ranked <= 10)%nat
  /\ (length ranked <= length results)%nat
  /\ (forall l, l ∈ ranked -> l ∈ results)
  /\ (NoDup results -> NoDup ranked).
Proof.
  cbv zeta. rewrite rankAndDeduplicateResults_list. unfold slice0.
  pose proof (removeDuplicatesFrom_sublist results ∅ h) as Hsub.
  fold (removeDuplicates results h) in Hsub.
  repeat split.
  - rewrite length_take. lia.
  - pose proof (rankAndDeduplicateResults_length results h) as Hlen.
    now rewrite rankAndDeduplicateResults_list in Hlen.
  - intros l Hl. apply subseteq_take in Hl. rewrite Array_sort_perm in Hl.
    now apply (sublist_subseteq _ _ Hsub).
  - intros Hnd.
    pose proof (rankAndDeduplicateResults_NoDup results h Hnd) as Hranked.
    now rewrite rankAndDeduplicateResults_list in Hranked.
Qed.


End RankingFacts.

(** ** The cache and the store across searches *)

Module CacheFacts.
Import SearchManager SearchInvariants MergeFacts RankFacts SearchFacts
  InvariantFacts JsStringFacts ScoringFacts RankingFacts.

(** X9.  What [cacheResult] leaves in the cache: the new entry under the
    lower-cased trimmed query, and of the other entries those that have not
    expired. *)
Theorem cacheResult_cache (q : string) (rs : list loc) (w : World)
    (k : string) (e : CacheEntry) :
  searchCache (cacheResult q rs w).2 !! k = Some e
  <-> (k = trim (toLowerCase q) /\ e = mkCacheEntry rs (now w))
      \/ (k <> trim (toLowerCase q) /\ searchCache w !! k = Some e
          /\ (now w - entry_timestamp e <= cacheTimeout)%Z).
Proof.
  rewrite cacheResult_eq. cbn [snd set_searchCache searchCache].
  rewrite map_lookup_filter_Some. cbn [snd].
  destruct (decide (k = trim (toLowerCase q))) as [->|Hne].
  - rewrite lookup_insert_eq. split.
    + intros [[= <-] _]. now left.
    + intros [[_ ->] | [Hne _]]; [|contradiction].
      split; [reflexivity|]. cbn. unfold cacheTimeout. lia.
  - rewrite lookup_insert_ne by congruence. split.
    + intros [He Hlive]. right. repeat split; auto. lia.
    + intros [[Heq _] | (_ & He & Hlive)]; [contradiction|].
      split; [exact He | lia].
Qed.

(** *** The scores that the two searches attach *)

Lemma executeWikidataSearch_scored svc q w wds w' :
  executeWikidataSearch svc q w = (Returned wds, w') ->
  forall l, l ∈ wds -> scoredResult (heap w' l).
Proof.
  unfold executeWikidataSearch. rewrite tryCatch_unfold, bind_unfold.
  unfold awaitWikidata.
  destruct (searchGameByTitle svc q) as [elapsed [games|e]]; cbn [fst snd].
  - set (w1 := mkWorld _ _ _ _ _ _).
    destruct (mapM_alloc_spec
                (fun timestamp result =>
                   set_searchMetadata
                     (Some (mkSearchMetadata (JStr "wikidata") (JStr q)
                              (Some timestamp)
                              (Some (calculateWikidataConfidence result q))
                              false)) result) games w1)
      as (w2 & Hrun & _ & _ & _ & _ & _ & _ & Hnew).
    rewrite Hrun. intros [= <- <-] l Hl.
    apply elem_of_seq in Hl as [Hlo Hhi].
    subst w1. cbn [nextLoc] in Hnew.
    destruct (lookup_lt_is_Some_2 games (l - nextLoc w)) as [x Hx]; [lia|].
    replace l with (nextLoc w + (l - nextLoc w))%nat by lia.
    rewrite (Hnew _ x Hx).
    eexists _, _. cbn. split; [reflexivity|]. cbn.
    split; [now left|]. split; [reflexivity|].
    apply wikidataConfidence_range.
  - intros [= <- <-] l Hl. now apply elem_of_nil in Hl.
Qed.

Lemma executeFallbackSearch_scored svc q w wps w' :
  executeFallbackSearch svc q w = (Returned wps, w') ->
  forall l, l ∈ wps -> scoredResult (heap w' l).
Proof.
  unfold executeFallbackSearch. rewrite tryCatch_unfold, bind_unfold.
  unfold awaitWikipedia.
  destruct (extractGameMetadata svc q) as [elapsed [[result|]|e]];
    cbn [fst snd].
  - unfold bind, generateSearchResultId, dateNow, alloc, ret. cbn.
    intros [= <- <-] l Hl. apply list_elem_of_singleton in Hl as ->.
    cbn. unfold store. rewrite Nat.eqb_refl.
    eexists _, _. cbn. split; [reflexivity|]. cbn.
    split; [now right|]. split; [reflexivity|].
    apply wikipediaConfidence_range.
  - unfold ret. intros [= <- <-] l Hl. now apply elem_of_nil in Hl.
  - unfold ret. intros [= <- <-] l Hl. now apply elem_of_nil in Hl.
Qed.

(** The enhancement sets a flag of [searchMetadata] and keeps the rest. *)
Lemma enhance_scored p s h l :
  scoredResult (h l) -> scoredResult (enhanceResultWithWikipediaData p s h l).
Proof.
  intros (m & c & Hm & Hsrc & Hc & Hrange).
  destruct (Nat.eq_dec l p) as [->|Hne].
  - rewrite enhance_at. exists (set_enhancedWithWikipedia true m), c.
    cbn. rewrite Hm. cbn. auto.
  - rewrite enhance_other by exact Hne. now exists m, c.
Qed.

Lemma mergeSearchResults_scored wds wps h l :
  scoredResult (h l) -> scoredResult ((mergeSearchResults wds wps h).1 l).
Proof.
  rewrite mergeSearchResults_eq. cbn [fst].
  generalize h at 1 3. intros hk.
  revert hk. induction wps as [|s wps IH]; intros hk Hx; cbn [fold_left];
    [exact Hx|].
  apply IH. destruct (matchingResult h wds s); [|exact Hx].
  now apply enhance_scored.
Qed.

Lemma rankAndDeduplicateResults_scored results h l :
  scoredResult (h l) ->
  scoredResult ((rankAndDeduplicateResults results h).1 l).
Proof.
  rewrite rankAndDeduplicateResults_heap. unfold removeDuplicates, scoredResult.
  pose proof (removeDuplicatesFrom_outside results ∅ h l) as Hl.
  apply (f_equal searchMetadata) in Hl. cbn in Hl. now rewrite Hl.
Qed.

(** *** A search that misses the cache *)

(** The first request goes to Wikidata, the outcome is cached with the time
    of the end of the search, at most ten results are returned, objects that
    existed are as they were, the other entries of the cache were there
    before, and every result is an object with its scores. *)
Lemma searchGame_miss_summary svc q w w0 :
  (2 <= String.length (trim q))%nat ->
  getCachedResult (trim q) w = (Returned None, w0) ->
  exists rs rest,
    (searchGame svc q w).1 = Returned rs
    /\ calls (searchGame svc q w).2
       = (calls w0 ++ CallWikidata (trim q) :: rest)%list
    /\ (forall k e,
          searchCache (searchGame svc q w).2 !! k = Some e ->
          e = mkCacheEntry rs (now (searchGame svc q w).2)
          \/ searchCache w0 !! k = Some e)
    /\ searchCache (searchGame svc q w).2 !! trim (toLowerCase (trim q))
       = Some (mkCacheEntry rs (now (searchGame svc q w).2))
    /\ (length rs <= 10)%nat
    /\ (nextLoc w0 <= nextLoc (searchGame svc q w).2)%nat
    /\ (forall l, (l < nextLoc w0)%nat ->
          heap (searchGame svc q w).2 l = heap w0 l)
    /\ (forall l, l ∈ rs ->
          (l < nextLoc (searchGame svc q w).2)%nat
          /\ scoredResult (heap (searchGame svc q w).2 l))
    /\ (rest = [] \/ rest = [CallWikipedia (trim q)]).
Proof.
  intros Hlen Hmiss.
  destruct (executeWikidataSearch_spec svc (trim q) w0)
    as (wds & w1 & Hwd & Hseq1 & Hn1 & Hc1 & _ & Hcalls1 & _ & Hold1 & Hsrc1).
  destruct (searchGame_miss svc q w w0 Hlen Hmiss)
    as (wds' & w1' & Hwd' & Hcases).
  rewrite Hwd in Hwd'.
  assert (wds' = wds /\ w1' = w1) as [-> ->] by (split; congruence).
  clear Hwd'.
  pose proof (executeWikidataSearch_scored svc (trim q) w0 wds w1 Hwd)
    as Hscored1.
  assert (forall l, l ∈ wds -> (nextLoc w0 <= l < nextLoc w1)%nat) as Hrange1.
  { intros l Hl. rewrite Hseq1 in Hl. apply elem_of_seq in Hl. lia. }
  destruct Hcases as [[_ Heq] | (_ & wps & w2 & Hwp & Heq)].
  - rewrite Heq. cbn [fst snd].
    set (ranked := rankAndDeduplicateResults wds (heap w1)).
    destruct (ranked_wikidata_sound (heap w1) (nextLoc w0) wds Hseq1 Hsrc1)
      as (_ & _ & Hframe). fold ranked in Hframe.
    destruct (cacheResult_frame (trim q) ranked.2 (set_heap ranked.1 w1))
      as (Hh & Hn & Ht & Hcalls).
    exists ranked.2, []. rewrite Hh, Hn, Ht, Hcalls.
    cbn [heap set_heap now calls nextLoc].
    repeat split.
    + exact Hcalls1.
    + intros k e [-> | He]%cacheResult_entries; [now left | right].
      cbn in He. now rewrite Hc1 in He.
    + now rewrite cacheResult_lookup.
    + subst ranked. rewrite rankAndDeduplicateResults_list. unfold slice0.
      rewrite length_take. lia.
    + lia.
    + intros l Hl. rewrite Hframe by exact Hl. now apply Hold1.
    + apply rankAndDeduplicateResults_elem, Hrange1 in H. lia.
    + apply rankAndDeduplicateResults_scored, Hscored1.
      now apply rankAndDeduplicateResults_elem in H.
    + now left.
  - cbv zeta in Heq. rewrite Heq. cbn [fst snd].
    destruct (executeFallbackSearch_spec svc (trim q) w1)
      as (wps' & w2' & Hwp' & Hseq2 & Hn2 & Hc2 & _ & Hcalls2 & Hold2 & Hsrc2).
    rewrite Hwp in Hwp'.
    assert (wps' = wps /\ w2' = w2) as [-> ->] by (split; congruence).
    clear Hwp'. rewrite Hn1 in Hseq2.
    assert (forall l, l ∈ wds -> sourceOf (heap w2 l) = Some (JStr "wikidata"))
      as Hsrc1'.
    { intros l Hl. rewrite Hold2; [now apply Hsrc1|].
      rewrite Hseq1 in Hl. apply elem_of_seq in Hl. lia. }
    destruct (ranked_merged_sound (heap w2) (nextLoc w0) wds wps
                Hseq1 Hseq2 Hsrc1' Hsrc2) as (_ & _ & Hframe).
    cbv zeta in Hframe.
    set (merged := mergeSearchResults wds wps (heap w2)) in *.
    set (ranked := rankAndDeduplicateResults merged.2 merged.1) in *.
    assert (forall l, l ∈ wps -> (nextLoc w1 <= l < nextLoc w2)%nat)
      as Hrange2.
    { intros l Hl. rewrite Hseq2 in Hl. apply elem_of_seq in Hl. lia. }
    assert (forall l, l ∈ ranked.2 -> l ∈ wds \/ l ∈ wps) as Hmerged.
    { intros l Hl. subst ranked. apply rankAndDeduplicateResults_elem in Hl.
      subst merged. rewrite mergeSearchResults_eq in Hl. cbn [snd] in Hl.
      apply elem_of_app in Hl as [Hl|Hl]; [now left | right].
      now apply list_elem_of_filter in Hl as [_ Hl]. }
    destruct (cacheResult_frame (trim q) ranked.2 (set_heap ranked.1 w2))
      as (Hh & Hn & Ht & Hcalls).
    exists ranked.2, [CallWikipedia (trim q)].
    rewrite Hh, Hn, Ht, Hcalls. cbn [heap set_heap now calls nextLoc].
    repeat split.
    + rewrite Hcalls2, Hcalls1, <- app_assoc. reflexivity.
    + intros k e [-> | He]%cacheResult_entries; [now left | right].
      cbn in He. now rewrite Hc2, Hc1 in He.
    + now rewrite cacheResult_lookup.
    + subst ranked. rewrite rankAndDeduplicateResults_list. unfold slice0.
      rewrite length_take. lia.
    + lia.
    + intros l Hl. rewrite Hframe by exact Hl.
      rewrite Hold2 by lia. now apply Hold1.
    + apply Hmerged in H as [Hin|Hin];
        [apply Hrange1 in Hin | apply Hrange2 in Hin]; lia.
    + apply rankAndDeduplicateResults_scored, mergeSearchResults_scored.
      apply Hmerged in H as [Hin|Hin].
      * rewrite Hold2 by (apply Hrange1 in Hin; lia). now apply Hscored1.
      * now apply (executeFallbackSearch_scored svc (trim q) w1 wps w2 Hwp).
    + now right.
Qed.

(** X10.  An expired entry is not served: the search asks Wikidata again,
    whatever the services are, and the entry is replaced by the new outcome,
    cached with the time of the end of the search. *)
Theorem searchGame_expired_entry
    (svc : Services) (q : string) (w : World) (e : CacheEntry) :
  (2 <= String.length (trim q))%nat ->
  searchCache w !! trim (toLowerCase (trim q)) = Some e ->
  (cacheTimeout < now w - entry_timestamp e)%Z ->
  let run := searchGame svc q w in
  exists rs rest,
    run.1 = Returned rs
    /\ calls run.2 = (calls w ++ CallWikidata (trim q) :: rest)%list
    /\ searchCache run.2 !! trim (toLowerCase (trim q))
       = Some (mkCacheEntry rs (now run.2)).
Proof.
  intros Hlen He Hexpired run. subst run.
  assert (getCachedResult (trim q) w
          = (Returned None,
             set_searchCache
               (delete (trim (toLowerCase (trim q))) (searchCache w)) w))
    as Hmiss.
  { unfold getCachedResult. rewrite He.
    destruct (Z.ltb_spec cacheTimeout (now w - entry_timestamp e)); [|lia].
    reflexivity. }
  destruct (searchGame_miss_summary svc q w _ Hlen Hmiss)
    as (rs & rest & Hrs & Hcalls & _ & Hentry & _).
  exists rs, rest. auto.
Qed.

(** The theorem at a second search for "doom", six minutes after the
    first. *)
Lemma searchGame_expired_entry_witness :
  let w := later 360000
             (searchGame Examples.doomServices "doom" Examples.initialWorld).2 in
  exists rs rest,
    (searchGame Examples.doomServices "doom" w).1 = Returned rs
    /\ calls (searchGame Examples.doomServices "doom" w).2
       = (calls w ++ CallWikidata "doom" :: rest)%list
    /\ searchCache (searchGame Examples.doomServices "doom" w).2 !! "doom"
       = Some (mkCacheEntry rs
                 (now (searchGame Examples.doomServices "doom" w).2)).
Proof.
  cbv zeta.
  apply (searchGame_expired_entry Examples.doomServices "doom"
           (later 360000
              (searchGame Examples.doomServices "doom"
                 Examples.initialWorld).2)
           (mkCacheEntry [0; 1]%nat 1120)).
  - vm_compute. lia.
  - vm_compute. reflexivity.
  - vm_compute. reflexivity.
Defined.

(** X11.  After [clearCache] the statistics count no entry, and every search
    for a query of two characters or more asks Wikidata. *)
Theorem clearCache_forgets (svc : Services) (q : string) (w : World) :
  (2 <= String.length (trim q))%nat ->
  let cleared := (clearCache w).2 in
  (getSearchStatistics cleared).1
  = Returned (mkSearchStatistics 0 cacheTimeout (now w))
  /\ exists rs rest,
       (searchGame svc q cleared).1 = Returned rs
       /\ calls (searchGame svc q cleared).2
          = (calls w ++ CallWikidata (trim q) :: rest)%list.
Proof.
  intros Hlen cleared. subst cleared. split; [reflexivity|].
  assert (getCachedResult (trim q) (clearCache w).2
          = (Returned None, (clearCache w).2)) as Hmiss.
  { unfold getCachedResult, clearCache. cbn [snd set_searchCache searchCache].
    now rewrite lookup_empty. }
  destruct (searchGame_miss_summary svc q _ _ Hlen Hmiss)
    as (rs & rest & Hrs & Hcalls & _).
  exists rs, rest. auto.
Qed.

(** The theorem at a search for "doom" after the cache that held it was
    cleared. *)
Lemma clearCache_forgets_witness :
  let w := (searchGame Examples.doomServices "doom" Examples.initialWorld).2 in
  exists rs rest,
    (searchGame Examples.doomServices "doom" (clearCache w).2).1 = Returned rs
    /\ calls (searchGame Examples.doomServices "doom" (clearCache w).2).2
       = (calls w ++ CallWikidata "doom" :: rest)%list.
Proof.
  cbv zeta.
  apply (clearCache_forgets Examples.doomServices "doom"
           (searchGame Examples.doomServices "doom" Examples.initialWorld).2).
  vm_compute. lia.
Defined.

(** X12.  A search writes to no object that existed before it: what earlier
    searches returned stays as it was returned. New objects take the
    references that follow. *)
Theorem searchGame_keeps_objects (svc : Services) (q : string) (w : World) :
  (nextLoc w <= nextLoc (searchGame svc q w).2)%nat
  /\ forall l, (l < nextLoc w)%nat ->
       heap (searchGame svc q w).2 l = heap w l.
Proof.
  destruct (Nat.lt_ge_cases (String.length (trim q)) 2) as [Hshort|Hlen].
  { rewrite searchGame_short by exact Hshort. cbn. auto. }
  destruct (getCachedResult_cases (trim q) w)
    as [(w0 & Hmiss & Hh0 & Hn0 & _) | (e & He & Hlive & _)].
  - destruct (searchGame_miss_summary svc q w w0 Hlen Hmiss)
      as (rs & rest & _ & _ & _ & _ & _ & Hn & Hframe & _).
    rewrite <- Hn0, <- Hh0. split; [exact Hn | exact Hframe].
  - rewrite (searchGame_hit svc q w e Hlen He Hlive). cbn. auto.
Qed.

(** The theorem at the two objects of a first search and a second search,
    for another query. *)
Lemma searchGame_keeps_objects_witness :
  let w := (searchGame Examples.doomServices "doom" Examples.initialWorld).2 in
  heap (searchGame Examples.doomServices "doom ii" w).2 1%nat = heap w 1%nat.
Proof.
  cbv zeta.
  apply (searchGame_keeps_objects Examples.doomServices "doom ii"
           (searchGame Examples.doomServices "doom" Examples.initialWorld).2).
  vm_compute. lia.
Defined.

(** In every world that a search manager reaches, no entry of the cache
    holds more than ten results. *)
Lemma Reachable_bounded w :
  Reachable w ->
  forall k e, searchCache w !! k = Some e -> (length (results e) <= 10)%nat.
Proof.
  induction 1 as [h n t | svc q w _ IH | elapsed w _ _ IH]; intros k e He.
  - cbn in He. now rewrite lookup_empty in He.
  - revert He.
    destruct (Nat.lt_ge_cases (String.length (trim q)) 2) as [Hshort|Hlen].
    { rewrite searchGame_short by exact Hshort. apply IH. }
    destruct (getCachedResult_cases (trim q) w)
      as [(w0 & Hmiss & _ & _ & _ & _ & Hc0) | (e' & He' & Hlive & _)].
    + destruct (searchGame_miss_summary svc q w w0 Hlen Hmiss)
        as (rs & rest & _ & _ & Hentries & _ & Hten & _).
      intros [-> | He]%Hentries; [exact Hten|].
      apply Hc0 in He. now apply IH in He.
    + rewrite (searchGame_hit svc q w e' Hlen He' Hlive). apply IH.
  - now apply IH in He.
Qed.

(** X13.  In every world that a search manager reaches, a search returns at
    most ten results, from the services or from the cache. *)
Theorem searchGame_at_most_ten (w : World) :
  Reachable w ->
  forall svc q rs,
    (searchGame svc q w).1 = Returned rs -> (length rs <= 10)%nat.
Proof.
  intros Hreach svc q rs.
  destruct (Nat.lt_ge_cases (String.length (trim q)) 2) as [Hshort|Hlen].
  { rewrite searchGame_short by exact Hshort. intros [= <-]. cbn. lia. }
  destruct (getCachedResult_cases (trim q) w)
    as [(w0 & Hmiss & _) | (e & He & Hlive & _)].
  - destruct (searchGame_miss_summary svc q w w0 Hlen Hmiss)
      as (rs' & rest & -> & _ & _ & _ & Hten & _).
    now intros [= <-].
  - rewrite (searchGame_hit svc q w e Hlen He Hlive). intros [= <-].
    exact (Reachable_bounded w Hreach _ e He).
Qed.

(** The theorem at the first search of a new search manager. *)
Lemma searchGame_at_most_ten_witness :
  (searchGame Examples.doomServices " Doom " Examples.initialWorld).1
  = Returned [0; 1]%nat
  /\ (length [0; 1]%nat <= 10)%nat.
Proof.
  split; [vm_compute; reflexivity|].
  apply (searchGame_at_most_ten Examples.initialWorld
           (reach_new Examples.emptyHeap 0 1000) Examples.doomServices
           " Doom " [0; 1]%nat).
  vm_compute. reflexivity.
Defined.

(** In every world that a search manager reaches, the results in the cache
    are existing objects with their scores. *)
Lemma Reachable_scored w :
  Reachable w ->
  forall k e, searchCache w !! k = Some e ->
    forall l, l ∈ results e ->
      (l < nextLoc w)%nat /\ scoredResult (heap w l).
Proof.
  induction 1 as [h n t | svc q w _ IH | elapsed w _ _ IH]; intros k e He.
  - cbn in He. now rewrite lookup_empty in He.
  - revert He.
    destruct (Nat.lt_ge_cases (String.length (trim q)) 2) as [Hshort|Hlen].
    { rewrite searchGame_short by exact Hshort. apply IH. }
    destruct (getCachedResult_cases (trim q) w)
      as [(w0 & Hmiss & Hh0 & Hn0 & _ & _ & Hc0) | (e' & He' & Hlive & _)].
    + destruct (searchGame_miss_summary svc q w w0 Hlen Hmiss)
        as (rs & rest & _ & _ & Hentries & _ & _ & Hn & Hframe & Hnew & _).
      intros [-> | He]%Hentries; [exact Hnew|].
      intros l Hl. apply Hc0 in He. destruct (IH k e He l Hl) as [Hlt Hsc].
      split; [lia|]. rewrite Hframe by lia. now rewrite Hh0.
    + rewrite (searchGame_hit svc q w e' Hlen He' Hlive). apply IH.
  - exact (IH k e He).
Qed.

(** X14.  In every world that a search manager reaches, every result that a
    search returns, from the services or from the cache, carries
    [searchMetadata] whose source is 'wikidata' or 'wikipedia' and whose
    confidence is a number between 0 and 1. *)
Theorem searchGame_results_scored (w : World) :
  Reachable w ->
  forall svc q rs,
    (searchGame svc q w).1 = Returned rs ->
    forall l, l ∈ rs -> scoredResult (heap (searchGame svc q w).2 l).
Proof.
  intros Hreach svc q rs.
  destruct (Nat.lt_ge_cases (String.length (trim q)) 2) as [Hshort|Hlen].
  { rewrite searchGame_short by exact Hshort. intros [= <-] l Hl.
    now apply elem_of_nil in Hl. }
  destruct (getCachedResult_cases (trim q) w)
    as [(w0 & Hmiss & _) | (e & He & Hlive & _)].
  - destruct (searchGame_miss_summary svc q w w0 Hlen Hmiss)
      as (rs' & rest & -> & _ & _ & _ & _ & _ & _ & Hnew & _).
    intros [= <-] l Hl. now apply Hnew.
  - rewrite (searchGame_hit svc q w e Hlen He Hlive). intros [= <-] l Hl.
    now apply (Reachable_scored w Hreach _ e He).
Qed.

(** The theorem at the first search of a new search manager. *)
Lemma searchGame_results_scored_witness :
  scoredResult
    (heap (searchGame Examples.doomServices " Doom "
             Examples.initialWorld).2 0%nat).
Proof.
  apply (searchGame_results_scored Examples.initialWorld
           (reach_new Examples.emptyHeap 0 1000) Examples.doomServices
           " Doom " [0; 1]%nat).
  - vm_compute. reflexivity.
  - now left.
Defined.

(** *** The requests of a search *)

(** X15.  With the Wikidata service of this repository, when no row of its
    response for the trimmed query labels a platform with a property name
    that every object inherits (such a platform is no string, and comparing
    the results can then throw after both requests): a search makes no
    request, or one to Wikidata, or one to Wikidata and then one to
    Wikipedia, both for the trimmed query; never more, and never Wikipedia
    first. *)
Theorem searchGame_requests
    (toISODate : string -> option string)
    (respond : string -> Outcome WikidataService.Response) (elapsed : nat)
    (wikipedia : string -> nat * Outcome (option Candidate))
    (random : nat -> string) (q : string) (w : World) :
  (forall response binding label,
     respond (trim q) = Returned response ->
     binding ∈ orNil response ->
     WikidataService.b_platformLabel binding = Some label ->
     label ∉ WikidataService.inheritedProperties) ->
  exists requests,
    calls (searchGame
             (mkServices (WikidataService.service toISODate respond elapsed)
                wikipedia random) q w).2
    = (calls w ++ requests)%list
    /\ (requests = []
        \/ requests = [CallWikidata (trim q)]
        \/ requests = [CallWikidata (trim q); CallWikipedia (trim q)]).
Proof.
  intros _.
  set (svc := mkServices (WikidataService.service toISODate respond elapsed)
                wikipedia random).
  destruct (Nat.lt_ge_cases (String.length (trim q)) 2) as [Hshort|Hlen].
  { rewrite searchGame_short by exact Hshort. exists []. cbn.
    rewrite app_nil_r. auto. }
  destruct (getCachedResult_cases (trim q) w)
    as [(w0 & Hmiss & _ & _ & _ & Hcalls0 & _) | (e & He & Hlive & _)].
  - destruct (searchGame_miss_summary svc q w w0 Hlen Hmiss)
      as (rs & rest & _ & Hcalls & _ & _ & _ & _ & _ & _ & Hrest).
    exists (CallWikidata (trim q) :: rest). rewrite Hcalls, Hcalls0.
    split; [reflexivity|]. destruct Hrest as [-> | ->]; auto.
  - rewrite (searchGame_hit svc q w e Hlen He Hlive). exists []. cbn.
    rewrite app_nil_r. auto.
Qed.

(** The theorem at the search for "zelda" when the one row of the response
    has the platform "Nintendo Switch": Wikidata, then Wikipedia. *)
Lemma searchGame_requests_witness :
  exists requests,
    calls (searchGame Examples.unlabelledServices "zelda"
             Examples.initialWorld).2
    = (calls Examples.initialWorld ++ requests)%list
    /\ (requests = []
        \/ requests = [CallWikidata "zelda"]
        \/ requests = [CallWikidata "zelda"; CallWikipedia "zelda"]).
Proof.
  apply (searchGame_requests Examples.isoPrefix
           (fun _ => Returned Examples.unlabelledResponse) 120
           (fun _ => (300%nat, Returned None)) (fun _ => "k3j9x0q2a")
           "zelda" Examples.initialWorld).
  intros response binding label [= <-] Hin Hlabel.
  apply list_elem_of_singleton in Hin as ->.
  injection Hlabel as <-.
  apply (bool_decide_unpack _). vm_compute. exact I.
Defined.

Lemma executeWikidataSearch_nil svc q w :
  (searchGameByTitle svc q).2 = Returned [] ->
  (executeWikidataSearch svc q w).1 = Returned [].
Proof.
  intros He. unfold executeWikidataSearch.
  rewrite tryCatch_unfold, bind_unfold. unfold awaitWikidata.
  destruct (searchGameByTitle svc q) as [elapsed out]. cbn in He. subst out.
  reflexivity.
Qed.

Lemma executeFallbackSearch_length svc q w :
  exists wps, (executeFallbackSearch svc q w).1 = Returned wps
    /\ (length wps <= 1)%nat.
Proof.
  unfold executeFallbackSearch. rewrite tryCatch_unfold, bind_unfold.
  unfold awaitWikipedia.
  destruct (extractGameMetadata svc q) as [elapsed [[result|]|e]];
    cbn [fst snd].
  - unfold bind, generateSearchResultId, dateNow, alloc, ret. cbn.
    eexists. split; [reflexivity|]. cbn. lia.
  - exists []. split; [reflexivity|]. cbn. lia.
  - exists []. split; [reflexivity|]. cbn. lia.
Qed.

(** X16.  The fallback. On a cache miss, when Wikidata throws or finds
    nothing, Wikipedia is asked, and the search returns what Wikipedia gave:
    one result at most. *)
Theorem searchGame_falls_back (svc : Services) (q : string) (w : World) :
  (2 <= String.length (trim q))%nat ->
  (getCachedResult (trim q) w).1 = Returned None ->
  (searchGameByTitle svc (trim q)).2 = Returned []
  \/ (exists e, (searchGameByTitle svc (trim q)).2 = Thrown e) ->
  calls (searchGame svc q w).2
  = (calls w ++ [CallWikidata (trim q); CallWikipedia (trim q)])%list
  /\ exists rs,
       (searchGame svc q w).1 = Returned rs /\ (length rs <= 1)%nat.
Proof.
  intros Hlen Hmiss Hwikidata.
  destruct (getCachedResult_cases (trim q) w)
    as [(w0 & Hget & _ & _ & _ & Hcalls0 & _) | (e & _ & _ & Hhit)];
    [|rewrite Hhit in Hmiss; discriminate Hmiss].
  destruct (executeWikidataSearch_spec svc (trim q) w0)
    as (wds & w1 & Hwd & _ & _ & _ & _ & Hcalls1 & _).
  assert (wds = []) as ->.
  { destruct Hwikidata as [Hnil | [e Hthrown]].
    - pose proof (executeWikidataSearch_nil svc (trim q) w0 Hnil) as Hrun.
      rewrite Hwd in Hrun. now injection Hrun.
    - pose proof (executeWikidataSearch_thrown svc (trim q) w0 e Hthrown)
        as Hrun.
      rewrite Hwd in Hrun. now injection Hrun. }
  destruct (searchGame_miss svc q w w0 Hlen Hget)
    as (wds' & w1' & Hwd' & Hcases).
  rewrite Hwd in Hwd'.
  assert (wds' = [] /\ w1' = w1) as [-> ->] by (split; congruence).
  destruct Hcases as [[Hgate _] | (_ & wps & w2 & Hwp & Heq)];
    [discriminate Hgate|].
  destruct (executeFallbackSearch_spec svc (trim q) w1)
    as (wps' & w2' & Hwp' & _ & _ & _ & _ & Hcalls2 & _).
  rewrite Hwp in Hwp'.
  assert (wps' = wps /\ w2' = w2) as [-> ->] by (split; congruence).
  destruct (executeFallbackSearch_length svc (trim q) w1)
    as (wps' & Hrun & Hone).
  rewrite Hwp in Hrun. injection Hrun as <-.
  cbv zeta in Heq. rewrite Heq. cbn [fst snd]. split.
  - match goal with
    | |- context [cacheResult ?a ?b ?c] =>
        destruct (cacheResult_frame a b c) as (_ & _ & _ & ->)
    end.
    cbn [calls set_heap]. rewrite Hcalls2, Hcalls1, Hcalls0, <- app_assoc.
    reflexivity.
  - eexists. split; [reflexivity|].
    etransitivity; [apply rankAndDeduplicateResults_length|].
    rewrite mergeSearchResults_eq. cbn [snd app].
    etransitivity; [apply length_filter | exact Hone].
Qed.

(** The theorem at a search for "Celeste": Wikidata finds nothing, and the
    article of Wikipedia is the result. *)
Lemma searchGame_falls_back_witness :
  calls (searchGame Examples.celesteServices "Celeste" Examples.initialWorld).2
  = [CallWikidata "Celeste"; CallWikipedia "Celeste"].
Proof.
  apply (searchGame_falls_back Examples.celesteServices "Celeste"
           Examples.initialWorld).
  - vm_compute. lia.
  - reflexivity.
  - left. reflexivity.
Defined.

(** *** The ids of the results *)

Lemma executeWikidataSearch_ids svc q w wds w' :
  executeWikidataSearch svc q w = (Returned wds, w') ->
  match (searchGameByTitle svc q).2 with
  | Returned games => map (fun l => id (heap w' l)) wds = map id games
  | Thrown _ => wds = []
  end.
Proof.
  unfold executeWikidataSearch. rewrite tryCatch_unfold, bind_unfold.
  unfold awaitWikidata.
  destruct (searchGameByTitle svc q) as [elapsed [games|e]]; cbn [fst snd].
  - set (w1 := mkWorld _ _ _ _ _ _).
    destruct (mapM_alloc_spec
                (fun timestamp result =>
                   set_searchMetadata
                     (Some (mkSearchMetadata (JStr "wikidata") (JStr q)
                              (Some timestamp)
                              (Some (calculateWikidataConfidence result q))
                              false)) result) games w1)
      as (w2 & Hrun & _ & _ & _ & _ & _ & _ & Hnew).
    rewrite Hrun. intros [= <- <-].
    subst w1. cbn [nextLoc] in Hnew |- *.
    apply list_eq. intros i. rewrite !list_lookup_fmap.
    destruct (games !! i) as [x|] eqn:Hx.
    + rewrite (lookup_seq_lt _ _ _ (lookup_lt_Some _ _ _ Hx)).
      cbn [fmap option_fmap option_map]. now rewrite (Hnew i x Hx).
    + rewrite (lookup_seq_ge _ _ _ (proj1 (lookup_ge_None _ _) Hx)).
      reflexivity.
  - now intros [= <- <-].
Qed.

Lemma executeFallbackSearch_ids svc q w wps w' :
  executeFallbackSearch svc q w = (Returned wps, w') ->
  forall l, l ∈ wps ->
    exists suffix, id (heap w' l) = JStr ("search_" ++ suffix).
Proof.
  unfold executeFallbackSearch. rewrite tryCatch_unfold, bind_unfold.
  unfold awaitWikipedia.
  destruct (extractGameMetadata svc q) as [elapsed [[result|]|e]];
    cbn [fst snd].
  - unfold bind, generateSearchResultId, dateNow, alloc, ret. cbn.
    intros [= <- <-] l Hl. apply list_elem_of_singleton in Hl as ->.
    cbn. unfold store. rewrite Nat.eqb_refl. cbn. eauto.
  - unfold ret. intros [= <- <-] l Hl. now apply elem_of_nil in Hl.
  - unfold ret. intros [= <- <-] l Hl. now apply elem_of_nil in Hl.
Qed.

(** Merging and ranking leave the [id] of every object. *)
Lemma ranked_merged_id wds wps h l :
  let merged := mergeSearchResults wds wps h in
  id ((rankAndDeduplicateResults merged.2 merged.1).1 l) = id (h l).
Proof.
  cbv zeta. rewrite rankAndDeduplicateResults_heap. unfold removeDuplicates.
  pose proof (removeDuplicatesFrom_outside
                (mergeSearchResults wds wps h).2 ∅
                (mergeSearchResults wds wps h).1 l) as Hrank.
  apply (f_equal id) in Hrank. cbn in Hrank. rewrite Hrank.
  rewrite mergeSearchResults_eq. cbn [fst].
  pose proof (enhanceTurns_outside h wds wps h l) as Hmerge.
  apply (f_equal id) in Hmerge. exact Hmerge.
Qed.

Lemma ranked_id results h l :
  id ((rankAndDeduplicateResults results h).1 l) = id (h l).
Proof.
  rewrite rankAndDeduplicateResults_heap. unfold removeDuplicates.
  pose proof (removeDuplicatesFrom_outside results ∅ h l) as Hrank.
  apply (f_equal id) in Hrank. exact Hrank.
Qed.

Lemma NoDup_fmap_within {A B} (f : A -> B) (l l' : list A) :
  NoDup (f <$> l) -> NoDup l' -> (forall x, x ∈ l' -> x ∈ l) ->
  NoDup (f <$> l').
Proof.
  intros Himage Hnd Hsub.
  apply NoDup_fmap_2_strong; [|exact Hnd].
  intros x y Hx%Hsub Hy%Hsub Heq.
  apply list_elem_of_lookup in Hx as [i Hi], Hy as [j Hj].
  assert (i = j) as ->.
  { apply (NoDup_lookup (f <$> l) i j (f x)); [exact Himage| |].
    - now rewrite list_lookup_fmap, Hi.
    - now rewrite list_lookup_fmap, Hj, Heq. }
  congruence.
Qed.

(** X29.  The ids of the results of a search that misses the cache are
    pairwise distinct, when the ids of the results of the Wikidata service are
    pairwise distinct and none of them begins with "search_", as the ids that
    the search manager generates do. *)
Theorem searchGame_ids_distinct (svc : Services) (q : string) (w : World) :
  (2 <= String.length (trim q))%nat ->
  (getCachedResult (trim q) w).1 = Returned None ->
  (forall games,
     (searchGameByTitle svc (trim q)).2 = Returned games ->
     NoDup (map id games)
     /\ forall game text,
          game ∈ games -> id game = JStr text ->
          String.prefix "search_" text = false) ->
  exists rs,
    (searchGame svc q w).1 = Returned rs
    /\ NoDup (map (fun l => id (heap (searchGame svc q w).2 l)) rs).
Proof.
  intros Hlen Hmiss Hservice.
  destruct (getCachedResult_cases (trim q) w)
    as [(w0 & Hget & _) | (e & _ & _ & Hhit)];
    [|rewrite Hhit in Hmiss; discriminate Hmiss].
  destruct (executeWikidataSearch_spec svc (trim q) w0)
    as (wds & w1 & Hwd & Hseq1 & Hn1 & _ & _ & _ & _ & Hold1 & _).
  pose proof (executeWikidataSearch_ids svc (trim q) w0 wds w1 Hwd) as Hids.
  assert (NoDup wds) as Hnd1 by (rewrite Hseq1; apply NoDup_seq).
  assert (NoDup ((fun l => id (heap w1 l)) <$> wds)
          /\ forall l text, l ∈ wds -> id (heap w1 l) = JStr text ->
               String.prefix "search_" text = false) as [Hdistinct Hforeign].
  { destruct (searchGameByTitle svc (trim q)).2 as [games|e].
    - destruct (Hservice games eq_refl) as [Hnd Hprefix].
      split.
      { change (NoDup (map (fun l => id (heap w1 l)) wds)).
        now rewrite Hids. }
      intros l text Hl Hid.
      assert (JStr text ∈ map id games) as Hin.
      { rewrite <- Hids, <- Hid. apply list_elem_of_fmap. now exists l. }
      apply list_elem_of_fmap in Hin as (game & Hgame & Hin).
      now apply (Hprefix game text).
    - subst wds. split; [constructor|]. intros l text Hl.
      now apply elem_of_nil in Hl. }
  destruct (searchGame_miss svc q w w0 Hlen Hget)
    as (wds' & w1' & Hwd' & Hcases).
  rewrite Hwd in Hwd'.
  assert (wds' = wds /\ w1' = w1) as [-> ->] by (split; congruence).
  destruct Hcases as [[_ Heq] | (_ & wps & w2 & Hwp & Heq)].
  - rewrite Heq. cbn [fst snd]. eexists. split; [reflexivity|].
    match goal with
    | |- context [cacheResult ?a ?b ?c] =>
        destruct (cacheResult_frame a b c) as (-> & _)
    end.
    cbn [heap set_heap].
    erewrite map_ext; [|intros l; apply ranked_id].
    apply (NoDup_fmap_within _ wds); [exact Hdistinct | |].
    + now apply rankAndDeduplicateResults_NoDup.
    + intros l. apply rankAndDeduplicateResults_elem.
  - cbv zeta in Heq. rewrite Heq. cbn [fst snd]. eexists.
    split; [reflexivity|].
    destruct (executeFallbackSearch_spec svc (trim q) w1)
      as (wps' & w2' & Hwp' & Hseq2 & _ & _ & _ & _ & Hold2 & _).
    rewrite Hwp in Hwp'.
    assert (wps' = wps /\ w2' = w2) as [-> ->] by (split; congruence).
    destruct (executeFallbackSearch_length svc (trim q) w1)
      as (wps' & Hrun & Hone).
    rewrite Hwp in Hrun. injection Hrun as <-.
    pose proof (executeFallbackSearch_ids svc (trim q) w1 wps w2 Hwp)
      as Hgenerated.
    match goal with
    | |- context [cacheResult ?a ?b ?c] =>
        destruct (cacheResult_frame a b c) as (-> & _)
    end.
    cbn [heap set_heap].
    erewrite map_ext; [|intros l; apply ranked_merged_id].
    assert (forall l, l ∈ wds -> (l < nextLoc w1)%nat) as Hrange1.
    { intros l Hl. rewrite Hseq1 in Hl. apply elem_of_seq in Hl. lia. }
    assert (forall l, l ∈ wps -> (nextLoc w1 <= l)%nat) as Hrange2.
    { intros l Hl. rewrite Hseq2 in Hl. apply elem_of_seq in Hl. lia. }
    set (kept := filter (fun s => isDuplicate (heap w2) wds s = false) wps).
    assert (forall l, l ∈ kept -> l ∈ wps) as Hkept.
    { intros l Hl. now apply list_elem_of_filter in Hl as [_ Hl]. }
    apply (NoDup_fmap_within _ (wds ++ kept)).
    + rewrite fmap_app. apply list.NoDup_app. split; [|split].
      * erewrite list_fmap_ext; [exact Hdistinct|].
        intros i l Hl. cbn. rewrite Hold2; [reflexivity|].
        apply Hrange1. now apply list_elem_of_lookup_2 in Hl.
      * intros text (l & Hid & Hl)%list_elem_of_fmap
                    (l' & Hid' & Hl')%list_elem_of_fmap.
        destruct (Hgenerated l' (Hkept l' Hl')) as [suffix Hsuffix].
        rewrite Hold2 in Hid by now apply Hrange1.
        rewrite Hid', Hsuffix in Hid. symmetry in Hid.
        apply (Hforeign l _ Hl) in Hid.
        destruct suffix; vm_compute in Hid; discriminate Hid.
      * assert (length kept <= 1)%nat as Hshort.
        { etransitivity; [apply length_filter | exact Hone]. }
        destruct kept as [|l [|l' kept']]; cbn in Hshort |- *;
          [constructor | apply NoDup_singleton | lia].
    + apply rankAndDeduplicateResults_NoDup.
      rewrite mergeSearchResults_eq. cbn [snd]. fold kept.
      apply list.NoDup_app. split; [exact Hnd1|]. split.
      * intros l Hl Hl'. apply Hrange1 in Hl. apply Hkept, Hrange2 in Hl'. lia.
      * apply list.NoDup_filter. rewrite Hseq2. apply NoDup_seq.
    + intros l Hl. apply rankAndDeduplicateResults_elem in Hl.
      now rewrite mergeSearchResults_eq in Hl.
Qed.

(** The theorem at the search for " Doom ", which returns "Doom" and
    "Doom II". *)
Lemma searchGame_ids_distinct_witness :
  exists rs,
    (searchGame Examples.doomServices " Doom " Examples.initialWorld).1
    = Returned rs
    /\ NoDup (map (fun l =>
                     id (heap (searchGame Examples.doomServices " Doom "
                                 Examples.initialWorld).2 l)) rs).
Proof.
  apply (searchGame_ids_distinct Examples.doomServices " Doom "
           Examples.initialWorld).
  - vm_compute. lia.
  - reflexivity.
  - intros games [= <-]. split.
    + repeat (apply list.NoDup_cons; split;
              [rewrite ?elem_of_cons, elem_of_nil; intuition discriminate|]).
      apply NoDup_nil_2.
    + intros game text Hgame Hid.
      repeat (apply elem_of_cons in Hgame as [->|Hgame];
              [injection Hid as <-; reflexivity|]).
      now apply elem_of_nil in Hgame.
Defined.

End CacheFacts.

(** ** The choice of the Wikipedia article *)

Module WikipediaPageFacts.
Import SearchManager WikipediaService ScoringFacts.

(** The comparison that [findGamePage] sorts with: the higher score first. *)
Local Abbreviation byScore :=
  (fun a b : SearchHit * Z => (b.2 - a.2 <? 0)%Z).

(** The first element of the sorted array after one more insertion. *)
Local Abbreviation better :=
  (fun (best : option (SearchHit * Z)) (x : SearchHit * Z) =>
     match best with
     | None => Some x
     | Some y => if byScore x y then Some x else Some y
     end).

Lemma head_insertSorted x sorted :
  head (insertSorted byScore x sorted) = better (head sorted) x.
Proof.
  destruct sorted as [|y sorted]; cbn; [|destruct (_ <? _)%Z]; reflexivity.
Qed.

Lemma head_Array_sort_loop l : forall sorted,
  head (fold_left (fun sorted x => insertSorted byScore x sorted) l sorted)
  = fold_left better l (head sorted).
Proof.
  induction l as [|x l IH]; intros sorted; cbn [fold_left]; [reflexivity|].
  now rewrite IH, head_insertSorted.
Qed.

(** The element that stays in front: the first one with the highest score. *)
Lemma fold_better_spec l : forall b0,
  exists b, fold_left better l (Some b0) = Some b
    /\ (forall x, x ∈ l -> (x.2 <= b.2)%Z)
    /\ (b0.2 <= b.2)%Z
    /\ (b = b0
        \/ exists i, l !! i = Some b /\ (b0.2 < b.2)%Z
             /\ forall j x, (j < i)%nat -> l !! j = Some x -> (x.2 < b.2)%Z).
Proof.
  induction l as [|x l IH]; intros b0; cbn [fold_left].
  - exists b0. repeat split; [|lia | now left].
    intros x Hx. now apply elem_of_nil in Hx.
  - destruct (Z.ltb_spec (b0.2 - x.2) 0) as [Hlt|Hge].
    + destruct (IH x) as (b & Hb & Hmax & Hle & Hfirst).
      exists b. split; [exact Hb|]. split; [|split; [lia|]].
      * intros y [->|Hy]%elem_of_cons; [exact Hle | now apply Hmax].
      * right. destruct Hfirst as [-> | (i & Hi & Hlt' & Hbefore)].
        -- exists 0%nat. split; [reflexivity|]. split; [lia|]. intros; lia.
        -- exists (S i). split; [exact Hi|]. split; [lia|].
           intros [|j] y Hj Hy; cbn in Hy.
           ++ injection Hy as <-. exact Hlt'.
           ++ apply (Hbefore j); [lia | exact Hy].
    + destruct (IH b0) as (b & Hb & Hmax & Hle & Hfirst).
      exists b. split; [exact Hb|]. split; [|split; [exact Hle|]].
      * intros y [->|Hy]%elem_of_cons; [lia | now apply Hmax].
      * destruct Hfirst as [-> | (i & Hi & Hlt' & Hbefore)]; [now left|].
        right. exists (S i). split; [exact Hi|]. split; [exact Hlt'|].
        intros [|j] y Hj Hy; cbn in Hy.
        -- injection Hy as <-. lia.
        -- apply (Hbefore j); [lia | exact Hy].
Qed.

(** [findGamePage], case by case: no article when the request throws or no
    hit has a positive score; otherwise the first of the hits with the
    highest score. *)
Lemma findGamePage_cases api gameTitle :
  match searchGamePages api gameTitle with
  | Thrown _ => findGamePage api gameTitle = None
  | Returned hits =>
      (findGamePage api gameTitle = None
       /\ forall r, r ∈ hits -> (scoreOf gameTitle r <= 0)%Z)
      \/ exists best i,
           findGamePage api gameTitle = Some best
           /\ hits !! i = Some best
           /\ (0 < scoreOf gameTitle best)%Z
           /\ (forall r, r ∈ hits ->
                 (scoreOf gameTitle r <= scoreOf gameTitle best)%Z)
           /\ (forall j r, (j < i)%nat -> hits !! j = Some r ->
                 (scoreOf gameTitle r < scoreOf gameTitle best)%Z)
  end.
Proof.
  unfold findGamePage.
  destruct (searchGamePages api gameTitle) as [hits|e]; [|reflexivity].
  destruct hits as [|r0 hits].
  { left. split; [reflexivity|]. intros r Hr. now apply elem_of_nil in Hr. }
  cbv zeta. set (scored := fun result => (result, scoreOf gameTitle result)).
  pose proof (head_Array_sort_loop (map scored (r0 :: hits)) []) as Hhead.
  fold (Array_sort byScore (map scored (r0 :: hits))) in Hhead.
  cbn [map fold_left head] in Hhead.
  destruct (fold_better_spec (map scored hits) (scored r0))
    as (b & Hb & Hmax & Hle & Hfirst).
  rewrite Hb in Hhead.
  assert (forall r, r ∈ r0 :: hits -> (scoreOf gameTitle r <= b.2)%Z) as Hall.
  { intros r [->|Hr]%elem_of_cons; [exact Hle|].
    apply (Hmax (scored r)). apply list_elem_of_fmap. now exists r. }
  assert (exists i, (r0 :: hits) !! i = Some b.1
            /\ b.2 = scoreOf gameTitle b.1
            /\ forall j r, (j < i)%nat -> (r0 :: hits) !! j = Some r ->
                 (scoreOf gameTitle r < b.2)%Z) as (i & Hi & Hscore & Hbefore).
  { destruct Hfirst as [-> | (i & Hi & Hlt & Hbefore)].
    - exists 0%nat. split; [reflexivity|]. split; [reflexivity|]. intros; lia.
    - rewrite list_lookup_fmap in Hi.
      destruct (hits !! i) as [r|] eqn:Hr; [|discriminate Hi].
      injection Hi as <-. exists (S i). split; [exact Hr|].
      split; [reflexivity|].
      intros [|j] r' Hj Hr'; cbn in Hr'.
      + injection Hr' as <-. exact Hlt.
      + apply (Hbefore j (scored r')); [lia|].
        rewrite list_lookup_fmap. exact (f_equal (fmap scored) Hr'). }
  change (scored r0 :: map scored hits) with (map scored (r0 :: hits)) in Hhead.
  destruct (Array_sort byScore (map scored (r0 :: hits))) as [|[best score] rest];
    [discriminate Hhead|].
  cbn in Hhead. injection Hhead as <-. cbn [fst snd] in *.
  destruct (Z.ltb_spec 0 score) as [Hpos|Hnot].
  - right. exists best, i. rewrite <- Hscore. auto.
  - left. split; [reflexivity|]. intros r Hr. apply Hall in Hr. lia.
Qed.

(** X17.  [findGamePage] returns the first of the hits, in the order of the
    search, among those with the highest score, and that score is positive. *)
Theorem findGamePage_best (api : Api) (gameTitle : string) (best : SearchHit) :
  findGamePage api gameTitle = Some best ->
  exists hits i,
    searchGamePages api gameTitle = Returned hits
    /\ hits !! i = Some best
    /\ (0 < scoreOf gameTitle best)%Z
    /\ (forall r, r ∈ hits ->
          (scoreOf gameTitle r <= scoreOf gameTitle best)%Z)
    /\ (forall j r, (j < i)%nat -> hits !! j = Some r ->
          (scoreOf gameTitle r < scoreOf gameTitle best)%Z).
Proof.
  intros Hbest. pose proof (findGamePage_cases api gameTitle) as Hcases.
  destruct (searchGamePages api gameTitle) as [hits|e]; [|congruence].
  destruct Hcases as [[Hnone _] | (best' & i & Hsome & Hrest)]; [congruence|].
  rewrite Hbest in Hsome. injection Hsome as <-. now exists hits, i.
Qed.

(** The theorem at the search for "Celeste". *)
Lemma findGamePage_best_witness :
  exists hits i,
    searchGamePages Examples.celesteApi "Celeste" = Returned hits
    /\ hits !! i
       = Some (mkSearchHit "Celeste (video game)"
                 "Celeste is a 2018 platform game developed by Maddy Thorson").
Proof.
  destruct (findGamePage_best Examples.celesteApi "Celeste"
              (mkSearchHit "Celeste (video game)"
                 "Celeste is a 2018 platform game developed by Maddy Thorson")
              eq_refl) as (hits & i & Hhits & Hi & _).
  now exists hits, i.
Defined.

(** The score of a hit is between 0 and 210; it is 150 or more when the
    titles are equal up to letter case, and 110 or less when they are
    not. *)
Lemma scoreOf_range gameTitle r :
  (0 <= scoreOf gameTitle r <= 210)%Z
  /\ (toLowerCase (hit_title r) = toLowerCase gameTitle ->
      (150 <= scoreOf gameTitle r)%Z)
  /\ (toLowerCase (hit_title r) <> toLowerCase gameTitle ->
      (scoreOf gameTitle r <= 110)%Z).
Proof.
  unfold scoreOf, gameKeywords. cbv zeta. cbn [fold_left].
  destruct (String.eqb_spec (toLowerCase (hit_title r)) (toLowerCase gameTitle))
    as [Heq|Hne].
  - rewrite Heq, includes_refl.
    repeat match goal with
           | |- context [if includes ?a ?b then _ else _] =>
               destruct (includes a b)
           end; repeat split; intros; try lia; congruence.
  - repeat match goal with
           | |- context [if includes ?a ?b then _ else _] =>
               destruct (includes a b)
           end; repeat split; intros; try lia; contradiction.
Qed.

(** X18.  [findGamePage] finds no article exactly when the request throws or
    every hit has the score 0. *)
Theorem findGamePage_none (api : Api) (gameTitle : string) :
  findGamePage api gameTitle = None
  <-> match searchGamePages api gameTitle with
      | Thrown _ => True
      | Returned hits => forall r, r ∈ hits -> scoreOf gameTitle r = 0%Z
      end.
Proof.
  pose proof (findGamePage_cases api gameTitle) as Hcases.
  destruct (searchGamePages api gameTitle) as [hits|e]; [|tauto].
  destruct Hcases as [[Hnone Hzero] | (best & i & Hsome & Hi & Hpos & _)].
  - split; [|auto]. intros _ r Hr.
    pose proof (scoreOf_range gameTitle r) as [[Hlo _] _].
    apply Hzero in Hr. lia.
  - split; [congruence|]. intros Hzero.
    apply list_elem_of_lookup_2 in Hi. apply Hzero in Hi. lia.
Qed.

(** X19.  When a hit has the title that was asked for, up to letter case,
    [findGamePage] returns a hit with that title, whatever the snippets say. *)
Theorem findGamePage_prefers_exact_title
    (api : Api) (gameTitle : string) (hits : list SearchHit) (r : SearchHit) :
  searchGamePages api gameTitle = Returned hits ->
  r ∈ hits ->
  toLowerCase (hit_title r) = toLowerCase gameTitle ->
  exists best,
    findGamePage api gameTitle = Some best
    /\ best ∈ hits
    /\ toLowerCase (hit_title best) = toLowerCase gameTitle.
Proof.
  intros Hhits Hr Hexact.
  pose proof (findGamePage_cases api gameTitle) as Hcases.
  rewrite Hhits in Hcases.
  pose proof (scoreOf_range gameTitle r) as (_ & Hhigh & _).
  specialize (Hhigh Hexact).
  destruct Hcases as [[_ Hzero] | (best & i & Hsome & Hi & _ & Hmax & _)].
  - apply Hzero in Hr. lia.
  - exists best. split; [exact Hsome|].
    split; [now apply list_elem_of_lookup_2 in Hi|].
    destruct (String.eqb_spec (toLowerCase (hit_title best))
                (toLowerCase gameTitle)) as [Heq|Hne]; [exact Heq|].
    pose proof (scoreOf_range gameTitle best) as (_ & _ & Hlow).
    specialize (Hlow Hne). apply Hmax in Hr. lia.
Qed.

(** The theorem at two hits for "Celeste", the second with the title. *)
Lemma findGamePage_prefers_exact_title_witness :
  exists best,
    findGamePage Examples.twoHitsApi "Celeste" = Some best
    /\ best ∈ Examples.twoHits
    /\ toLowerCase (hit_title best) = "celeste".
Proof.
  apply (findGamePage_prefers_exact_title Examples.twoHitsApi "Celeste"
           Examples.twoHits (mkSearchHit "celeste" "A mountain")).
  - reflexivity.
  - right. left.
  - reflexivity.
Defined.

(** X20.  Every candidate of the Wikipedia service names Wikipedia as its
    source and carries the attribution under CC BY-SA 3.0 with the address of
    the article; its platforms, genre and modes are arrays; it has no [id] and
    no [searchMetadata] yet. *)
Theorem extractGameMetadata_shape
    (parse : string -> InfoboxData) (api : Api) (gameTitle : string)
    (game : Candidate) :
  extractGameMetadata parse api gameTitle = Some game ->
  (license <$> attribution game) = Some "CC BY-SA 3.0"
  /\ (attr_url <$> attribution game) = (ds_attribution <$> dataSource game)
  /\ (ds_primary <$> dataSource game) = Some (JStr "wikipedia")
  /\ is_Some (platforms game) /\ is_Some (genre game) /\ is_Some (modes game)
  /\ id game = JUndefined /\ searchMetadata game = None.
Proof.
  unfold extractGameMetadata.
  destruct (findGamePage api gameTitle) as [gamePage|]; [|discriminate].
  destruct (getPageContent api _) as [pageContent|]; [|discriminate].
  destruct (getPageWikitext api _) as [wikitext|]; [|discriminate].
  intros [= <-]. cbn. repeat split; eauto.
Qed.

(** The theorem at the article "Celeste (video game)". *)
Lemma extractGameMetadata_shape_witness :
  (license <$> attribution
     (mapToGameDataModel emptyInfobox
        (mkPageData (JStr "Celeste (video game)")
           (JStr "Celeste is a 2018 platform game.") JUndefined
           (JStr "https://en.wikipedia.org/wiki/Celeste_(video_game)"))))
  = Some "CC BY-SA 3.0".
Proof.
  apply (extractGameMetadata_shape Examples.noFields Examples.celesteApi
           "Celeste").
  vm_compute. reflexivity.
Defined.

(** X21.  An article in which each of the four patterns matches at most once:
    [match] with the [g] flag returns the complete matches, [match[1]] is
    undefined, and no field is parsed, whatever the infobox holds. *)
Theorem parseInfoBox_needs_two_matches
    (parse : string -> InfoboxData) (wikitext : string) :
  (forall pattern, pattern ∈ infoboxPatterns ->
     (length (globalMatches pattern wikitext) <= 1)%nat) ->
  parseInfoBox parse wikitext = emptyInfobox.
Proof.
  intros Hone. unfold parseInfoBox.
  assert (forall patterns,
            (forall pattern, pattern ∈ patterns ->
               (length (globalMatches pattern wikitext) <= 1)%nat) ->
            (fix firstMatching (patterns : list string) : option string :=
               match patterns with
               | [] => None
               | pattern :: rest =>
                   match globalMatches pattern wikitext with
                   | [] => firstMatching rest
                   | matches => matches !! 1%nat
                   end
               end) patterns = None) as Hnone.
  { induction patterns as [|pattern rest IH]; intros Hall; [reflexivity|].
    pose proof (Hall pattern (list_elem_of_here _ _)) as Hlen.
    destruct (globalMatches pattern wikitext) as [|m [|m' ms]].
    - apply IH. intros p Hp. apply Hall. now right.
    - reflexivity.
    - cbn in Hlen. lia. }
  now rewrite (Hnone infoboxPatterns Hone).
Qed.

(** The theorem at an article with one infobox. *)
Lemma parseInfoBox_needs_two_matches_witness :
  parseInfoBox Examples.noFields
    "{{Infobox video game | title = Celeste | developer = Maddy Makes Games }} Celeste is a game."
  = emptyInfobox.
Proof.
  apply (parseInfoBox_needs_two_matches Examples.noFields).
  intros pattern Hin. unfold infoboxPatterns in Hin.
  repeat (apply elem_of_cons in Hin as [->|Hin]; [vm_compute; lia|]).
  now apply elem_of_nil in Hin.
Defined.

(** *** The values of the infobox fields *)

Lemma list_ascii_of_string_app s t :
  list_ascii_of_string (s ++ t)
  = (list_ascii_of_string s ++ list_ascii_of_string t)%list.
Proof.
  induction s as [|c s IH]; [reflexivity|].
  change (c :: list_ascii_of_string (s ++ t)
          = c :: (list_ascii_of_string s ++ list_ascii_of_string t)%list).
  now rewrite IH.
Qed.

Lemma trimStart_chars (P : ascii -> Prop) s :
  Forall P (list_ascii_of_string s) ->
  Forall P (list_ascii_of_string (trimStart s)).
Proof.
  induction s as [|c s IH]; cbn; [auto|]. intros Hall.
  destruct (isWhiteSpace c); [|exact Hall].
  apply IH. now inversion Hall.
Qed.

Lemma trimEnd_chars (P : ascii -> Prop) s :
  Forall P (list_ascii_of_string s) ->
  Forall P (list_ascii_of_string (trimEnd s)).
Proof.
  induction s as [|c s IH]; cbn; [auto|]. intros Hall.
  inversion Hall as [|? ? Hc Hs]; subst. specialize (IH Hs).
  destruct (trimEnd s) as [|d t].
  - destruct (isWhiteSpace c); cbn; auto.
  - cbn. constructor; assumption.
Qed.

Lemma trim_chars (P : ascii -> Prop) s :
  Forall P (list_ascii_of_string s) ->
  Forall P (list_ascii_of_string (trim s)).
Proof. intros Hall. now apply trimEnd_chars, trimStart_chars. Qed.

Lemma splitOn_chars isSeparator s :
  forall item, item ∈ splitOn isSeparator s ->
    Forall (fun c => isSeparator c = false) (list_ascii_of_string item).
Proof.
  induction s as [|c s IH]; cbn [splitOn]; intros item Hitem.
  - apply list_elem_of_singleton in Hitem as ->. constructor.
  - destruct (isSeparator c) eqn:Hc.
    + apply elem_of_cons in Hitem as [->|Hitem]; [constructor | now apply IH].
    + destruct (splitOn isSeparator s) as [|first items].
      * apply list_elem_of_singleton in Hitem as ->. cbn. auto.
      * apply elem_of_cons in Hitem as [->|Hitem].
        -- cbn. constructor; [exact Hc|]. apply IH. now left.
        -- apply IH. now right.
Qed.

Lemma includes_char_false c s :
  Forall (fun d => d <> c) (list_ascii_of_string s) ->
  includes s (String c EmptyString) = false.
Proof.
  induction s as [|d s IH]; cbn; [reflexivity|]. intros Hall.
  inversion Hall as [|? ? Hd Hs]; subst.
  destruct (ascii_dec c d) as [->|_]; [contradiction | now apply IH].
Qed.

Lemma isListSeparator_false c :
  isListSeparator c = false -> c <> ","%char /\ c <> ";"%char.
Proof.
  unfold isListSeparator. intros [Hcomma Hsemi]%orb_false_elim.
  split; intros ->; discriminate.
Qed.

(** The items that a list value is split into are not empty, have no white
    space around them and hold no separator. *)
Lemma listItems_clean value item :
  item ∈ listItems value ->
  item <> ""
  /\ trim item = item
  /\ Forall (fun c => isListSeparator c = false) (list_ascii_of_string item).
Proof.
  unfold listItems. intros Hitem.
  apply list_elem_of_In, filter_In in Hitem as [Hitem Hlen].
  apply in_map_iff in Hitem as (raw & <- & Hraw).
  split; [|split].
  - intros Hempty. rewrite Hempty in Hlen. discriminate Hlen.
  - apply JsStringFacts.trim_idem.
  - apply trim_chars, (splitOn_chars isListSeparator value).
    now apply list_elem_of_In.
Qed.

Lemma concat_chars (P : ascii -> Prop) sep items :
  Forall P (list_ascii_of_string sep) ->
  (forall item, item ∈ items -> Forall P (list_ascii_of_string item)) ->
  Forall P (list_ascii_of_string (String.concat sep items)).
Proof.
  intros Hsep. induction items as [|item items IH]; intros Hitems; cbn.
  - constructor.
  - destruct items as [|next items].
    + apply Hitems. now left.
    + rewrite !list_ascii_of_string_app. rewrite !Forall_app.
      split; [apply Hitems; now left|]. split; [exact Hsep|].
      apply IH. intros x Hx. apply Hitems. now right.
Qed.

Lemma join_no_semicolon value :
  includes (join ", " (listItems value)) ";" = false.
Proof.
  apply includes_char_false, concat_chars.
  - cbn. repeat (constructor; [discriminate|]). constructor.
  - intros item (_ & _ & Hchars)%listItems_clean.
    eapply Forall_impl; [|exact Hchars].
    cbn. intros c Hc. now apply isListSeparator_false in Hc.
Qed.

(** X22.  [processFieldValue], for a value of the infobox: the platforms, the
    genre and the modes become an array of items that are not empty, have no
    white space around them and hold neither a comma nor a semicolon; the
    developer and the publisher become a text without a semicolon. *)
Theorem processFieldValue_normalises
    (normalizeDate : string -> string) (fieldType value : string) :
  (fieldType ∈ ["platforms"; "genre"; "modes"] ->
   exists items,
     processFieldValue normalizeDate fieldType value = FieldList items
     /\ forall item, item ∈ items ->
          item <> "" /\ trim item = item
          /\ includes item "," = false /\ includes item ";" = false)
  /\ (fieldType ∈ ["developer"; "publisher"] ->
      exists text,
        processFieldValue normalizeDate fieldType value = FieldText text
        /\ includes text ";" = false).
Proof.
  split.
  - intros Hfield. exists (listItems value). split.
    + unfold processFieldValue.
      repeat (apply elem_of_cons in Hfield as [->|Hfield]; [reflexivity|]).
      now apply elem_of_nil in Hfield.
    + intros item (Hne & Htrim & Hchars)%listItems_clean.
      repeat split; [exact Hne | exact Htrim | |];
        apply includes_char_false; eapply Forall_impl; [|exact Hchars|
                                                         |exact Hchars];
        cbn; intros c Hc; now apply isListSeparator_false in Hc.
  - intros Hfield.
    assert (processFieldValue normalizeDate fieldType value
            = if includes value "," || includes value ";"
              then FieldText (join ", " (listItems value))
              else FieldText value) as ->.
    { unfold processFieldValue.
      repeat (apply elem_of_cons in Hfield as [->|Hfield]; [reflexivity|]).
      now apply elem_of_nil in Hfield. }
    destruct (includes value ",") eqn:Hcomma; cbn [orb];
      [|destruct (includes value ";") eqn:Hsemi].
    3:{ now exists value. }
    all: eexists; (split; [reflexivity | apply join_no_semicolon]).
Qed.

(** The theorem at the platforms "PC; Nintendo Switch, ,PlayStation 4 ". *)
Lemma processFieldValue_normalises_witness :
  exists items,
    processFieldValue (fun date => date) "platforms"
      "PC; Nintendo Switch, ,PlayStation 4 "
    = FieldList items
    /\ forall item, item ∈ items ->
         item <> "" /\ trim item = item
         /\ includes item "," = false /\ includes item ";" = false.
Proof.
  apply (processFieldValue_normalises (fun date => date) "platforms"
           "PC; Nintendo Switch, ,PlayStation 4 ").
  left.
Defined.

End WikipediaPageFacts.

(** ** The rows of a Wikidata response *)

Module WikidataResponseFacts.
Import SearchManager WikidataService ScoringFacts.

(** *** Sets *)

Lemma elem_of_setAdd x y set : y ∈ setAdd x set <-> y = x \/ y ∈ set.
Proof.
  unfold setAdd. destruct (existsb (String.eqb x) set) eqn:Hex.
  - apply SimilarityFacts.existsb_eqb_iff in Hex. split; [now right|].
    intros [->|Hy]; assumption.
  - rewrite elem_of_app, list_elem_of_singleton. tauto.
Qed.

Lemma NoDup_setAdd x set : NoDup set -> NoDup (setAdd x set).
Proof.
  intros Hnd. unfold setAdd. destruct (existsb (String.eqb x) set) eqn:Hex.
  - exact Hnd.
  - apply list.NoDup_app. split; [exact Hnd|]. split.
    + intros y Hy Hx. apply list_elem_of_singleton in Hx as ->.
      apply SimilarityFacts.existsb_eqb_iff in Hy. congruence.
    + apply NoDup_singleton.
Qed.

(** [extractValue] yields a text that is not empty, or [null]. *)
Lemma extractValue_cases (binding : option string) :
  (truthy (extractValue binding) = false
   /\ forall value, binding = Some value -> value = "")
  \/ (exists value,
        binding = Some value /\ value <> ""
        /\ extractValue binding = JStr value
        /\ truthy (extractValue binding) = true).
Proof.
  destruct binding as [value|]; cbn; [|left; split; [reflexivity | discriminate]].
  destruct (String.eqb_spec value "") as [->|Hne]; cbn.
  - left. split; [reflexivity|]. now intros ? [= <-].
  - right. exists value. repeat split; [exact Hne|].
    now apply negb_true_iff, String.eqb_neq.
Qed.

(** *** Platforms *)

(** X23.  For a platform whose name is not a property that every object
    inherits, [normalizePlatform] gives a name that is none either, and it
    maps what it has mapped to itself. *)
Theorem normalizePlatform_idempotent (platform : string) :
  platform ∉ inheritedProperties ->
(normalizePlatform platform ∉ inheritedProperties)
  /\ normalizePlatform (normalizePlatform platform)
     = normalizePlatform platform.
Proof.
  intros Hname.
  assert (normalizePlatform platform = platform
          \/ In (normalizePlatform platform) (map snd platformMappings))
    as [Hsame | Hin].
  { unfold normalizePlatform.
    destruct (find _ platformMappings) as [kv|] eqn:Hfind; [right | now left].
    apply find_some in Hfind as [Hin _]. now apply in_map. }
  - now rewrite !Hsame.
  - cbn in Hin.
    repeat (destruct Hin as [Heq | Hin];
            [rewrite <- Heq; split; [|reflexivity];
             apply (bool_decide_unpack _); vm_compute; exact I|]).
    contradiction.
Qed.

(** The theorem at "Microsoft Windows". *)
Lemma normalizePlatform_idempotent_witness :
  normalizePlatform (normalizePlatform "Microsoft Windows")
  = normalizePlatform "Microsoft Windows".
Proof.
  apply (normalizePlatform_idempotent "Microsoft Windows").
  apply (bool_decide_unpack _). vm_compute. exact I.
Defined.

(** X24.  The platforms of a game, when no row labels a platform with an
    inherited property name: no platform twice, and exactly the normalised
    labels of its rows. *)
Theorem extractPlatforms_spec (bindings : list Binding) :
  (forall binding label,
     binding ∈ bindings -> b_platformLabel binding = Some label ->
     label ∉ inheritedProperties) ->
  NoDup (extractPlatforms bindings)
  /\ forall platform,
       platform ∈ extractPlatforms bindings
       <-> exists binding label,
             binding ∈ bindings
             /\ b_platformLabel binding = Some label /\ label <> ""
             /\ platform = normalizePlatform label.
Proof.
  intros _. unfold extractPlatforms.
  assert (forall platforms,
            NoDup platforms ->
            NoDup (fold_left
                     (fun platforms binding =>
                        let platform := extractValue (b_platformLabel binding) in
                        if truthy platform
                        then setAdd (normalizePlatform (orEmpty platform)) platforms
                        else platforms) bindings platforms)
            /\ forall platform,
                 platform ∈ fold_left
                     (fun platforms binding =>
                        let platform := extractValue (b_platformLabel binding) in
                        if truthy platform
                        then setAdd (normalizePlatform (orEmpty platform)) platforms
                        else platforms) bindings platforms
                 <-> platform ∈ platforms
                     \/ exists binding label,
                          binding ∈ bindings
                          /\ b_platformLabel binding = Some label /\ label <> ""
                          /\ platform = normalizePlatform label) as Hloop.
  { induction bindings as [|b bs IH]; intros platforms Hnd; cbn [fold_left].
    - split; [exact Hnd|]. intros p. split; [now left|].
      intros [Hp | (b & label & Hb & _)]; [exact Hp|].
      now apply elem_of_nil in Hb.
    - cbv zeta.
      destruct (extractValue_cases (b_platformLabel b))
        as [[Hfalsy Hnone] | (label & Hlabel & Hne & Hvalue & Htruthy)].
      + rewrite Hfalsy. destruct (IH platforms Hnd) as [Hnd' Hin].
        split; [exact Hnd'|]. intros p. rewrite Hin. split.
        * intros [Hp | (b' & l' & Hb' & Hrest)]; [now left | right].
          exists b', l'. split; [now right | exact Hrest].
        * intros [Hp | (b' & l' & [->|Hb']%elem_of_cons & Hl' & Hne' & Hp)];
            [now left | now apply Hnone in Hl' | right].
          now exists b', l'.
      + rewrite Htruthy, Hvalue. cbn [orEmpty].
        destruct (IH (setAdd (normalizePlatform label) platforms)
                    (NoDup_setAdd _ _ Hnd)) as [Hnd' Hin].
        split; [exact Hnd'|]. intros p. rewrite Hin, elem_of_setAdd. split.
        * intros [[-> | Hp] | (b' & l' & Hb' & Hrest)].
          -- right. exists b, label. split; [now left | auto].
          -- now left.
          -- right. exists b', l'. split; [now right | exact Hrest].
        * intros [Hp | (b' & l' & [->|Hb']%elem_of_cons & Hl' & Hne' & Hp)].
          -- left. now right.
          -- left. left. congruence.
          -- right. now exists b', l'. }
  destruct (Hloop [] (NoDup_nil_2)) as [Hnd Hin]. split; [exact Hnd|].
  intros p. rewrite Hin. split; [|now right].
  intros [Hp|Hex]; [now apply elem_of_nil in Hp | exact Hex].
Qed.

(** The theorem at three rows, for "Nintendo Switch", "Wii U" and
    "Nintendo Switch". *)
Lemma extractPlatforms_spec_witness :
  NoDup (extractPlatforms Examples.zeldaRows).
Proof.
  apply (extractPlatforms_spec Examples.zeldaRows).
  intros binding label Hbinding Hlabel.
  unfold Examples.zeldaRows in Hbinding. cbn [map] in Hbinding.
  repeat (apply elem_of_cons in Hbinding as [->|Hbinding];
          [cbn in Hlabel; injection Hlabel as <-;
           apply (bool_decide_unpack _); vm_compute; exact I|]).
  now apply elem_of_nil in Hbinding.
Defined.

(** *** The grouping of the rows *)

(** A loop that adds to a set what [pick] selects. *)
Lemma fold_setAdd_spec {B} (pick : B -> option string) (rows : list B) :
  forall set,
    NoDup set ->
    NoDup (fold_left
             (fun set row =>
                match pick row with Some x => setAdd x set | None => set end)
             rows set)
    /\ forall x,
         x ∈ fold_left
               (fun set row =>
                  match pick row with Some x => setAdd x set | None => set end)
               rows set
         <-> x ∈ set \/ exists row, row ∈ rows /\ pick row = Some x.
Proof.
  induction rows as [|row rows IH]; intros set Hnd; cbn [fold_left].
  - split; [exact Hnd|]. intros x. split; [now left|].
    intros [Hx | (row & Hrow & _)]; [exact Hx | now apply elem_of_nil in Hrow].
  - destruct (pick row) as [y|] eqn:Hpick.
    + destruct (IH (setAdd y set) (NoDup_setAdd _ _ Hnd)) as [Hnd' Hin].
      split; [exact Hnd'|]. intros x. rewrite Hin, elem_of_setAdd. split.
      * intros [[-> | Hx] | (row' & Hrow' & Hx)].
        -- right. exists row. split; [now left | exact Hpick].
        -- now left.
        -- right. exists row'. split; [now right | exact Hx].
      * intros [Hx | (row' & [->|Hrow']%elem_of_cons & Hx)].
        -- left. now right.
        -- left. left. congruence.
        -- right. now exists row'.
    + destruct (IH set Hnd) as [Hnd' Hin].
      split; [exact Hnd'|]. intros x. rewrite Hin. split.
      * intros [Hx | (row' & Hrow' & Hx)]; [now left | right].
        exists row'. split; [now right | exact Hx].
      * intros [Hx | (row' & [->|Hrow']%elem_of_cons & Hx)];
          [now left | congruence | right].
        now exists row'.
Qed.

Section Grouping.
Variable toISODate : string -> option string.

(** The key under which a row is grouped, when it is not skipped. *)
Local Abbreviation rowKey :=
  (fun binding : Binding =>
     if negb (truthy (extractValue (b_wikidataId binding)))
        || negb (truthy (extractValue (b_game binding)))
     then None
     else Some (orEmpty (extractValue (b_wikidataId binding)))).

Lemma mapGet_keys key gameMap :
  match mapGet key gameMap with
  | Some _ => existsb (String.eqb key) (map g_wikidataId gameMap) = true
  | None => existsb (String.eqb key) (map g_wikidataId gameMap) = false
  end.
Proof.
  induction gameMap as [|game rest IH]; cbn; [reflexivity|].
  rewrite (String.eqb_sym key).
  destruct (g_wikidataId game =? key)%string; [reflexivity | exact IH].
Qed.

Lemma mapUpdate_keys key f gameMap :
  (forall game, g_wikidataId (f game) = g_wikidataId game) ->
  map g_wikidataId (mapUpdate key f gameMap) = map g_wikidataId gameMap.
Proof.
  intros Hf. induction gameMap as [|game rest IH]; cbn; [reflexivity|].
  destruct (_ =? _)%string; cbn; [now rewrite Hf | now rewrite IH].
Qed.

Lemma groupBinding_keys gameMap binding :
  map g_wikidataId (groupBinding toISODate gameMap binding)
  = match rowKey binding with
    | Some key => setAdd key (map g_wikidataId gameMap)
    | None => map g_wikidataId gameMap
    end.
Proof.
  unfold groupBinding.
  destruct (negb _ || negb _); [reflexivity|]. cbv zeta.
  rewrite mapUpdate_keys by reflexivity. unfold setAdd.
  pose proof (mapGet_keys (orEmpty (extractValue (b_wikidataId binding)))
                gameMap) as Hget.
  destruct (mapGet _ gameMap); rewrite Hget; [reflexivity|].
  now rewrite map_app.
Qed.

Lemma groupBindings_keys bindings : forall gameMap,
  map g_wikidataId (fold_left (groupBinding toISODate) bindings gameMap)
  = fold_left
      (fun set row =>
         match rowKey row with Some x => setAdd x set | None => set end)
      bindings (map g_wikidataId gameMap).
Proof.
  induction bindings as [|b bs IH]; intros gameMap; cbn [fold_left];
    [reflexivity|].
  now rewrite IH, groupBinding_keys.
Qed.

Lemma extractEnhancedMetadata_ids response :
  map wikidataId (extractEnhancedMetadata toISODate response)
  = map JStr
      (fold_left
         (fun set row =>
            match rowKey row with Some x => setAdd x set | None => set end)
         (orNil response) [])
  /\ Forall (fun game => id game = wikidataId game /\ genre game = None)
       (extractEnhancedMetadata toISODate response).
Proof.
  unfold extractEnhancedMetadata, parseWikidataResponse. cbv zeta.
  destruct response as [bindings|]; [|split; [reflexivity | constructor]].
  split.
  - rewrite !map_map. cbn [wikidataId toCandidate orNil].
    rewrite <- (map_map g_wikidataId JStr).
    now rewrite groupBindings_keys.
  - rewrite !Forall_map. cbn. apply list.Forall_forall. auto.
Qed.

(** The rows of a result: all rows of the response with its Wikidata id,
    with or without an entity address. *)
Local Abbreviation rowsOf :=
  (fun (response : Response) (game : Candidate) =>
     List.filter
       (fun binding =>
          strictEq (extractValue (b_wikidataId binding)) (wikidataId game))
       (orNil response)).

Lemma extractEnhancedMetadata_rows response :
  Forall
    (fun game =>
       let first := default emptyBinding (head (rowsOf response game)) in
       releaseDate game
       = parseDate toISODate (extractValue (b_releaseDate first))
       /\ coverImage game = extractValue (b_image first)
       /\ platforms game = Some (extractPlatforms (rowsOf response game))
       /\ developer game
          = firstOrNull (extractCompanies b_developerLabel
                           (rowsOf response game))
       /\ publisher game
          = firstOrNull (extractCompanies b_publisherLabel
                           (rowsOf response game)))
    (extractEnhancedMetadata toISODate response).
Proof.
  unfold extractEnhancedMetadata. cbv zeta. rewrite Forall_map.
  apply list.Forall_forall. intros game _. cbn. auto.
Qed.

(** X25.  The results of the Wikidata service for a response: one result for
    each id that a row with an id and an entity address carries, no id
    twice, and each result has its Wikidata id as its [id]; a row without
    an id or without an entity address creates no result.  The rows of a
    result are then picked by id alone: its date and image are those of the
    first row of the response with its id, and its platforms, developer and
    publisher those of all rows with its id, rows without an entity address
    among them. *)
Theorem wikidata_results_grouped (response : Response) :
  let games := extractEnhancedMetadata toISODate response in
  NoDup (map wikidataId games)
  /\ Forall (fun game => id game = wikidataId game) games
  /\ (forall key,
        JStr key ∈ map wikidataId games
        <-> exists binding uri,
              binding ∈ orNil response
              /\ b_wikidataId binding = Some key /\ key <> ""
              /\ b_game binding = Some uri /\ uri <> "")
  /\ Forall
       (fun game =>
          let first := default emptyBinding (head (rowsOf response game)) in
          releaseDate game
          = parseDate toISODate (extractValue (b_releaseDate first))
          /\ coverImage game = extractValue (b_image first)
          /\ platforms game = Some (extractPlatforms (rowsOf response game))
          /\ developer game
             = firstOrNull (extractCompanies b_developerLabel
                              (rowsOf response game))
          /\ publisher game
             = firstOrNull (extractCompanies b_publisherLabel
                              (rowsOf response game)))
       games.
Proof.
  cbv zeta.
  destruct (extractEnhancedMetadata_ids response) as [Hmap Hids].
  destruct (fold_setAdd_spec rowKey (orNil response) [] (NoDup_nil_2))
    as [Hnd Hin].
  split; [|split; [|split]];
    [| | |exact (extractEnhancedMetadata_rows response)].
  - rewrite Hmap.
    assert (Inj eq eq JStr) as Hinj by (intros x y Heq; congruence).
    exact (NoDup_fmap_2 JStr _ Hnd).
  - eapply Forall_impl; [|exact Hids]. now intros game [Hid _].
  - intros key. rewrite Hmap, (list_elem_of_fmap JStr).
    split.
    + intros (key' & [= <-] & Hkey). apply Hin in Hkey.
      destruct Hkey as [Hkey | (b & Hb & Hrow)];
        [now apply elem_of_nil in Hkey|].
      destruct (extractValue_cases (b_wikidataId b))
        as [[Hfalsy _] | (k & Hk & Hne & Hvalue & Htruthy)];
        [now rewrite Hfalsy in Hrow|].
      destruct (extractValue_cases (b_game b))
        as [[Hfalsy _] | (uri & Huri & Hne' & _ & Htruthy')];
        [now rewrite Hfalsy, orb_true_r in Hrow|].
      rewrite Htruthy, Htruthy', Hvalue in Hrow. cbn in Hrow.
      injection Hrow as <-. now exists b, uri.
    + intros (b & uri & Hb & Hk & Hne & Huri & Hne').
      exists key. split; [reflexivity|]. apply Hin. right.
      exists b. split; [exact Hb|]. rewrite Hk, Huri.
      apply String.eqb_neq in Hne, Hne'.
      unfold extractValue, truthy. rewrite Hne, Hne'. cbn.
      now rewrite Hne, Hne'.
Qed.

(** X26.  No result of the Wikidata service has the property [genre] that the
    search manager counts (the service fills [genres]): its completeness, as
    the search manager computes it, is 7/8 at most. *)
Theorem wikidata_results_completeness (response : Response) (game : Candidate) :
  game ∈ extractEnhancedMetadata toISODate response ->
  genre game = None /\ (calculateDataCompleteness game <= 7 # 8)%Q.
Proof.
  intros Hgame.
  destruct (extractEnhancedMetadata_ids response) as [_ Hall].
  apply (proj1 (list.Forall_forall _ _) Hall) in Hgame as [_ Hgenre].
  split; [exact Hgenre|].
  unfold calculateDataCompleteness. rewrite Hgenre. cbn [nonEmptyArray].
  destruct (truthy (title game)), (truthy (releaseDate game)),
    (truthy (developer game)), (truthy (publisher game)),
    (nonEmptyArray (platforms game)), (truthy (coverImage game)),
    (truthy (description game)); vm_compute; intros Hgt; discriminate Hgt.
Qed.
End Grouping.

(** The theorem at the result for a response with one row. *)
Lemma wikidata_results_completeness_witness :
  (calculateDataCompleteness
     (default emptyObject
        (head (extractEnhancedMetadata Examples.isoPrefix
                 Examples.unlabelledResponse))) <= 7 # 8)%Q.
Proof.
  apply (wikidata_results_completeness Examples.isoPrefix
           Examples.unlabelledResponse).
  vm_compute. left.
Defined.

(** A row without an entity address creates no result, yet it supplies the
    date and a platform of the result that a later row with its id
    creates. *)
Lemma wikidata_row_without_address_example :
  let response :=
    Some [mkBinding (Some "Q42") None (Some "Untitled")
            (Some "+2012-11-18T00:00:00Z") (Some "Wii U") None None None
            None None;
          mkBinding (Some "Q42") (Some "http://www.wikidata.org/entity/Q42")
            (Some "Zelda") (Some "+2017-03-03T00:00:00Z")
            (Some "Nintendo Switch") None None None None None] in
  map (fun game => (title game, releaseDate game, platforms game))
    (extractEnhancedMetadata Examples.isoPrefix response)
  = [(JStr "Zelda", JStr "2012-11-18", Some ["Wii U"; "Nintendo Switch"])].
Proof. vm_compute. reflexivity. Qed.

(** *** Store links *)

Lemma Store_eqb_eq a b : Store_eqb a b = true <-> a = b.
Proof. destruct a, b; cbn; split; congruence. Qed.

Lemma Store_eqb_sym a b : Store_eqb a b = Store_eqb b a.
Proof. now destruct a, b. Qed.

(** The websites that the rows carry, in their order. *)
Local Abbreviation presentWebsites :=
  (fun officialWebsites : list (option string) =>
     map orEmpty (List.filter truthy (map extractValue officialWebsites))).

(** The websites of a store. *)
Local Abbreviation ofStore :=
  (fun (store : Store) (website : string) =>
     match detectStoreType website with
     | Some storeType => Store_eqb storeType store
     | None => false
     end).

Lemma addWebsites_spec store officialWebsites : forall state,
  let final := fold_left addWebsite officialWebsites state in
  final.2 store
  = match state.2 store with
    | Some link => Some link
    | None =>
        head (List.filter (ofStore store) (presentWebsites officialWebsites))
    end
  /\ (NoDup state.1 -> NoDup final.1)
  /\ forall website,
       website ∈ final.1
       <-> website ∈ state.1 \/ website ∈ presentWebsites officialWebsites.
Proof.
  induction officialWebsites as [|b rows IH]; intros state; cbn [fold_left].
  - cbn. split; [now destruct (state.2 store)|]. split; [auto|].
    intros u. rewrite elem_of_nil. tauto.
  - destruct (IH (addWebsite state b)) as (Hlink & Hnd & Hin).
    cbv zeta in *. rewrite Hlink. clear Hlink.
    unfold addWebsite in *. cbv zeta in *. cbn [map List.filter].
    destruct (extractValue_cases b)
      as [[Hfalsy _] | (v & _ & _ & Hvalue & Htruthy)].
    + rewrite Hfalsy in *. split; [reflexivity|]. split; [exact Hnd|].
      exact Hin.
    + rewrite Htruthy, Hvalue in *. cbn [orEmpty map List.filter] in *.
      split; [|split].
      * destruct (detectStoreType v) as [storeType|] eqn:Htype;
          [|reflexivity].
        destruct (state.2 storeType) as [link|] eqn:Hlinked; cbn [snd].
        -- destruct (Store_eqb storeType store) eqn:Hstore; [|reflexivity].
           apply Store_eqb_eq in Hstore. subst storeType.
           now rewrite Hlinked.
        -- unfold setStoreLink. rewrite (Store_eqb_sym store storeType).
           destruct (Store_eqb storeType store) eqn:Hstore; [|reflexivity].
           apply Store_eqb_eq in Hstore. subst storeType.
           now rewrite Hlinked.
      * intros Hstate. apply Hnd.
        destruct (detectStoreType v) as [storeType|];
          [destruct (state.2 storeType)|]; cbn [fst];
          now apply NoDup_setAdd.
      * intros u. rewrite Hin.
        destruct (detectStoreType v) as [storeType|];
          [destruct (state.2 storeType)|]; cbn [fst];
          rewrite elem_of_setAdd, elem_of_cons; tauto.
Qed.

(** X27.  [extractOfficialWebsites]: the link of a store is the first of the
    websites of the rows that is of that store; the websites are those of the
    rows, none twice; and there are store links exactly when a website is of
    some store. *)
Theorem extractOfficialWebsites_first_wins
    (officialWebsites : list (option string)) :
  let info := extractOfficialWebsites officialWebsites in
  (forall store,
     storeLinks info store
     = head (List.filter (ofStore store) (presentWebsites officialWebsites)))
  /\ NoDup (websites info)
  /\ (forall website,
        website ∈ websites info
        <-> website ∈ presentWebsites officialWebsites)
  /\ (hasStoreLinks info = true
      <-> exists website,
            website ∈ presentWebsites officialWebsites
            /\ detectStoreType website <> None).
Proof.
  cbv zeta. unfold extractOfficialWebsites. cbv zeta.
  cbn [storeLinks websites hasStoreLinks].
  assert (forall store,
            (fold_left addWebsite officialWebsites ([], fun _ => None)).2 store
            = head (List.filter (ofStore store)
                      (presentWebsites officialWebsites))) as Hlinks.
  { intros store.
    now destruct (addWebsites_spec store officialWebsites ([], fun _ => None))
      as (-> & _). }
  destruct (addWebsites_spec steam officialWebsites ([], fun _ => None))
    as (_ & Hnd & Hin).
  cbv zeta in Hnd, Hin. cbn [fst] in Hnd, Hin.
  split; [exact Hlinks|]. split; [apply Hnd, NoDup_nil_2|]. split.
  - intros u. rewrite Hin, elem_of_nil. tauto.
  - rewrite existsb_exists. split.
    + intros (store & _ & Hsome). apply bool_decide_eq_true in Hsome.
      rewrite Hlinks in Hsome.
      destruct (List.filter (ofStore store) (presentWebsites officialWebsites))
        as [|u us] eqn:Hf; [contradiction|].
      assert (In u (List.filter (ofStore store)
                      (presentWebsites officialWebsites))) as Hu
        by (rewrite Hf; now left).
      apply filter_In in Hu as [Hu Hstore]. exists u.
      split; [now apply list_elem_of_In|].
      now destruct (detectStoreType u).
    + intros (u & Hu & Htype).
      destruct (detectStoreType u) as [store|] eqn:Hstore; [|contradiction].
      exists store. split; [destruct store; cbn; tauto|].
      apply bool_decide_eq_true. rewrite Hlinks.
      assert (In u (List.filter (ofStore store)
                      (presentWebsites officialWebsites))) as Hf.
      { apply filter_In. split; [now apply list_elem_of_In|].
        rewrite Hstore. now apply Store_eqb_eq. }
      now destruct (List.filter (ofStore store)
                      (presentWebsites officialWebsites)).
Qed.

(** *** The completeness score *)

(** X28.  The completeness score of the Wikidata service is one of nine
    percentages, from 0 to 100; a half is rounded upwards. *)
Theorem calculateCompletenessScore_values (gameData : Candidate) :
  (0 <= calculateCompletenessScore gameData <= 100)%Z
  /\ calculateCompletenessScore gameData
     ∈ [0; 13; 25; 38; 50; 63; 75; 88; 100]%Z.
Proof.
  unfold calculateCompletenessScore. cbv zeta.
  match goal with
  | |- context [length (filter ?P ?l)] =>
      pose proof (length_filter P l) as Hle;
      generalize dependent (length (filter P l))
  end.
  cbn [length]. intros filled Hle.
  do 9 (destruct filled as [|filled];
        [match goal with
         | |- context [Math_round ?q] =>
             let score := eval vm_compute in (Math_round q) in
             change (Math_round q) with score
         end;
         split; [lia|]; rewrite !elem_of_cons; tauto|]).
  lia.
Qed.

End WikidataResponseFacts.
